(** * Storefront services: order, login and product handlers

    A shallow embedding of the three HTTP services of the repository
    (order-service, login-service, product-service) and of the relational
    schema they share, followed by the properties of the order transaction,
    the session check, the accounts and sessions of the login service, the
    catalogue and its cache, the routing tables, and the product service
    that keeps its products in memory.

    Conventions of the embedding.
    - A handler is a function from its inputs (request, clock, store) to a
      response and the store it leaves behind.
    - The PostgreSQL connection is explicit state: durable tables, the
      working copy of the open transaction, and the transaction flag.
      [BEGIN], [COMMIT] and [ROLLBACK] are operations on that state.
    - JavaScript numbers are IEEE-754 binary64 values, taken from the
      executable specification [SpecFloat] (precision 53, emax 1024).
    - Engine or driver failures that the schema does not determine (lost
      connection, deadlock, a value outside its column type) are given by a
      fault plan: the statements, counted from 0 in the order the handler
      sends them, that fail, each with the message the driver reports.
    - A handler that queries the pool threads the store and the count of
      the statements it has sent; a rejected statement is what its [try]
      block catches.
    - JavaScript strings are strings of code units below 256. *)

From Stdlib Require Import ZArith QArith List Ascii String Bool.
From Stdlib Require Import Floats.SpecFloat.
From stdpp Require Import base option list gmap strings pretty.

Local Open Scope Z_scope.
Local Open Scope string_scope.

(** ** JavaScript numbers *)

Definition jsnum : Type := spec_float.

Definition js_mul : jsnum -> jsnum -> jsnum := SFmul 53 1024.
Definition js_add : jsnum -> jsnum -> jsnum := SFadd 53 1024.
Definition js_div : jsnum -> jsnum -> jsnum := SFdiv 53 1024.
Definition js_zero : jsnum := S754_zero false.

(** The number a JSON integer literal denotes (rounded to nearest, ties to
    even, when it has more than 53 significant bits). *)
Definition Z2SF (z : Z) : jsnum := binary_normalize 53 1024 z 0 false.

(** [ToNumber] of a request field: an absent field is [undefined], which
    converts to NaN. *)
Definition to_number (v : option Z) : jsnum :=
  match v with
  | Some z => Z2SF z
  | None => S754_nan
  end.

(** A [DECIMAL(10,2)] column is held as a count of hundredths.  The driver
    returns it as a decimal string, and [parseFloat] of that string is the
    binary64 value nearest to hundredths/100: the correctly rounded quotient
    of two exactly representable integers. *)
Definition parseFloat (hundredths : Z) : jsnum :=
  js_div (Z2SF hundredths) (Z2SF 100).





(** [${v}] in a template string, for the integer-valued fields the order
    handler prints. *)
Definition show_undefined (v : option Z) : string :=
  match v with
  | Some z => pretty z
  | None => "undefined"
  end.

Definition show_null (v : option Z) : string :=
  match v with
  | Some z => pretty z
  | None => "null"
  end.

(** ** The schema (database/init.sql) *)

(** [products]: the key of the map is the [id] column. *)
Record Product := {
  p_name : string;
  p_price : Z;                     (* DECIMAL(10,2) NOT NULL, in hundredths *)
  p_stock_quantity : option Z;     (* INTEGER DEFAULT 0, nullable *)
  p_is_active : bool
}.

(** [orders]: the key of the map is the [id] column.  [total_amount] holds
    the number the service sent for it. *)
Record Order := {
  o_user_id : Z;
  o_total_amount : jsnum;
  o_status : string;
  o_shipping_address : option string;
  o_billing_address : option string;
  o_created_at : Z;
  o_updated_at : Z
}.

(** [order_items]: rows in insertion order. *)
Record OrderItem := {
  oi_order_id : Z;
  oi_product_id : option Z;       (* INTEGER REFERENCES products(id), nullable *)
  oi_quantity : Z;                 (* INTEGER NOT NULL *)
  oi_unit_price : Z;               (* DECIMAL(10,2) NOT NULL, in hundredths *)
  oi_total_price : jsnum
}.

Record Tables := {
  products : gmap Z Product;
  users : gset Z;
  orders : gmap Z Order;
  order_items : list OrderItem
}.

(** The store: the tables and the [orders_id_seq] sequence behind
    [orders.id SERIAL].  A sequence is not transactional: a value drawn
    inside a transaction stays drawn when the transaction rolls back. *)
Record Db := {
  tables : Tables;
  orders_id_seq : Z
}.

Definition set_products (f : gmap Z Product -> gmap Z Product) (t : Tables) : Tables :=
  {| products := f (products t); users := users t;
     orders := orders t; order_items := order_items t |}.

Definition set_orders (f : gmap Z Order -> gmap Z Order) (t : Tables) : Tables :=
  {| products := products t; users := users t;
     orders := f (orders t); order_items := order_items t |}.

Definition set_order_items (f : list OrderItem -> list OrderItem) (t : Tables) : Tables :=
  {| products := products t; users := users t;
     orders := orders t; order_items := f (order_items t) |}.

Definition with_stock (s : option Z) (p : Product) : Product :=
  {| p_name := p_name p; p_price := p_price p;
     p_stock_quantity := s; p_is_active := p_is_active p |}.

Definition with_status (s : string) (now : Z) (o : Order) : Order :=
  {| o_user_id := o_user_id o; o_total_amount := o_total_amount o;
     o_status := s; o_shipping_address := o_shipping_address o;
     o_billing_address := o_billing_address o;
     o_created_at := o_created_at o; o_updated_at := now |}.

(** SQL integer arithmetic: NULL when an operand is NULL. *)
Definition sql_sub (a b : option Z) : option Z :=
  match a, b with
  | Some x, Some y => Some (x - y)
  | _, _ => None
  end.

Definition sql_add (a b : option Z) : option Z :=
  match a, b with
  | Some x, Some y => Some (x + y)
  | _, _ => None
  end.

(** ** Errors and responses *)

Inductive pg_error :=
  | NotNullViolation (column : string)
  | ForeignKeyViolation (constraint : string)
  | UniqueViolation (constraint : string)
  | Fault (msg : string).

(** What a [try] block can catch: an [Error] thrown by the handler itself
    or a rejected query. *)
Inductive exn :=
  | Error (message : string)
  | DatabaseError (e : pg_error).

(** [err.message]: the handler's own text, or the engine's text for the
    given engine error. *)
Inductive message :=
  | Text (s : string)
  | EngineText (e : pg_error).

Definition err_message (e : exn) : message :=
  match e with
  | Error m => Text m
  | DatabaseError (Fault m) => Text m
  | DatabaseError e => EngineText e
  end.

Inductive Body :=
  | ErrorBody (error : message)
  | MessageBody (msg : string)
  | OrderRow (id : Z) (row : Order)
  | CompleteOrder (id : Z) (row : option Order) (items : list OrderItem).

Record Response := {
  status_code : Z;
  body : Body
}.

Definition json_error (code : Z) (m : string) : Response :=
  {| status_code := code; body := ErrorBody (Text m) |}.

(** ** The pooled connection *)

(** A client checked out of the pool: the tables as committed, the tables
    as the open transaction sees them, whether a transaction is open, the
    sequence, and how many statements the handler has sent so far. *)
Record Conn := {
  durable : Tables;
  working : Tables;
  in_txn : bool;
  seq : Z;
  issued : nat
}.

Definition connect (db : Db) : Conn :=
  {| durable := tables db; working := tables db; in_txn := false;
     seq := orders_id_seq db; issued := 0 |}.

(** What releasing the client leaves in the store. *)
Definition release (c : Conn) : Db :=
  {| tables := durable c; orders_id_seq := seq c |}.

(** ROLLBACK in the [catch] block: the working copy is dropped. *)
Definition ROLLBACK (c : Conn) : Conn :=
  {| durable := durable c; working := durable c; in_txn := false;
     seq := seq c; issued := S (issued c) |}.

(** The body of a [try] block: it runs on the connection and either
    yields a value or throws. *)
Definition Tx (A : Type) : Type := Conn -> Conn * (exn + A).

Definition ret {A} (a : A) : Tx A := fun c => (c, inr a).
Definition throw {A} (e : exn) : Tx A := fun c => (c, inl e).
Definition bind {A B} (m : Tx A) (k : A -> Tx B) : Tx B :=
  fun c => match m c with
           | (c', inr a) => k a c'
           | (c', inl e) => (c', inl e)
           end.

Declare Scope tx_scope.
Delimit Scope tx_scope with tx.
Notation "'let*' x := m 'in' k" := (bind m (fun x => k))
  (at level 10, x name, m at level 100, k at level 200, only parsing) : tx_scope.

Definition sent (c : Conn) : Conn :=
  {| durable := durable c; working := working c; in_txn := in_txn c;
     seq := seq c; issued := S (issued c) |}.

Section OrderService.

(** The fault plan of the run. *)
Variable fault : nat -> option string.

(** [await client.query(...)]: the statement is counted; it fails when the
    fault plan says so, and otherwise acts on the working tables. *)
Definition query {A} (stmt : Tables -> Z -> Z * (pg_error + Tables * A)) : Tx A :=
  fun c =>
    match fault (issued c) with
    | Some m => (sent c, inl (DatabaseError (Fault m)))
    | None =>
        match stmt (working c) (seq c) with
        | (sq, inl e) =>
            ({| durable := durable c; working := working c; in_txn := in_txn c;
                seq := sq; issued := S (issued c) |}, inl (DatabaseError e))
        | (sq, inr (t, a)) =>
            ({| durable := durable c; working := t; in_txn := in_txn c;
                seq := sq; issued := S (issued c) |}, inr a)
        end
    end.

Definition select {A} (f : Tables -> A) : Tx A :=
  query (fun t sq => (sq, inr (t, f t))).

Definition execute (f : Tables -> Tables) : Tx unit :=
  query (fun t sq => (sq, inr (f t, tt))).

Definition BEGIN : Tx unit :=
  fun c =>
    match fault (issued c) with
    | Some m => (sent c, inl (DatabaseError (Fault m)))
    | None =>
        ({| durable := durable c; working := durable c; in_txn := true;
            seq := seq c; issued := S (issued c) |}, inr tt)
    end.

Definition COMMIT : Tx unit :=
  fun c =>
    match fault (issued c) with
    | Some m => (sent c, inl (DatabaseError (Fault m)))
    | None =>
        ({| durable := working c; working := working c; in_txn := false;
            seq := seq c; issued := S (issued c) |}, inr tt)
    end.

(** *** The statements of the order service *)

(** [SELECT id, name, price, stock_quantity FROM products
     WHERE id = $1 AND is_active = true]; [rows[0]] when there is one.
    A NULL parameter matches no row. *)
Definition find_active (t : Tables) (id : option Z) : option Product :=
  match id with
  | None => None
  | Some i =>
      match products t !! i with
      | Some p => if p_is_active p then Some p else None
      | None => None
      end
  end.

Definition select_active_product (id : option Z) : Tx (option Product) :=
  select (fun t => find_active t id).

(** [UPDATE products SET stock_quantity = stock_quantity - $1 WHERE id = $2]. *)
Definition decrement_stock (qty id : option Z) : Tx unit :=
  execute (fun t =>
    match id with
    | None => t
    | Some i =>
        set_products
          (alter (fun p => with_stock (sql_sub (p_stock_quantity p) qty) p) i) t
    end).

(** [UPDATE products SET stock_quantity = stock_quantity + $1 WHERE id = $2]. *)
Definition restore_stock (qty : Z) (id : option Z) : Tx unit :=
  execute (fun t =>
    match id with
    | None => t
    | Some i =>
        set_products
          (alter (fun p => with_stock (sql_add (p_stock_quantity p) (Some qty)) p) i) t
    end).

(** [INSERT INTO orders (user_id, total_amount, shipping_address,
     billing_address) VALUES ($1, $2, $3, $4) RETURNING *].  The id is
    drawn from the sequence before the row is checked; [status] takes its
    default. *)
Definition insert_order (now : Z) (user_id : Z) (total : jsnum)
    (shipping billing : option string) : Tx (Z * Order) :=
  query (fun t sq =>
    let id := sq + 1 in
    let row := {| o_user_id := user_id; o_total_amount := total;
                  o_status := "pending";
                  o_shipping_address := shipping;
                  o_billing_address := billing;
                  o_created_at := now; o_updated_at := now |} in
    (id,
     if decide (user_id ∈ users t) then
       match orders t !! id with
       | Some _ => inl (UniqueViolation "orders_pkey")
       | None => inr (set_orders (insert id row) t, (id, row))
       end
     else inl (ForeignKeyViolation "orders_user_id_fkey"))).

(** One element of [processedItems]. *)
Record ProcessedItem := {
  pi_product_id : option Z;
  pi_quantity : option Z;
  pi_unit_price : Z;
  pi_total_price : jsnum
}.

(** [INSERT INTO order_items (order_id, product_id, quantity, unit_price,
     total_price) VALUES ($1, $2, $3, $4, $5)]. *)
Definition insert_order_item (order_id : Z) (item : ProcessedItem) : Tx unit :=
  query (fun t sq =>
    (sq,
     match pi_quantity item with
     | None => inl (NotNullViolation "quantity")
     | Some q =>
         let row := {| oi_order_id := order_id;
                       oi_product_id := pi_product_id item;
                       oi_quantity := q;
                       oi_unit_price := pi_unit_price item;
                       oi_total_price := pi_total_price item |} in
         match orders t !! order_id with
         | None => inl (ForeignKeyViolation "order_items_order_id_fkey")
         | Some _ =>
             if match pi_product_id item with
                | None => true
                | Some pid => bool_decide (is_Some (products t !! pid))
                end
             then inr (set_order_items (fun l => (l ++ [row])%list) t, tt)
             else inl (ForeignKeyViolation "order_items_product_id_fkey")
         end
     end)).

(** *** Running a handler *)

(** What a handler leaves behind: the store after [client.release()], the
    response, and whether the released client still has a transaction
    open. *)
Record Result := {
  db_after : Db;
  response : Response;
  txn_open : bool
}.

(** [try { ... } catch (err) { await client.query('ROLLBACK'); ... }
     finally { client.release(); }] *)
Definition try_catch_release (body : Tx Response) (handler : exn -> Response)
    (db : Db) : Result :=
  match body (connect db) with
  | (c, inr res) =>
      {| db_after := release c; response := res; txn_open := in_txn c |}
  | (c, inl err) =>
      let c' := ROLLBACK c in
      {| db_after := release c'; response := handler err; txn_open := in_txn c' |}
  end.

(** [await pool.query(...)] after the transaction: a read of the committed
    tables on another client. *)
Definition pool_select {A} (f : Tables -> A) : Tx A :=
  fun c => (c, inr (f (durable c))).

(** *** POST /api/orders *)

(** One element of [req.body.items]; a field is [None] when the line does
    not carry it. *)
Record Line := {
  li_product_id : option Z;
  li_quantity : option Z
}.

(** [req.body]; [rq_items] is [None] when [items] is absent or is not an
    array. *)
Record CreateRequest := {
  rq_user_id : option Z;
  rq_items : option (list Line);
  rq_shipping_address : option string;
  rq_billing_address : option string
}.

(** [!user_id || !items || !Array.isArray(items) || items.length === 0]
    is false: the request passes, with its user and its lines. *)
Definition required_fields (req : CreateRequest) : option (Z * list Line) :=
  match rq_user_id req, rq_items req with
  | Some u, Some (item :: rest) =>
      if (u =? 0)%Z then None else Some (u, item :: rest)
  | _, _ => None
  end.

(** [product.stock_quantity < item.quantity]: a NULL stock compares as 0,
    and any comparison with [undefined] is false. *)
Definition js_lt (stock quantity : option Z) : bool :=
  match quantity with
  | None => false
  | Some q => (default 0 stock <? q)%Z
  end.

Definition not_found_message (id : option Z) : string :=
  "Product with ID " ++ show_undefined id ++ " not found or inactive".

Definition insufficient_stock_message (p : Product) (requested : option Z) : string :=
  "Insufficient stock for product " ++ p_name p ++ ". Available: "
  ++ show_null (p_stock_quantity p) ++ ", Requested: " ++ show_undefined requested.

(** The body of [for (const item of items)], on one item. *)
Definition process_item (item : Line) (totalAmount : jsnum)
    (processedItems : list ProcessedItem) : Tx (jsnum * list ProcessedItem) :=
  (let* productResult := select_active_product (li_product_id item) in
   match productResult with
   | None => throw (Error (not_found_message (li_product_id item)))
   | Some product =>
       if js_lt (p_stock_quantity product) (li_quantity item)
       then throw (Error (insufficient_stock_message product (li_quantity item)))
       else
         let itemTotal :=
           js_mul (parseFloat (p_price product)) (to_number (li_quantity item)) in
         let totalAmount := js_add totalAmount itemTotal in
         let processedItems :=
           (processedItems ++
              [ {| pi_product_id := li_product_id item;
                   pi_quantity := li_quantity item;
                   pi_unit_price := p_price product;
                   pi_total_price := itemTotal |} ])%list in
         let* _ := decrement_stock (li_quantity item) (li_product_id item) in
         ret (totalAmount, processedItems)
   end)%tx.

Fixpoint process_items (items : list Line) (totalAmount : jsnum)
    (processedItems : list ProcessedItem) : Tx (jsnum * list ProcessedItem) :=
  match items with
  | [] => ret (totalAmount, processedItems)
  | item :: rest =>
      (let* acc := process_item item totalAmount processedItems in
       process_items rest (fst acc) (snd acc))%tx
  end.

(** [for (const item of processedItems)]: one insert per element. *)
Fixpoint insert_order_items (order_id : Z) (processedItems : list ProcessedItem)
    : Tx unit :=
  match processedItems with
  | [] => ret tt
  | item :: rest =>
      (let* _ := insert_order_item order_id item in
       insert_order_items order_id rest)%tx
  end.

Definition items_of_order (id : Z) (t : Tables) : list OrderItem :=
  filter (fun it => oi_order_id it = id) (order_items t).

Definition create_order_body (now : Z) (req : CreateRequest) : Tx Response :=
  (let* _ := BEGIN in
   match required_fields req with
   | None =>
       ret (json_error 400 "Missing required fields: user_id and items array")
   | Some (user_id, items) =>
       let* acc := process_items items js_zero [] in
       let totalAmount := fst acc in
       let processedItems := snd acc in
       let* order := insert_order now user_id totalAmount
                  (rq_shipping_address req) (rq_billing_address req) in
       let* _ := insert_order_items (fst order) processedItems in
       let* _ := COMMIT in
       let* completeOrder := pool_select (fun t =>
         CompleteOrder (fst order) (orders t !! fst order)
                       (items_of_order (fst order) t)) in
       ret {| status_code := 201; body := completeOrder |}
   end)%tx.

Definition create_order (now : Z) (req : CreateRequest) (db : Db) : Result :=
  try_catch_release (create_order_body now req)
    (fun err => {| status_code := 500; body := ErrorBody (err_message err) |})
    db.

(** *** PATCH /api/orders/:id/status *)

Definition validStatuses : list string :=
  ["pending"; "confirmed"; "processing"; "shipped"; "delivered"; "cancelled"].

(** [validStatuses.includes(status)] *)
Definition includes (l : list string) (s : string) : bool :=
  existsb (String.eqb s) l.

(** One [pool.query]: the UPDATE commits on its own. *)
Definition update_order_status (now : Z) (orderId : Z) (status : string) (db : Db)
    : Result :=
  if negb (includes validStatuses status) then
    {| db_after := db;
       response := json_error 400
         ("Invalid status. Valid statuses: " ++ String.concat ", " validStatuses);
       txn_open := false |}
  else
    match fault 0 with
    | Some _ =>
        {| db_after := db; response := json_error 500 "Internal server error";
           txn_open := false |}
    | None =>
        match orders (tables db) !! orderId with
        | None =>
            {| db_after := db; response := json_error 404 "Order not found";
               txn_open := false |}
        | Some o =>
            let row := with_status status now o in
            {| db_after :=
                 {| tables := set_orders (insert orderId row) (tables db);
                    orders_id_seq := orders_id_seq db |};
               response := {| status_code := 200; body := OrderRow orderId row |};
               txn_open := false |}
        end
    end.

(** *** DELETE /api/orders/:id *)

(** [for (const item of itemsResult.rows)] *)
Fixpoint restore_items (rows : list OrderItem) : Tx unit :=
  match rows with
  | [] => ret tt
  | item :: rest =>
      (let* _ := restore_stock (oi_quantity item) (oi_product_id item) in
       restore_items rest)%tx
  end.

Definition cancel_order_body (now : Z) (orderId : Z) : Tx Response :=
  (let* _ := BEGIN in
   let* orderResult := select (fun t => orders t !! orderId) in
   match orderResult with
   | None => ret (json_error 404 "Order not found")
   | Some order =>
       if String.eqb (o_status order) "delivered"
       then ret (json_error 400 "Cannot cancel delivered order")
       else
         let* itemsResult := select (items_of_order orderId) in
         let* _ := restore_items itemsResult in
         let* _ := execute (set_orders (alter (with_status "cancelled" now) orderId)) in
         let* _ := COMMIT in
         ret {| status_code := 200;
                body := MessageBody "Order cancelled successfully" |}
   end)%tx.

Definition cancel_order (now : Z) (orderId : Z) (db : Db) : Result :=
  try_catch_release (cancel_order_body now orderId)
    (fun _ => json_error 500 "Internal server error")
    db.

End OrderService.

(** The fault plan of a run in which the engine rejects nothing on its
    own. *)
Definition no_fault : nat -> option string := fun _ => None.

(** ** login-service: the session check *)

Module Login.

(** The payload signed into a token at login. *)
Record Claims := {
  user_id : Z;
  username : string;
  email : string
}.

(** A row of [user_sessions]. *)
Record Session := {
  s_user_id : Z;
  s_session_token : string;
  s_expires_at : Z
}.

Inductive Body :=
  | ErrorBody (error : string)
  | InvalidBody (error : string)          (* { valid: false, error } *)
  | ValidBody (user : Claims).            (* { valid: true, user } *)

Record Response := {
  status_code : Z;
  body : Body
}.

(** What the middleware does with a request: hand it on with [req.user]
    set, or answer it. *)
Inductive Outcome :=
  | Next (user : Claims)
  | Respond (res : Response).

(** [s.split(c)] for a one-character separator. *)
Fixpoint split (c : ascii) (s : string) : list string :=
  match s with
  | EmptyString => [EmptyString]
  | String a rest =>
      if Ascii.eqb a c then EmptyString :: split c rest
      else match split c rest with
           | piece :: more => String a piece :: more
           | [] => [String a EmptyString]
           end
  end.

(** [authHeader && authHeader.split(' ')[1]], as a truthy string or
    nothing. *)
Definition bearer_token (authHeader : option string) : option string :=
  match authHeader with
  | None => None
  | Some h =>
      match split " "%char h with
      | _ :: t :: _ => if String.eqb t "" then None else Some t
      | _ => None
      end
  end.

Section Auth.

(** [jwt.verify(token, JWT_SECRET)] at the time of the request: the decoded
    payload, or [None] when it throws (bad signature, malformed token,
    expiry claim in the past). *)
Variable jwt_verify : string -> option Claims.

(** Whether the request's [pool.query] is rejected. *)
Variable query_rejected : bool.

(** [SELECT user_id FROM user_sessions
     WHERE session_token = $1 AND expires_at > NOW()] *)
Definition live_sessions (now : Z) (token : string) (user_sessions : list Session)
    : list Z :=
  map s_user_id
    (filter (fun s => s_session_token s = token ∧ (now < s_expires_at s)%Z)
            user_sessions).

Definition authenticateToken (now : Z) (authHeader : option string)
    (user_sessions : list Session) : Outcome :=
  match bearer_token authHeader with
  | None =>
      Respond {| status_code := 401; body := ErrorBody "Access token required" |}
  | Some token =>
      match jwt_verify token with
      | None =>
          Respond {| status_code := 403; body := ErrorBody "Invalid token" |}
      | Some decoded =>
          if query_rejected
          then Respond {| status_code := 403; body := ErrorBody "Invalid token" |}
          else
            match live_sessions now token user_sessions with
            | [] =>
                Respond {| status_code := 401;
                           body := ErrorBody "Invalid or expired session" |}
            | _ :: _ => Next decoded
            end
      end
  end.

(** POST /api/auth/verify; [token] is [req.body.token]. *)
Definition verify (now : Z) (token : option string)
    (user_sessions : list Session) : Response :=
  match token with
  | None => {| status_code := 400; body := ErrorBody "Token required" |}
  | Some token =>
      if String.eqb token ""
      then {| status_code := 400; body := ErrorBody "Token required" |}
      else
        match jwt_verify token with
        | None => {| status_code := 401; body := InvalidBody "Invalid token" |}
        | Some decoded =>
            if query_rejected
            then {| status_code := 401; body := InvalidBody "Invalid token" |}
            else
              match live_sessions now token user_sessions with
              | [] => {| status_code := 401;
                         body := ErrorBody "Invalid or expired session" |}
              | _ :: _ => {| status_code := 200; body := ValidBody decoded |}
              end
        end
  end.

(** POST /api/auth/logout, behind the middleware:
    [DELETE FROM user_sessions WHERE session_token = $1]. *)
Definition delete_session (token : string) (user_sessions : list Session)
    : list Session :=
  filter (fun s => s_session_token s <> token) user_sessions.

Definition logout (now : Z) (authHeader : option string)
    (user_sessions : list Session) : list Session * Outcome :=
  match authenticateToken now authHeader user_sessions with
  | Next user =>
      match bearer_token authHeader with
      | Some token => (delete_session token user_sessions, Next user)
      | None => (user_sessions, Next user)
      end
  | Respond res => (user_sessions, Respond res)
  end.

End Auth.

End Login.

(** ** product-service: GET /api/products *)

Module ProductList.

(** What an awaited call to a collaborator does. *)
Inductive reply (A : Type) :=
  | Rejected
  | Resolved (a : A).
Arguments Rejected {A}.
Arguments Resolved {A} a.

Section Listing.

(** [result.rows] of the listing query, and its JSON text. *)
Variable Rows : Type.
Variable JSON_stringify : Rows -> string.
Variable JSON_parse : string -> option Rows.

(** The collaborators as one request meets them: [redisClient.get],
    [pool.query] and [redisClient.setEx]. *)
Record Collaborators := {
  redis_get : reply (option string);
  pool_query : reply Rows;
  redis_setEx : reply unit
}.

Inductive Body :=
  | Products (rows : Rows)
  | ErrorBody (error : string).

Record Response := {
  status_code : Z;
  body : Body
}.

(** The handler's answer, and the [setEx] that took effect, if any: key,
    time to live in seconds, and value. *)
Record Handled := {
  response : Response;
  cache_write : option (string * Z * string)
}.

Definition failed : Response :=
  {| status_code := 500; body := ErrorBody "Failed to fetch products" |}.

Definition get_products (w : Collaborators) : Handled :=
  let cacheKey := "products:all" in
  match redis_get w with
  | Rejected => {| response := failed; cache_write := None |}
  | Resolved cached =>
      match (match cached with
             | Some text => if String.eqb text "" then None else Some text
             | None => None
             end) with
      | Some text =>
          match JSON_parse text with
          | Some rows =>
              {| response := {| status_code := 200; body := Products rows |};
                 cache_write := None |}
          | None => {| response := failed; cache_write := None |}
          end
      | None =>
          match pool_query w with
          | Rejected => {| response := failed; cache_write := None |}
          | Resolved products =>
              let write := Some (cacheKey, 300, JSON_stringify products) in
              match redis_setEx w with
              | Rejected => {| response := failed; cache_write := None |}
              | Resolved _ =>
                  {| response := {| status_code := 200; body := Products products |};
                     cache_write := write |}
              end
          end
      end
  end.

End Listing.

End ProductList.

(** ** JavaScript strings *)

(** A string is modelled by its code units, for strings whose code units
    are all below 256.  White space ([\s], and what [parseInt] skips) is
    then tab, line feed, vertical tab, form feed, carriage return, space
    and no-break space. *)
Definition is_white_space (c : ascii) : bool :=
  let n := N_of_ascii c in
  ((9 <=? n) && (n <=? 13) || (n =? 32) || (n =? 160))%N.

(** The value of a digit in the given radix. *)
Definition digit_of (radix : Z) (c : ascii) : option Z :=
  let n := Z.of_N (N_of_ascii c) in
  let v := if ((48 <=? n) && (n <=? 57))%Z then Some (n - 48)
           else if ((97 <=? n) && (n <=? 122))%Z then Some (n - 87)
           else if ((65 <=? n) && (n <=? 90))%Z then Some (n - 55)
           else None in
  match v with
  | Some d => if (d <? radix)%Z then Some d else None
  | None => None
  end.

(** The integer the leading digits of [s] stand for, continuing from
    [acc]; [None] when there was no digit at all. *)
Fixpoint leading_digits (radix : Z) (s : string) (acc : option Z) : option Z :=
  match s with
  | EmptyString => acc
  | String c rest =>
      match digit_of radix c with
      | Some d => leading_digits radix rest (Some (default 0 acc * radix + d))
      | None => acc
      end
  end.

Fixpoint trim_start (s : string) : string :=
  match s with
  | EmptyString => EmptyString
  | String c rest => if is_white_space c then trim_start rest else s
  end.

(** [parseInt(s)]: leading white space is skipped, then a sign, then a
    [0x] or [0X] prefix that selects radix 16, then the digits up to the
    first character that is not one.  [None] is NaN.  The result is the
    integer read; the number the caller gets is the nearest binary64
    value. *)
Definition parseInt (s : string) : option Z :=
  let trimmed := trim_start s in
  let sign := match trimmed with
              | String "-" _ => -1
              | _ => 1
              end in
  let unsigned := match trimmed with
                  | String "+" rest | String "-" rest => rest
                  | _ => trimmed
                  end in
  let '(radix, digits) :=
    match unsigned with
    | String "0" (String "x" rest) | String "0" (String "X" rest) => (16, rest)
    | _ => (10, unsigned)
    end in
  match leading_digits radix digits None with
  | None => None
  | Some mathInt => Some (sign * mathInt)
  end.

(** The values of an [INTEGER] column or parameter. *)
Definition int4 (n : Z) : bool := ((- 2 ^ 31 <=? n) && (n <? 2 ^ 31))%Z.

(** ** Handlers on the pool *)

(** [await pool.query(...)] outside a transaction: every statement commits
    on its own.  A handler runs on the store and counts the statements it
    has sent; a statement fails when the fault plan says so or when the
    schema rejects it, and what it has written before stays written. *)
Record Pool (St : Type) := {
  store : St;
  queries : nat
}.
Arguments store {St} _.
Arguments queries {St} _.

Definition Await (St A : Type) : Type := Pool St -> Pool St * (pg_error + A).

Definition resolve {St A} (a : A) : Await St A := fun w => (w, inr a).

Definition and_then {St A B} (m : Await St A) (k : A -> Await St B) : Await St B :=
  fun w => match m w with
           | (w', inr a) => k a w'
           | (w', inl e) => (w', inl e)
           end.

Declare Scope await_scope.
Delimit Scope await_scope with await.
Notation "'let*' x := m 'in' k" := (and_then m (fun x => k))
  (at level 10, x name, m at level 100, k at level 200, only parsing) : await_scope.

(** A statement maps the store to the store it leaves (on an error only a
    sequence can have moved) and to its rows or its error. *)
Definition pool_query {St A} (fault : nat -> option string)
    (stmt : St -> St * (pg_error + A)) : Await St A :=
  fun w =>
    match fault (queries w) with
    | Some m => ({| store := store w; queries := S (queries w) |}, inl (Fault m))
    | None =>
        let (s, r) := stmt (store w) in
        ({| store := s; queries := S (queries w) |}, r)
    end.

(** [try { ... } catch (err) { ... }] around a handler body. *)
Definition try_catch {St R} (body : Await St R) (handler : pg_error -> R) (s : St)
    : St * R :=
  match body {| store := s; queries := 0 |} with
  | (w, inr res) => (store w, res)
  | (w, inl err) => (store w, handler err)
  end.

(** ** Regular expressions *)

Module Regex.

Inductive regex :=
  | Never
  | Empty
  | Class (p : ascii -> bool)
  | Seq (r1 r2 : regex)
  | Alt (r1 r2 : regex)
  | Star (r : regex).

(** [r+] *)
Definition Plus (r : regex) : regex := Seq r (Star r).

Fixpoint nullable (r : regex) : bool :=
  match r with
  | Never => false
  | Empty => true
  | Class _ => false
  | Seq r1 r2 => nullable r1 && nullable r2
  | Alt r1 r2 => nullable r1 || nullable r2
  | Star _ => true
  end.

(** What is left of [r] after the character [c]. *)
Fixpoint derive (c : ascii) (r : regex) : regex :=
  match r with
  | Never => Never
  | Empty => Never
  | Class p => if p c then Empty else Never
  | Seq r1 r2 =>
      if nullable r1
      then Alt (Seq (derive c r1) r2) (derive c r2)
      else Seq (derive c r1) r2
  | Alt r1 r2 => Alt (derive c r1) (derive c r2)
  | Star r1 => Seq (derive c r1) (Star r1)
  end.

(** [/^r$/.test(s)]: the whole of [s] is a match of [r]. *)
Fixpoint test (r : regex) (s : string) : bool :=
  match s with
  | EmptyString => nullable r
  | String c rest => test (derive c r) rest
  end.

(** The strings a pattern stands for. *)
Inductive matches : regex -> string -> Prop :=
  | m_empty : matches Empty ""
  | m_class p c : p c = true -> matches (Class p) (String c "")
  | m_seq r1 r2 s1 s2 : matches r1 s1 -> matches r2 s2 -> matches (Seq r1 r2) (s1 ++ s2)
  | m_alt_l r1 r2 s : matches r1 s -> matches (Alt r1 r2) s
  | m_alt_r r1 r2 s : matches r2 s -> matches (Alt r1 r2) s
  | m_star_nil r : matches (Star r) ""
  | m_star_cons r s1 s2 : matches r s1 -> matches (Star r) s2 -> matches (Star r) (s1 ++ s2).

End Regex.

(** ** login-service: accounts and sessions *)

Module Accounts.

(** A row of [users]. *)
Record User := {
  u_id : Z;
  u_username : string;
  u_email : string;
  u_password_hash : string;
  u_first_name : option string;
  u_last_name : option string;
  u_created_at : Z;
  u_updated_at : Z;
  u_is_active : bool
}.

(** The tables of the login service, rows in the order the engine returns
    them, and the sequence behind [users.id SERIAL]. *)
Record Store := {
  users : list User;
  users_id_seq : Z;
  user_sessions : list Login.Session
}.

Definition set_users (f : list User -> list User) (s : Store) : Store :=
  {| users := f (users s); users_id_seq := users_id_seq s;
     user_sessions := user_sessions s |}.

Definition set_sessions (f : list Login.Session -> list Login.Session) (s : Store)
    : Store :=
  {| users := users s; users_id_seq := users_id_seq s;
     user_sessions := f (user_sessions s) |}.

(** The columns of a user that responses carry; the password hash is not
    one of them. *)
Record Public := {
  v_id : Z;
  v_username : string;
  v_email : string;
  v_first_name : option string;
  v_last_name : option string
}.

Definition public (u : User) : Public :=
  {| v_id := u_id u; v_username := u_username u; v_email := u_email u;
     v_first_name := u_first_name u; v_last_name := u_last_name u |}.

Inductive Body :=
  | ErrorBody (error : string)
  | MessageBody (message : string)
  | Registered (user : Public) (created_at : Z)
  | LoggedIn (token : string) (user : Public) (is_active : bool)
  | Profile (user : Public) (created_at updated_at : Z)
  | ProfileUpdated (user : Public) (updated_at : Z)
  | Deactivated (id : Z) (username email : string) (is_active : bool).

Record Response := {
  status_code : Z;
  body : Body
}.

Definition json_error (code : Z) (m : string) : Response :=
  {| status_code := code; body := ErrorBody m |}.

(** Who answered a request to a route behind the middleware. *)
Inductive Answer :=
  | Middleware (res : Login.Response)
  | Route (res : Response).

(** A request field that is a string when present: the string when it is
    truthy, that is, present and not empty. *)
Definition truthy (v : option string) : option string :=
  match v with
  | Some s => if String.eqb s "" then None else Some s
  | None => None
  end.

(** [[^\s@]] *)
Definition not_space_or_at (c : ascii) : bool :=
  negb (is_white_space c || Ascii.eqb c "@").

(** [/^[^\s@]+@[^\s@]+\.[^\s@]+$/] *)
Definition emailRegex : Regex.regex :=
  Regex.Seq (Regex.Plus (Regex.Class not_space_or_at))
    (Regex.Seq (Regex.Class (Ascii.eqb "@"))
       (Regex.Seq (Regex.Plus (Regex.Class not_space_or_at))
          (Regex.Seq (Regex.Class (Ascii.eqb "."))
             (Regex.Plus (Regex.Class not_space_or_at))))).

Record RegisterBody := {
  rb_username : option string;
  rb_email : option string;
  rb_password : option string;
  rb_first_name : option string;
  rb_last_name : option string
}.

Record LoginBody := {
  lb_username_or_email : option string;
  lb_password : option string
}.

Record ProfileBody := {
  pb_first_name : option string;
  pb_last_name : option string;
  pb_email : option string
}.


(** [COALESCE($1, column)], on a column that may be NULL and on one that
    may not. *)
Definition COALESCE {A} (v column : option A) : option A :=
  match v with
  | Some x => Some x
  | None => column
  end.

Definition COALESCE_not_null {A} (v : option A) (column : A) : A := default column v.

Section Handlers.

(** The fault plan of the handler's own statements. *)
Variable fault : nat -> option string.

(** [bcrypt.hash(password, 12)] with the salt it draws, and
    [bcrypt.compare(password, hash)]. *)
Variable bcrypt_hash : string -> string -> string.
Variable bcrypt_compare : string -> string -> bool.

(** [jwt.sign(payload, JWT_SECRET, { expiresIn: '24h' })] at the given
    second, and [jwt.verify(token, JWT_SECRET)] at the time of a request. *)
Variable jwt_sign : Login.Claims -> Z -> string.
Variable jwt_verify : string -> option Login.Claims.

(** [d.setHours(d.getHours() + 24)] on a clock reading, readings being
    milliseconds. *)
Variable add_24_hours : Z -> Z.

(** *** The statements of the login service *)

(** [SELECT id FROM users WHERE username = $1 OR email = $2] *)
Definition select_taken (username email : string) : Await Store (list User) :=
  pool_query fault (fun s =>
    (s, inr (filter (fun u => u_username u = username \/ u_email u = email)
                    (users s)))).

(** [INSERT INTO users (username, email, password_hash, first_name,
     last_name) VALUES ($1, $2, $3, $4, $5) RETURNING ...].  The id is
    drawn from the sequence before the row is checked. *)
Definition insert_user (now : Z) (username email password_hash : string)
    (first_name last_name : option string) : Await Store User :=
  pool_query fault (fun s =>
    let id := users_id_seq s + 1 in
    let drawn := {| users := users s; users_id_seq := id;
                    user_sessions := user_sessions s |} in
    let row := {| u_id := id; u_username := username; u_email := email;
                  u_password_hash := password_hash;
                  u_first_name := first_name; u_last_name := last_name;
                  u_created_at := now; u_updated_at := now;
                  u_is_active := true |} in
    if bool_decide (Exists (fun u => u_id u = id) (users s))
    then (drawn, inl (UniqueViolation "users_pkey"))
    else if bool_decide (Exists (fun u => u_username u = username) (users s))
    then (drawn, inl (UniqueViolation "users_username_key"))
    else if bool_decide (Exists (fun u => u_email u = email) (users s))
    then (drawn, inl (UniqueViolation "users_email_key"))
    else (set_users (fun l => (l ++ [row])%list) drawn, inr row)).

(** [SELECT ... FROM users WHERE (username = $1 OR email = $1)
     AND is_active = true] *)
Definition select_active_by_name (ident : string) : Await Store (list User) :=
  pool_query fault (fun s =>
    (s, inr (filter (fun u => (u_username u = ident \/ u_email u = ident)
                              /\ u_is_active u = true) (users s)))).

(** [INSERT INTO user_sessions (user_id, session_token, expires_at)
     VALUES ($1, $2, $3)] *)
Definition insert_session (user_id : Z) (token : string) (expires_at : Z)
    : Await Store unit :=
  pool_query fault (fun s =>
    let row := {| Login.s_user_id := user_id; Login.s_session_token := token;
                  Login.s_expires_at := expires_at |} in
    if bool_decide (Exists (fun r => Login.s_session_token r = token) (user_sessions s))
    then (s, inl (UniqueViolation "user_sessions_session_token_key"))
    else if bool_decide (Exists (fun u => u_id u = user_id) (users s))
    then (set_sessions (fun l => (l ++ [row])%list) s, inr tt)
    else (s, inl (ForeignKeyViolation "user_sessions_user_id_fkey"))).

(** [DELETE FROM user_sessions WHERE session_token = $1] *)
Definition delete_session (token : string) : Await Store unit :=
  pool_query fault (fun s =>
    (set_sessions (Login.delete_session token) s, inr tt)).

(** [DELETE FROM user_sessions WHERE user_id = $1] *)
Definition delete_sessions_of (user_id : Z) : Await Store unit :=
  pool_query fault (fun s =>
    (set_sessions (filter (fun r => Login.s_user_id r <> user_id)) s, inr tt)).

(** [SELECT ... FROM users WHERE id = $1 AND is_active = true] *)
Definition select_active_by_id (id : Z) : Await Store (list User) :=
  pool_query fault (fun s =>
    (s, inr (filter (fun u => u_id u = id /\ u_is_active u = true) (users s)))).

(** [SELECT id FROM users WHERE email = $1 AND id != $2] *)
Definition select_email_of_other (email : string) (id : Z) : Await Store (list User) :=
  pool_query fault (fun s =>
    (s, inr (filter (fun u => u_email u = email /\ u_id u <> id) (users s)))).

(** The row an [UPDATE users SET first_name = COALESCE($1, first_name),
    last_name = COALESCE($2, last_name), email = COALESCE($3, email),
    updated_at = CURRENT_TIMESTAMP] leaves. *)
Definition with_profile (now : Z) (first_name last_name email : option string)
    (u : User) : User :=
  {| u_id := u_id u; u_username := u_username u;
     u_email := COALESCE_not_null email (u_email u);
     u_password_hash := u_password_hash u;
     u_first_name := COALESCE first_name (u_first_name u);
     u_last_name := COALESCE last_name (u_last_name u);
     u_created_at := u_created_at u; u_updated_at := now;
     u_is_active := u_is_active u |}.

(** [UPDATE users SET ... WHERE id = $4 AND is_active = true RETURNING ...]:
    the rows that were updated. *)
Definition update_profile_rows (now : Z) (first_name last_name email : option string)
    (id : Z) : Await Store (list User) :=
  pool_query fault (fun s =>
    let hit u := bool_decide (u_id u = id /\ u_is_active u = true) in
    let updated := map (with_profile now first_name last_name email)
                       (filter (fun u => hit u = true) (users s)) in
    if bool_decide (Exists (fun u => hit u = true) (users s)) &&
       match email with
       | Some e => bool_decide (Exists (fun o => u_id o <> id /\ u_email o = e)
                                       (users s))
       | None => false
       end
    then (s, inl (UniqueViolation "users_email_key"))
    else (set_users (map (fun u => if hit u
                                   then with_profile now first_name last_name email u
                                   else u)) s,
          inr updated)).



Definition deactivated (now : Z) (u : User) : User :=
  {| u_id := u_id u; u_username := u_username u; u_email := u_email u;
     u_password_hash := u_password_hash u;
     u_first_name := u_first_name u; u_last_name := u_last_name u;
     u_created_at := u_created_at u; u_updated_at := now;
     u_is_active := false |}.

(** [UPDATE users SET is_active = false, updated_at = CURRENT_TIMESTAMP
     WHERE id = $1 RETURNING id, username, email, is_active] *)
Definition update_deactivate (now : Z) (id : Z) : Await Store (list User) :=
  pool_query fault (fun s =>
    (set_users (map (fun u => if bool_decide (u_id u = id)
                              then deactivated now u else u)) s,
     inr (map (deactivated now) (filter (fun u => u_id u = id) (users s))))).

(** [DELETE FROM user_sessions WHERE expires_at <= NOW()]; the result is
    [rowCount]. *)
Definition delete_expired (now : Z) : Await Store nat :=
  pool_query fault (fun s =>
    (set_sessions (filter (fun r => (now < Login.s_expires_at r)%Z)) s,
     inr (length (filter (fun r => (Login.s_expires_at r <= now)%Z)
                         (user_sessions s))))).

(** *** The handlers *)

Definition internal_error : pg_error -> Response :=
  fun _ => json_error 500 "Internal server error".

(** POST /api/auth/register *)
Definition register_body (now : Z) (salt : string) (req : RegisterBody)
    : Await Store Response :=
  match truthy (rb_username req), truthy (rb_email req), truthy (rb_password req) with
  | Some username, Some email, Some password =>
      if negb (Regex.test emailRegex email)
      then resolve (json_error 400 "Invalid email format")
      else if (String.length password <? 6)%nat
      then resolve (json_error 400 "Password must be at least 6 characters long")
      else
        (let* existingUser := select_taken username email in
         match existingUser with
         | _ :: _ => resolve (json_error 409 "Username or email already exists")
         | [] =>
             let password_hash := bcrypt_hash password salt in
             let* user := insert_user now username email password_hash
                            (rb_first_name req) (rb_last_name req) in
             resolve {| status_code := 201;
                        body := Registered (public user) (u_created_at user) |}
         end)%await
  | _, _, _ =>
      resolve (json_error 400 "Missing required fields: username, email, password")
  end.

Definition register (now : Z) (salt : string) (req : RegisterBody) (s : Store)
    : Store * Response :=
  try_catch (register_body now salt req) internal_error s.

(** POST /api/auth/login *)
Definition login_body (now : Z) (req : LoginBody) : Await Store Response :=
  match truthy (lb_username_or_email req), truthy (lb_password req) with
  | Some username_or_email, Some password =>
      (let* userResult := select_active_by_name username_or_email in
       match userResult with
       | [] => resolve (json_error 401 "Invalid credentials")
       | user :: _ =>
           if negb (bcrypt_compare password (u_password_hash user))
           then resolve (json_error 401 "Invalid credentials")
           else
             let tokenPayload := {| Login.user_id := u_id user;
                                    Login.username := u_username user;
                                    Login.email := u_email user |} in
             let token := jwt_sign tokenPayload (now / 1000) in
             let expiresAt := add_24_hours now in
             let* _ := insert_session (u_id user) token expiresAt in
             resolve {| status_code := 200;
                        body := LoggedIn token (public user) (u_is_active user) |}
       end)%await
  | _, _ =>
      resolve (json_error 400 "Missing required fields: username_or_email, password")
  end.

Definition login (now : Z) (req : LoginBody) (s : Store) : Store * Response :=
  try_catch (login_body now req) internal_error s.

(** A route behind [authenticateToken]: the middleware answers, or hands
    the request on with [req.user] set and the route answers.
    [auth_rejected] says whether the middleware's own query is rejected. *)
Definition behind_auth (auth_rejected : bool) (now : Z) (authHeader : option string)
    (handler : Login.Claims -> Store -> Store * Response) (s : Store)
    : Store * Answer :=
  match Login.authenticateToken jwt_verify auth_rejected now authHeader
          (user_sessions s) with
  | Login.Respond res => (s, Middleware res)
  | Login.Next user => let (s', res) := handler user s in (s', Route res)
  end.

(** POST /api/auth/logout *)
Definition logout (auth_rejected : bool) (now : Z) (authHeader : option string)
    : Store -> Store * Answer :=
  behind_auth auth_rejected now authHeader (fun _ =>
    try_catch
      (match Login.bearer_token authHeader with
       | Some token =>
           (let* _ := delete_session token in
            resolve {| status_code := 200; body := MessageBody "Logout successful" |})%await
       | None =>
           resolve {| status_code := 200; body := MessageBody "Logout successful" |}
       end)
      internal_error).

(** GET /api/auth/profile *)
Definition get_profile (auth_rejected : bool) (now : Z) (authHeader : option string)
    : Store -> Store * Answer :=
  behind_auth auth_rejected now authHeader (fun user =>
    try_catch
      (let* userResult := select_active_by_id (Login.user_id user) in
       match userResult with
       | [] => resolve (json_error 404 "User not found")
       | u :: _ =>
           resolve {| status_code := 200;
                      body := Profile (public u) (u_created_at u) (u_updated_at u) |}
       end)%await
      internal_error).

(** PUT /api/auth/profile *)
Definition update_profile_body (now : Z) (req : ProfileBody) (userId : Z)
    : Await Store Response :=
  let update :=
    (let* result := update_profile_rows now (pb_first_name req) (pb_last_name req)
                      (pb_email req) userId in
     match result with
     | [] => resolve (json_error 404 "User not found")
     | u :: _ =>
         resolve {| status_code := 200;
                    body := ProfileUpdated (public u) (u_updated_at u) |}
     end)%await in
  match truthy (pb_email req) with
  | Some email =>
      if negb (Regex.test emailRegex email)
      then resolve (json_error 400 "Invalid email format")
      else
        (let* existingUser := select_email_of_other email userId in
         match existingUser with
         | _ :: _ => resolve (json_error 409 "Email already exists")
         | [] => update
         end)%await
  | None => update
  end.

Definition update_profile (auth_rejected : bool) (now : Z) (authHeader : option string)
    (req : ProfileBody) : Store -> Store * Answer :=
  behind_auth auth_rejected now authHeader (fun user =>
    try_catch (update_profile_body now req (Login.user_id user)) internal_error).



(** A statement whose parameter is no [INTEGER]: the server rejects it. *)
Definition invalid_integer {A} : Await Store A :=
  pool_query fault (fun s => (s, inl (Fault "invalid input syntax for type integer"))).

(** PATCH /api/users/:id/deactivate; [param] is [req.params.id]. *)
Definition deactivate_body (now : Z) (param : string) : Await Store Response :=
  match parseInt param with
  | Some userId =>
      if int4 userId then
        (let* result := update_deactivate now userId in
         match result with
         | [] => resolve (json_error 404 "User not found")
         | u :: _ =>
             let* _ := delete_sessions_of userId in
             resolve {| status_code := 200;
                        body := Deactivated (u_id u) (u_username u) (u_email u)
                                            (u_is_active u) |}
         end)%await
      else invalid_integer
  | None => invalid_integer
  end.

Definition deactivate (auth_rejected : bool) (now : Z) (authHeader : option string)
    (param : string) : Store -> Store * Answer :=
  behind_auth auth_rejected now authHeader (fun _ =>
    try_catch (deactivate_body now param) internal_error).

(** POST /api/auth/cleanup-sessions *)
Definition cleanup_sessions (now : Z) : Store -> Store * Response :=
  try_catch
    (let* rowCount := delete_expired now in
     resolve {| status_code := 200;
                body := MessageBody ("Cleaned up " ++ pretty rowCount
                                     ++ " expired sessions") |})%await
    internal_error.

End Handlers.

End Accounts.

(** ** product-service: the catalogue and its cache *)

Module Catalog.

(** A row of [products]; the key of the map is the [id] column. *)
Record Row := {
  name : string;
  description : option string;
  price : Z;                      (* DECIMAL(10,2) NOT NULL, in hundredths *)
  category : option string;
  stock_quantity : option Z;
  sku : option string;            (* UNIQUE *)
  image_url : option string;
  is_active : bool;
  created_at : Z;
  updated_at : Z
}.

Record Store := {
  products : gmap Z Row;
  products_id_seq : Z
}.

(** The store and the cache: under each key its value and the time it
    expires, clock readings being seconds. *)
Record World := {
  db : Store;
  cache : gmap string (string * Z)
}.

(** What the order service reads of a product. *)
Definition order_view (r : Row) : Product :=
  {| p_name := name r; p_price := price r;
     p_stock_quantity := stock_quantity r; p_is_active := is_active r |}.

Definition Rows : Type := list (Z * Row).

Inductive Body :=
  | ErrorBody (error : string)
  | MessageBody (message : string)
  | RowBody (id : Z) (row : Row).

Record Response := {
  status_code : Z;
  body : Body
}.

Definition json_error (code : Z) (m : string) : Response :=
  {| status_code := code; body := ErrorBody m |}.

(** [req.body] of a create or an update; a field is [None] when the body
    does not carry it. *)
Record ProductBody := {
  b_name : option string;
  b_description : option string;
  b_price : option Z;
  b_category : option string;
  b_stock_quantity : option Z;
  b_sku : option string;
  b_image_url : option string;
  b_is_active : option bool
}.

(** [COALESCE($n, column)] *)
Definition COALESCE {A} (v column : option A) : option A :=
  match v with
  | Some x => Some x
  | None => column
  end.

Definition COALESCE_not_null {A} (v : option A) (column : A) : A := default column v.

(** [redisClient.get(key)] at the given time. *)
Definition redis_get (now : Z) (key : string) (c : gmap string (string * Z))
    : option string :=
  match c !! key with
  | Some (value, expires) => if (now <? expires)%Z then Some value else None
  | None => None
  end.

Definition with_cache (f : gmap string (string * Z) -> gmap string (string * Z))
    (w : World) : World :=
  {| db := db w; cache := f (cache w) |}.

Definition with_products (f : gmap Z Row -> gmap Z Row) (s : Store) : Store :=
  {| products := f (products s); products_id_seq := products_id_seq s |}.

(** Another row holds the given SKU. *)
Definition sku_taken (k : option string) (except : option Z) (ps : gmap Z Row) : bool :=
  match k with
  | None => false
  | Some _ =>
      bool_decide (Exists (fun ir => Some ir.1 <> except /\ sku ir.2 = k)
                          (map_to_list ps))
  end.

Section Handlers.

(** The fault plans of a request: its statements and its cache commands,
    each counted from 0. *)
Variable fault : nat -> option string.
Variable redis_fault : nat -> bool.

(** The order the engine returns the rows of a listing in (their
    [created_at], latest first; rows created together in any order). *)
Variable ORDER_BY_created_at_DESC : Rows -> Rows.

(** [JSON.stringify] and [JSON.parse] on a listing. *)
Variable JSON_stringify : Rows -> string.
Variable JSON_parse : string -> option Rows.

(** [SELECT * FROM products WHERE is_active = true ORDER BY created_at DESC] *)
Definition select_active (s : Store) : Rows :=
  ORDER_BY_created_at_DESC
    (filter (fun ir => is_active ir.2 = true) (map_to_list (products s))).

(** GET /api/products, on the world: the handler of the listing, its
    collaborators answering from the cache and the store, and its cache
    write applied. *)
Definition get_products (now : Z) (w : World) : World * ProductList.Response Rows :=
  let h := ProductList.get_products Rows JSON_stringify JSON_parse
    {| ProductList.redis_get :=
         if redis_fault 0%nat then ProductList.Rejected
         else ProductList.Resolved (redis_get now "products:all" (cache w));
       ProductList.pool_query :=
         match fault 0%nat with
         | Some _ => ProductList.Rejected
         | None => ProductList.Resolved (select_active (db w))
         end;
       ProductList.redis_setEx :=
         if redis_fault 1%nat then ProductList.Rejected
         else ProductList.Resolved tt |} in
  (match ProductList.cache_write Rows h with
   | Some (key, ttl, value) => with_cache (insert key (value, now + ttl)) w
   | None => w
   end,
   ProductList.response Rows h).

(** GET /api/products/:id; [param] is [req.params.id]. *)
Definition get_product (param : string) (w : World) : Response :=
  match parseInt param with
  | None => json_error 400 "Invalid product ID"
  | Some productId =>
      match fault 0%nat with
      | Some _ => json_error 500 "Failed to fetch product"
      | None =>
          if int4 productId then
            match products (db w) !! productId with
            | Some row =>
                if is_active row
                then {| status_code := 200; body := RowBody productId row |}
                else json_error 404 "Product not found"
            | None => json_error 404 "Product not found"
            end
          else json_error 500 "Failed to fetch product"
      end
  end.

(** The row [INSERT INTO products (name, description, price, category,
    stock_quantity, sku, image_url) VALUES (...)] writes. *)
Definition new_row (now : Z) (name : string) (price : Z) (req : ProductBody) : Row :=
  {| name := name; description := b_description req; price := price;
     category := b_category req;
     stock_quantity :=
       Some (match b_stock_quantity req with
             | Some q => if (q =? 0)%Z then 0 else q
             | None => 0
             end);
     sku := b_sku req; image_url := b_image_url req; is_active := true;
     created_at := now; updated_at := now |}.

(** POST /api/products *)
Definition create_product (now : Z) (req : ProductBody) (w : World) : World * Response :=
  match (match b_name req with
         | Some n => if String.eqb n "" then None else Some n
         | None => None
         end),
        (match b_price req with
         | Some p => if (p =? 0)%Z then None else Some p
         | None => None
         end) with
  | Some name, Some price =>
      match fault 0%nat with
      | Some _ => (w, json_error 500 "Failed to create product")
      | None =>
          let id := products_id_seq (db w) + 1 in
          let drawn := {| db := {| products := products (db w);
                                   products_id_seq := id |};
                          cache := cache w |} in
          if bool_decide (is_Some (products (db w) !! id)) ||
             sku_taken (b_sku req) None (products (db w))
          then (drawn, json_error 400 "Product SKU already exists")
          else
            let row := new_row now name price req in
            let stored := {| db := with_products (insert id row) (db drawn);
                             cache := cache w |} in
            if redis_fault 0%nat
            then (stored, json_error 500 "Failed to create product")
            else (with_cache (delete "products:all") stored,
                  {| status_code := 201; body := RowBody id row |})
      end
  | _, _ => (w, json_error 400 "Name and price are required")
  end.

(** The row [UPDATE products SET name = COALESCE($1, name), ...,
    updated_at = CURRENT_TIMESTAMP] leaves. *)
Definition updated_row (now : Z) (req : ProductBody) (r : Row) : Row :=
  {| name := COALESCE_not_null (b_name req) (name r);
     description := COALESCE (b_description req) (description r);
     price := COALESCE_not_null (b_price req) (price r);
     category := COALESCE (b_category req) (category r);
     stock_quantity := COALESCE (b_stock_quantity req) (stock_quantity r);
     sku := COALESCE (b_sku req) (sku r);
     image_url := COALESCE (b_image_url req) (image_url r);
     is_active := COALESCE_not_null (b_is_active req) (is_active r);
     created_at := created_at r; updated_at := now |}.

(** PUT /api/products/:id *)
Definition update_product (now : Z) (param : string) (req : ProductBody) (w : World)
    : World * Response :=
  match fault 0%nat, parseInt param with
  | None, Some productId =>
      if int4 productId then
        match products (db w) !! productId with
        | None => (w, json_error 404 "Product not found")
        | Some row =>
            if sku_taken (b_sku req) (Some productId) (products (db w))
            then (w, json_error 500 "Failed to update product")
            else
              let row' := updated_row now req row in
              let stored := {| db := with_products (insert productId row') (db w);
                               cache := cache w |} in
              if redis_fault 0%nat
              then (stored, json_error 500 "Failed to update product")
              else (with_cache (delete "products:all") stored,
                    {| status_code := 200; body := RowBody productId row' |})
        end
      else (w, json_error 500 "Failed to update product")
  | _, _ => (w, json_error 500 "Failed to update product")
  end.

Definition soft_deleted (now : Z) (r : Row) : Row :=
  {| name := name r; description := description r; price := price r;
     category := category r; stock_quantity := stock_quantity r;
     sku := sku r; image_url := image_url r; is_active := false;
     created_at := created_at r; updated_at := now |}.

(** DELETE /api/products/:id *)
Definition delete_product (now : Z) (param : string) (w : World) : World * Response :=
  match fault 0%nat, parseInt param with
  | None, Some productId =>
      if int4 productId then
        match products (db w) !! productId with
        | None => (w, json_error 404 "Product not found")
        | Some row =>
            let stored := {| db := with_products
                                     (insert productId (soft_deleted now row)) (db w);
                             cache := cache w |} in
            if redis_fault 0%nat
            then (stored, json_error 500 "Failed to delete product")
            else (with_cache (delete "products:all") stored,
                  {| status_code := 200;
                     body := MessageBody "Product deleted successfully" |})
        end
      else (w, json_error 500 "Failed to delete product")
  | _, _ => (w, json_error 500 "Failed to delete product")
  end.

End Handlers.

End Catalog.

(** ** Routing *)

Module Router.

Inductive Method := GET | POST | PUT | PATCH | DELETE.

Definition method_eqb (a b : Method) : bool :=
  match a, b with
  | GET, GET | POST, POST | PUT, PUT | PATCH, PATCH | DELETE, DELETE => true
  | _, _ => false
  end.

(** A piece of a route path between two slashes: literal text, or a
    parameter [:name]. *)
Inductive Segment :=
  | Lit (text : string)
  | Param (name : string).

(** [app.METHOD(path, handler)] *)
Record Route (H : Type) := {
  method : Method;
  path : list Segment;
  handler : H
}.
Arguments method {H} _.
Arguments path {H} _.
Arguments handler {H} _.

Definition to_lower (c : ascii) : ascii :=
  let n := N_of_ascii c in
  if ((65 <=? n) && (n <=? 90))%N then ascii_of_N (n + 32) else c.

(** Literal text matches whatever the case of its letters. *)
Fixpoint eq_ignoring_case (a b : string) : bool :=
  match a, b with
  | EmptyString, EmptyString => true
  | String x a', String y b' => Ascii.eqb (to_lower x) (to_lower y) && eq_ignoring_case a' b'
  | _, _ => false
  end.

(** The pieces of a request path against a route path: a literal matches
    its text, a parameter any piece that is not empty, and one slash at the
    end is allowed. *)
Fixpoint match_segments (pattern : list Segment) (pieces : list string) : bool :=
  match pattern, pieces with
  | [], [] => true
  | [], [last] => String.eqb last ""
  | Lit text :: pattern', piece :: pieces' =>
      eq_ignoring_case text piece && match_segments pattern' pieces'
  | Param _ :: pattern', piece :: pieces' =>
      negb (String.eqb piece "") && match_segments pattern' pieces'
  | _, _ => false
  end.

Definition matches (pattern : list Segment) (request_path : string) : bool :=
  match Login.split "/" request_path with
  | first :: pieces => String.eqb first "" && match_segments pattern pieces
  | [] => false
  end.

(** The handler that answers a request: the one of the first route, in the
    order the routes were registered, whose method and path match. *)
Definition dispatch {H} (routes : list (Route H)) (m : Method) (request_path : string)
    : option H :=
  handler <$> List.find (fun r => method_eqb (method r) m && matches (path r) request_path)
                        routes.

(** The routes of the order service, in the order of registration. *)
Inductive OrderHandler :=
  | OrderHealth | ListOrders | GetOrder | OrdersOfUser | CreateOrder
  | UpdateOrderStatus | CancelOrder | OrderStats | OrderIndex.

Definition order_routes : list (Route OrderHandler) :=
  [ {| method := GET; path := [Lit "health"]; handler := OrderHealth |};
    {| method := GET; path := [Lit "api"; Lit "orders"]; handler := ListOrders |};
    {| method := GET; path := [Lit "api"; Lit "orders"; Param "id"];
       handler := GetOrder |};
    {| method := GET; path := [Lit "api"; Lit "users"; Param "userId"; Lit "orders"];
       handler := OrdersOfUser |};
    {| method := POST; path := [Lit "api"; Lit "orders"]; handler := CreateOrder |};
    {| method := PATCH; path := [Lit "api"; Lit "orders"; Param "id"; Lit "status"];
       handler := UpdateOrderStatus |};
    {| method := DELETE; path := [Lit "api"; Lit "orders"; Param "id"];
       handler := CancelOrder |};
    {| method := GET; path := [Lit "api"; Lit "orders"; Lit "stats"];
       handler := OrderStats |};
    {| method := GET; path := []; handler := OrderIndex |} ].

(** The routes of the login service. *)
Inductive LoginHandler :=
  | LoginHealth | Register | LogIn | LogOut | GetProfile | PutProfile
  | ChangePassword | ListUsers | GetUser | Deactivate | Verify | CleanupSessions
  | UserStats | LoginIndex.

Definition login_routes : list (Route LoginHandler) :=
  [ {| method := GET; path := [Lit "health"]; handler := LoginHealth |};
    {| method := POST; path := [Lit "api"; Lit "auth"; Lit "register"];
       handler := Register |};
    {| method := POST; path := [Lit "api"; Lit "auth"; Lit "login"]; handler := LogIn |};
    {| method := POST; path := [Lit "api"; Lit "auth"; Lit "logout"];
       handler := LogOut |};
    {| method := GET; path := [Lit "api"; Lit "auth"; Lit "profile"];
       handler := GetProfile |};
    {| method := PUT; path := [Lit "api"; Lit "auth"; Lit "profile"];
       handler := PutProfile |};
    {| method := POST; path := [Lit "api"; Lit "auth"; Lit "change-password"];
       handler := ChangePassword |};
    {| method := GET; path := [Lit "api"; Lit "users"]; handler := ListUsers |};
    {| method := GET; path := [Lit "api"; Lit "users"; Param "id"]; handler := GetUser |};
    {| method := PATCH; path := [Lit "api"; Lit "users"; Param "id"; Lit "deactivate"];
       handler := Deactivate |};
    {| method := POST; path := [Lit "api"; Lit "auth"; Lit "verify"]; handler := Verify |};
    {| method := POST; path := [Lit "api"; Lit "auth"; Lit "cleanup-sessions"];
       handler := CleanupSessions |};
    {| method := GET; path := [Lit "api"; Lit "users"; Lit "stats"];
       handler := UserStats |};
    {| method := GET; path := []; handler := LoginIndex |} ].

(** The routes of the product service. *)
Inductive ProductHandler :=
  | ProductHealth | ListProducts | GetProduct | ProductsOfCategory
  | CreateProduct | UpdateProduct | DeleteProduct.

Definition product_routes : list (Route ProductHandler) :=
  [ {| method := GET; path := [Lit "health"]; handler := ProductHealth |};
    {| method := GET; path := [Lit "api"; Lit "products"]; handler := ListProducts |};
    {| method := GET; path := [Lit "api"; Lit "products"; Param "id"];
       handler := GetProduct |};
    {| method := GET; path := [Lit "api"; Lit "products"; Lit "category"; Param "category"];
       handler := ProductsOfCategory |};
    {| method := POST; path := [Lit "api"; Lit "products"]; handler := CreateProduct |};
    {| method := PUT; path := [Lit "api"; Lit "products"; Param "id"];
       handler := UpdateProduct |};
    {| method := DELETE; path := [Lit "api"; Lit "products"; Param "id"];
       handler := DeleteProduct |} ].

End Router.

(** ** product-service: the variant that keeps its products in memory *)

Module Shelf.

Record Product := {
  id : jsnum;
  name : string;
  price : jsnum;
  category : string;
  stock : jsnum
}.

(** The own properties of the object [products], in insertion order.  A
    property key is the decimal text of a number, and two numbers have the
    same text exactly when they are the same number, [-0] reading as [0]: a
    key is kept as the number it is the text of, so that [Number] of a key
    is the key itself. *)
Definition Products : Type := list (jsnum * Product).

Definition key (x : jsnum) : jsnum :=
  match x with
  | S754_zero _ => S754_zero false
  | _ => x
  end.

#[export] Instance spec_float_eq_dec : EqDecision spec_float.
Proof. solve_decision. Defined.

(** [products[k]] *)
Fixpoint get (k : jsnum) (o : Products) : option Product :=
  match o with
  | [] => None
  | (k', p) :: o' => if decide (k' = key k) then Some p else get k o'
  end.

(** [products[k] = p] *)
Fixpoint set (k : jsnum) (p : Product) (o : Products) : Products :=
  match o with
  | [] => [(key k, p)]
  | (k', q) :: o' => if decide (k' = key k) then (k', p) :: o' else (k', q) :: set k p o'
  end.

Definition Object_keys (o : Products) : list jsnum := map fst o.

(** One step of [Math.max]: [NaN] wins, then the larger number, [+0] being
    larger than [-0]. *)
Definition larger (highest number : jsnum) : jsnum :=
  match SFcompare highest number with
  | None => S754_nan
  | Some Lt => number
  | Some Gt => highest
  | Some Eq => match highest with
               | S754_zero true => number
               | _ => highest
               end
  end.

(** [Math.max(...l)], which is [-Infinity] for no argument. *)
Definition Math_max (l : list jsnum) : jsnum := fold_left larger l (S754_infinity true).

Inductive Body :=
  | Found (data : Product)
  | NotFound (productId : jsnum)   (* Product with ID ${productId} does not exist *)
  | MissingFields
  | Created (data : Product).

Record Response := { status_code : Z; body : Body }.

(** The body of [POST /api/products]: [name] and [category] strings, [price]
    and [stock] JSON numbers, each of them possibly absent. *)
Record NewProduct := {
  b_name : option string;
  b_price : option jsnum;
  b_category : option string;
  b_stock : option jsnum
}.

(** A number is falsy when it is a zero or [NaN]. *)
Definition truthy_number (v : option jsnum) : option jsnum :=
  match v with
  | Some (S754_zero _) | Some S754_nan | None => None
  | Some x => Some x
  end.

(** [parseFloat] of a number that is not a zero reads back the number that
    was written. *)
Definition parseFloat_number (x : jsnum) : jsnum := x.

(** [app.get('/api/products/:id')] *)
Definition get_product (id : string) (products : Products) : Response :=
  let productId := match parseInt id with
                   | Some n => Z2SF n
                   | None => S754_nan
                   end in
  match get productId products with
  | Some product => {| status_code := 200; body := Found product |}
  | None => {| status_code := 404; body := NotFound productId |}
  end.

(** [app.post('/api/products')] *)
Definition add_product (b : NewProduct) (products : Products) : Products * Response :=
  match Accounts.truthy (b_name b), truthy_number (b_price b), Accounts.truthy (b_category b) with
  | Some name, Some price, Some category =>
      let newId := js_add (Math_max (Object_keys products)) (Z2SF 1) in
      let newProduct :=
        {| id := newId; name := name; price := parseFloat_number price;
           category := category;
           stock := match truthy_number (b_stock b) with
                    | Some stock => stock
                    | None => Z2SF 0
                    end |} in
      (set newId newProduct products,
       {| status_code := 201; body := Created newProduct |})
  | _, _, _ => (products, {| status_code := 400; body := MissingFields |})
  end.

(** The products the service starts with. *)
Definition products : Products :=
  [ (Z2SF 1, {| id := Z2SF 1; name := "Laptop"; price := parseFloat 99999;
                category := "Electronics"; stock := Z2SF 50 |});
    (Z2SF 2, {| id := Z2SF 2; name := "Coffee Mug"; price := parseFloat 1299;
                category := "Kitchen"; stock := Z2SF 200 |});
    (Z2SF 3, {| id := Z2SF 3; name := "Running Shoes"; price := parseFloat 8999;
                category := "Sports"; stock := Z2SF 30 |});
    (Z2SF 4, {| id := Z2SF 4; name := "Book"; price := parseFloat 1999;
                category := "Education"; stock := Z2SF 100 |});
    (Z2SF 5, {| id := Z2SF 5; name := "Headphones"; price := parseFloat 14999;
                category := "Electronics"; stock := Z2SF 75 |}) ].

End Shelf.

(** ** Specification vocabulary *)

(** The price a line is charged at: the [price] column of its product. *)
Definition price_of (t : Tables) (id : option Z) : Z :=
  match id with
  | Some i =>
      match products t !! i with
      | Some p => p_price p
      | None => 0
      end
  | None => 0
  end.

(** [parseFloat(product.price) * item.quantity] for a line, against the
    prices of [t]. *)
Definition line_total (t : Tables) (item : Line) : jsnum :=
  js_mul (parseFloat (price_of t (li_product_id item))) (to_number (li_quantity item)).

(** Summation as the handler does it: from 0, left to right, each addition
    rounded to binary64. *)
Definition js_sum (l : list jsnum) : jsnum := fold_left js_add l js_zero.

(** The [order_items] row a line of the request becomes. *)
Definition row_of_line (t : Tables) (order_id : Z) (item : Line) : option OrderItem :=
  match li_quantity item with
  | Some q =>
      Some {| oi_order_id := order_id;
              oi_product_id := li_product_id item;
              oi_quantity := q;
              oi_unit_price := price_of t (li_product_id item);
              oi_total_price := line_total t item |}
  | None => None
  end.

(** A product after [qty] units were put back into its stock. *)
Definition restore_one (qty : Z) (p : Product) : Product :=
  with_stock (sql_add (p_stock_quantity p) (Some qty)) p.

(** The units of product [i] on the given order items. *)
Definition restored_quantity (i : Z) (rows : list OrderItem) : Z :=
  fold_right Z.add 0%Z
    (map oi_quantity (filter (fun it => oi_product_id it = Some i) rows)).

(** What order creation reads of a product besides its stock: the price,
    and whether it is on sale. *)
Definition catalog_entry (p : Product) : Z * bool := (p_price p, p_is_active p).

(** Two states of the tables list the same products, at the same prices
    and on sale alike. *)
Definition same_catalog (t t' : Tables) : Prop :=
  forall i, catalog_entry <$> products t' !! i = catalog_entry <$> products t !! i.

(** No product has a negative stock. *)
Definition stock_nonneg (t : Tables) : Prop :=
  forall i p s, products t !! i = Some p -> p_stock_quantity p = Some s -> (0 <= s)%Z.

(** The stocks of [t] are at most those of [t0], a NULL stock counting as
    0 as it does in the handler's comparison. *)
Definition stock_le (t0 t : Tables) : Prop :=
  forall i p, products t !! i = Some p ->
    exists p0, products t0 !! i = Some p0 /\
      (default 0 (p_stock_quantity p) <= default 0 (p_stock_quantity p0))%Z.

(** Every order item belongs to an order of the table (the foreign key
    [order_items.order_id REFERENCES orders(id)]). *)
Definition items_reference_orders (t : Tables) : Prop :=
  forall it, it ∈ order_items t -> is_Some (orders t !! oi_order_id it).

(** A property of the committed and the working tables that a block keeps,
    whether it completes or throws. *)
Definition stable {A} (P : Tables -> Tables -> Prop) (m : Tx A) : Prop :=
  forall c c' r, P (durable c) (working c) -> m c = (c', r) ->
                 P (durable c') (working c').

(** Blocks that never touch the committed tables. *)
Definition keeps_durable {A} (m : Tx A) : Prop :=
  forall c c' r, m c = (c', r) -> durable c' = durable c.

(** The row an element of [processedItems] is inserted as. *)
Definition row_of_processed (order_id : Z) (item : ProcessedItem) : option OrderItem :=
  match pi_quantity item with
  | Some q =>
      Some {| oi_order_id := order_id;
              oi_product_id := pi_product_id item;
              oi_quantity := q;
              oi_unit_price := pi_unit_price item;
              oi_total_price := pi_total_price item |}
  | None => None
  end.

(** The order a request creates: [id], status and timestamps as the INSERT
    sets them, the total as the loop accumulated it. *)
Definition created_order (now : Z) (req : CreateRequest) (u : Z) (items : list Line)
    (t : Tables) : Order :=
  {| o_user_id := u;
     o_total_amount := js_sum (map (line_total t) items);
     o_status := "pending";
     o_shipping_address := rq_shipping_address req;
     o_billing_address := rq_billing_address req;
     o_created_at := now; o_updated_at := now |}.

(** The committed and the working tables both keep stocks non-negative. *)
Definition both_nonneg (d w : Tables) : Prop := stock_nonneg d /\ stock_nonneg w.

(** The products table after the restore loop has run over [rows]. *)
Definition restore_all (rows : list OrderItem) (ps : gmap Z Product) : gmap Z Product :=
  fold_left
    (fun ps it =>
       match oi_product_id it with
       | Some i => alter (restore_one (oi_quantity it)) i ps
       | None => ps
       end) rows ps.

(** No live session: the token has no row, or only rows that have
    expired. *)
Definition no_live_session (now : Z) (token : string)
    (user_sessions : list Login.Session) : Prop :=
  forall s, s ∈ user_sessions -> Login.s_session_token s = token ->
            (Login.s_expires_at s <= now)%Z.

(** A product after the units of a line were taken out of its stock. *)
Definition take_one (qty : option Z) (p : Product) : Product :=
  with_stock (sql_sub (p_stock_quantity p) qty) p.

(** The units of product [i] that the lines of a request ask for. *)
Definition ordered_quantity (i : Z) (items : list Line) : Z :=
  fold_right Z.add 0%Z
    (map (fun item => default 0%Z (li_quantity item))
         (filter (fun item => li_product_id item = Some i) items)).

(** The products table after the loop of order creation has run over
    [items]. *)
Definition take_all (items : list Line) (ps : gmap Z Product) : gmap Z Product :=
  fold_left
    (fun ps item =>
       match li_product_id item with
       | Some i => alter (take_one (li_quantity item)) i ps
       | None => ps
       end) items ps.

(** What the order service keeps of an order for good: who placed it, the
    amount, the addresses and the creation time. *)
Definition order_kept (o o' : Order) : Prop :=
  o_user_id o' = o_user_id o /\
  o_total_amount o' = o_total_amount o /\
  o_shipping_address o' = o_shipping_address o /\
  o_billing_address o' = o_billing_address o /\
  o_created_at o' = o_created_at o.

(** Every order of [t] is still in [t'], kept as above, and the order items
    of [t] are the first order items of [t']. *)
Definition history_kept (t t' : Tables) : Prop :=
  (forall id o, orders t !! id = Some o ->
     exists o', orders t' !! id = Some o' /\ order_kept o o') /\
  (exists new, order_items t' = (order_items t ++ new)%list).

(** The tables after a cancellation of order [id] that ran to its end. *)
Definition cancelled (now : Z) (id : Z) (t : Tables) : Tables :=
  {| products := restore_all (items_of_order id t) (products t);
     users := users t;
     orders := alter (with_status "cancelled" now) id (orders t);
     order_items := order_items t |}.

(** A line that the products [ps] can serve as part of the request
    [items]: it names an active product and a quantity that is not
    negative, and the stock of the product (NULL counting as 0) covers all
    the units the request asks of it. *)
Definition line_servable (ps : gmap Z Product) (items : list Line) (item : Line) : Prop :=
  exists i q p,
    li_product_id item = Some i /\ li_quantity item = Some q /\ (0 <= q)%Z /\
    ps !! i = Some p /\ p_is_active p = true /\
    (ordered_quantity i items <= default 0%Z (p_stock_quantity p))%Z.

(** A string of one or more characters that are neither white space nor
    an at sign. *)
Definition plain (s : string) : Prop :=
  s <> "" /\ Forall (fun c => Accounts.not_space_or_at c = true) (list_ascii_of_string s).

(** [local@domain.rest]: three plain parts, an at sign after the first and
    a dot between the last two. *)
Definition email_shape (s : string) : Prop :=
  exists l d t, s = l ++ "@" ++ d ++ "." ++ t /\ plain l /\ plain d /\ plain t.

(** The active users a login identifier selects, in table order. *)
Definition active_matches (ident : string) (l : list Accounts.User)
    : list Accounts.User :=
  filter (fun u => (Accounts.u_username u = ident \/ Accounts.u_email u = ident)
                   /\ Accounts.u_is_active u = true) l.

(** The payload signed for a user at login. *)
Definition claims_of (u : Accounts.User) : Login.Claims :=
  {| Login.user_id := Accounts.u_id u; Login.username := Accounts.u_username u;
     Login.email := Accounts.u_email u |}.

(** The session row a login writes. *)
Definition session_row (user_id : Z) (token : string) (expires_at : Z) : Login.Session :=
  {| Login.s_user_id := user_id; Login.s_session_token := token;
     Login.s_expires_at := expires_at |}.

(** The cached listing, while it lives, is the listing the store would
    give now. *)
Definition coherent (ORDER_BY : Catalog.Rows -> Catalog.Rows)
    (JSON_parse : string -> option Catalog.Rows) (now : Z) (w : Catalog.World) : Prop :=
  forall text,
    Catalog.redis_get now "products:all" (Catalog.cache w) = Some text ->
    text <> "" ->
    JSON_parse text = Some (Catalog.select_active ORDER_BY (Catalog.db w)).

(** A character that ends the digits [parseInt] reads after the decimal
    digits of [n]: not a decimal digit, and not the [x] of a [0x] prefix. *)
Definition ends_number (n : Z) (rest : string) : Prop :=
  match rest with
  | EmptyString => True
  | String c _ => digit_of 10 c = None /\ (n = 0 -> c <> "x"%char /\ c <> "X"%char)
  end.

(** A body that carries [is_active] and nothing else. *)
Definition only_is_active (b : bool) : Catalog.ProductBody :=
  {| Catalog.b_name := None; Catalog.b_description := None; Catalog.b_price := None;
     Catalog.b_category := None; Catalog.b_stock_quantity := None;
     Catalog.b_sku := None; Catalog.b_image_url := None;
     Catalog.b_is_active := Some b |}.

(** The ids of a shelf are the whole numbers [ids], in the order of their
    insertion. *)
Definition shelved (ids : list Z) (o : Shelf.Products) : Prop :=
  Shelf.Object_keys o = map Z2SF ids.

(** A shifted mantissa with nothing lost: the round and sticky bits are
    clear. *)
Definition settled (m : Z) : shr_record := {| shr_m := m; shr_r := false; shr_s := false |}.

(** ** Worked data *)

(** A store with three products and two users, and no orders yet. *)
Definition shop_products : gmap Z Product :=
  list_to_map
    [ (1%Z, {| p_name := "Laptop Pro"; p_price := 1000;
               p_stock_quantity := Some 50%Z; p_is_active := true |});
      (2%Z, {| p_name := "Coffee Mug"; p_price := 500;
               p_stock_quantity := Some 200%Z; p_is_active := true |});
      (3%Z, {| p_name := "Sticker"; p_price := 10;
               p_stock_quantity := Some 5%Z; p_is_active := true |}) ].

Definition shop : Db :=
  {| tables := {| products := shop_products; users := {[ 1%Z; 2%Z ]};
                  orders := ∅; order_items := [] |};
     orders_id_seq := 0 |}.

Definition line (id qty : Z) : Line :=
  {| li_product_id := Some id; li_quantity := Some qty |}.

Definition request (u : Z) (lines : list Line) : CreateRequest :=
  {| rq_user_id := Some u; rq_items := Some lines;
     rq_shipping_address := None; rq_billing_address := None |}.

(** Two units at 10.00 and one at 5.00. *)
Definition two_lines : CreateRequest := request 1 [line 1 2; line 2 1].

(** The same product twice, three units each, against a stock of five. *)
Definition same_product_twice : CreateRequest := request 1 [line 3 3; line 3 3].


(** A line without its product id, a line without its quantity, and a
    line for a product the shop does not hold. *)
Definition no_product_id : CreateRequest :=
  request 1 [ {| li_product_id := None; li_quantity := Some 1%Z |} ].
Definition unknown_product : CreateRequest := request 1 [line 1 1; line 99 1].
Definition no_quantity : CreateRequest :=
  request 1 [ {| li_product_id := Some 1%Z; li_quantity := None |} ].

(** An earlier order of three stickers, in the given status, and its
    item row. *)
Definition past_order (st : string) : Order :=
  {| o_user_id := 1; o_total_amount := js_mul (parseFloat 10) (Z2SF 3);
     o_status := st; o_shipping_address := None; o_billing_address := None;
     o_created_at := 1; o_updated_at := 2 |}.

Definition sticker_row (order : Z) : OrderItem :=
  {| oi_order_id := order; oi_product_id := Some 3%Z; oi_quantity := 3;
     oi_unit_price := 10; oi_total_price := js_mul (parseFloat 10) (Z2SF 3) |}.

(** The shop after three such orders: 1 is delivered, 2 is cancelled,
    3 is pending. *)
Definition shop_with_history : Db :=
  {| tables := {| products := shop_products; users := {[ 1%Z; 2%Z ]};
                  orders := list_to_map [ (1%Z, past_order "delivered");
                                          (2%Z, past_order "cancelled");
                                          (3%Z, past_order "pending") ];
                  order_items := [sticker_row 1; sticker_row 2; sticker_row 3] |};
     orders_id_seq := 3 |}.

(** A verifier that accepts the one token it signed. *)
Definition john : Login.Claims :=
  {| Login.user_id := 1; Login.username := "john_doe";
     Login.email := "john@example.com" |}.

Definition accepts_signed (token : string) : option Login.Claims :=
  if String.eqb token "signed" then Some john else None.

Definition expired_row : Login.Session :=
  {| Login.s_user_id := 1; Login.s_session_token := "signed";
     Login.s_expires_at := 50 |}.

(** Collaborators of one listing request: the store answers with one
    product; the cache read or the cache write may be rejected. *)
Definition listing (get : ProductList.reply (option string))
    (setEx : ProductList.reply unit) : ProductList.Collaborators (list string) :=
  {| ProductList.redis_get := get;
     ProductList.pool_query := ProductList.Resolved ["Laptop Pro"];
     ProductList.redis_setEx := setEx |}.

(** Stand-ins for bcrypt, for the signer of tokens and for the clock
    arithmetic of a session's life. *)
Definition salted (password salt : string) : string := salt +:+ password.
Definition salted_matches (password hash : string) : bool :=
  String.eqb hash ("pepper" +:+ password).
Definition signs (payload : Login.Claims) (iat : Z) : string := "signed".
Definition a_day_later (t : Z) : Z := t + 86400000.

Definition nobody : Accounts.Store :=
  {| Accounts.users := []; Accounts.users_id_seq := 0; Accounts.user_sessions := [] |}.

Definition john_registers : Accounts.RegisterBody :=
  {| Accounts.rb_username := Some "john_doe";
     Accounts.rb_email := Some "john@example.com";
     Accounts.rb_password := Some "secret1";
     Accounts.rb_first_name := Some "John"; Accounts.rb_last_name := None |}.

Definition john_logs_in : Accounts.LoginBody :=
  {| Accounts.lb_username_or_email := Some "john_doe";
     Accounts.lb_password := Some "secret1" |}.

(** John has registered at 1000 and logged in at 2000. *)
Definition registered : Accounts.Store :=
  (Accounts.register no_fault salted 1000 "pepper" john_registers nobody).1.

Definition logged_in : Accounts.Store :=
  (Accounts.login no_fault salted_matches signs a_day_later 2000 john_logs_in registered).1.


Definition second_query_fails (n : nat) : option string :=
  match n with
  | 1%nat => Some "Connection terminated unexpectedly"
  | _ => None
  end.

(** A catalogue of one product, whose listing is cached until 3600. *)
Definition laptop : Catalog.Row :=
  {| Catalog.name := "Laptop Pro"; Catalog.description := None;
     Catalog.price := 129999; Catalog.category := Some "Electronics";
     Catalog.stock_quantity := Some 50; Catalog.sku := Some "LAP-001";
     Catalog.image_url := None; Catalog.is_active := true;
     Catalog.created_at := 1; Catalog.updated_at := 1 |}.

Definition catalogue : Catalog.World :=
  {| Catalog.db := {| Catalog.products := {[ 1 := laptop ]};
                      Catalog.products_id_seq := 1 |};
     Catalog.cache := {[ "products:all" := ("[laptop]", 3600) ]} |}.

(** Stand-ins for the order of the listing and for the JSON text of the
    one listing there is. *)
Definition as_stored (rows : Catalog.Rows) : Catalog.Rows := rows.
Definition writes (rows : Catalog.Rows) : string := "[laptop]".
Definition reads (text : string) : option Catalog.Rows :=
  if String.eqb text "[laptop]" then Some [(1, laptop)] else None.
Definition redis_up (n : nat) : bool := false.
Definition redis_down (n : nat) : bool := true.

Definition a_mug : Shelf.NewProduct :=
  {| Shelf.b_name := Some "Travel Mug"; Shelf.b_price := Some (parseFloat 1599);
     Shelf.b_category := Some "Kitchen"; Shelf.b_stock := None |}.

(** A session of John that expired at 50 beside the session of his login. *)
Definition with_expired_session : Accounts.Store :=
  Accounts.set_sessions (fun l => expired_row :: l) logged_in.

Definition a_new_mug : Catalog.ProductBody :=
  {| Catalog.b_name := Some "Coffee Mug"; Catalog.b_description := None;
     Catalog.b_price := Some 1299; Catalog.b_category := Some "Kitchen";
     Catalog.b_stock_quantity := Some 200; Catalog.b_sku := Some "MUG-001";
     Catalog.b_image_url := None; Catalog.b_is_active := None |}.

(** * Properties *)

(** ** Reasoning about [try] blocks *)

Lemma bind_ok {A B} (m : Tx A) (k : A -> Tx B) c c' b :
  bind m k c = (c', inr b) ->
  exists a c1, m c = (c1, inr a) /\ k a c1 = (c', inr b).
Proof.
  unfold bind. destruct (m c) as [c1 [e|a]]; [discriminate|]. eauto.
Qed.

Lemma bind_throw {A B} (m : Tx A) (k : A -> Tx B) c c' e :
  bind m k c = (c', inl e) ->
  m c = (c', inl e) \/ exists a c1, m c = (c1, inr a) /\ k a c1 = (c', inl e).
Proof.
  unfold bind. destruct (m c) as [c1 [e1|a]]; intros H.
  - left. injection H as -> ->. reflexivity.
  - right. eauto.
Qed.

Lemma stable_ret {A} P (a : A) : stable P (ret a).
Proof. intros c c' r HP [= <- _]. exact HP. Qed.

Lemma stable_throw {A} P e : stable P (@throw A e).
Proof. intros c c' r HP [= <- _]. exact HP. Qed.

Lemma stable_bind {A B} P (m : Tx A) (k : A -> Tx B) :
  stable P m -> (forall a, stable P (k a)) -> stable P (bind m k).
Proof.
  intros Hm Hk c c' r HP. unfold bind.
  destruct (m c) as [c1 [e|a]] eqn:E.
  - intros [= <- _]. eapply Hm; eauto.
  - intros E'. eapply Hk; [|exact E']. eapply Hm; eauto.
Qed.

Section Blocks.

Variable fault : nat -> option string.

Lemma stable_query {A} (P : Tables -> Tables -> Prop)
    (stmt : Tables -> Z -> Z * (pg_error + Tables * A)) :
  (forall d w sq sq' t a, P d w -> stmt w sq = (sq', inr (t, a)) -> P d t) ->
  stable P (query fault stmt).
Proof.
  intros Hs c c' r HP. unfold query.
  destruct (fault (issued c)); [intros [= <- _]; exact HP|].
  destruct (stmt (working c) (seq c)) as [sq [e|[t a]]] eqn:E;
    intros [= <- _]; simpl; eauto.
Qed.

Lemma stable_select {A} P (f : Tables -> A) : stable P (select fault f).
Proof. apply stable_query. intros d w sq sq' t a HP [= _ <- _]. exact HP. Qed.

Lemma stable_execute P (f : Tables -> Tables) :
  (forall d w, P d w -> P d (f w)) -> stable P (execute fault f).
Proof. intros Hf. apply stable_query. intros d w sq sq' t a HP [= _ <- _]. auto. Qed.

Lemma stable_BEGIN P : (forall d w, P d w -> P d d) -> stable P (BEGIN fault).
Proof.
  intros H c c' r HP. unfold BEGIN.
  destruct (fault (issued c)); intros [= <- _]; simpl; eauto.
Qed.

Lemma stable_COMMIT P : (forall d w, P d w -> P w w) -> stable P (COMMIT fault).
Proof.
  intros H c c' r HP. unfold COMMIT.
  destruct (fault (issued c)); intros [= <- _]; simpl; eauto.
Qed.

Lemma stable_pool_select {A} P (f : Tables -> A) : stable P (pool_select f).
Proof. intros c c' r HP [= <- _]. exact HP. Qed.

(** Inversion of a statement that completed. *)
Lemma query_ok {A} (stmt : Tables -> Z -> Z * (pg_error + Tables * A)) c c' a :
  query fault stmt c = (c', inr a) ->
  fault (issued c) = None /\
  exists sq t, stmt (working c) (seq c) = (sq, inr (t, a)) /\
    c' = {| durable := durable c; working := t; in_txn := in_txn c;
            seq := sq; issued := S (issued c) |}.
Proof.
  unfold query. destruct (fault (issued c)); [discriminate|].
  destruct (stmt (working c) (seq c)) as [sq [e|[t a']]] eqn:E; [discriminate|].
  intros [= <- <-]. eauto.
Qed.

Lemma select_ok {A} (f : Tables -> A) c c' a :
  select fault f c = (c', inr a) ->
  fault (issued c) = None /\ a = f (working c) /\ c' = sent c.
Proof.
  intros H. apply query_ok in H as (Hf & sq & t & [= <- <- <-] & ->). auto.
Qed.

Lemma execute_ok (f : Tables -> Tables) c c' u :
  execute fault f c = (c', inr u) ->
  fault (issued c) = None /\
  c' = {| durable := durable c; working := f (working c); in_txn := in_txn c;
          seq := seq c; issued := S (issued c) |}.
Proof.
  intros H. apply query_ok in H as (Hf & sq & t & [= <- <-] & ->). auto.
Qed.

End Blocks.

(** ** The order transaction *)

Section OrderFacts.

Variable fault : nat -> option string.

Lemma query_throw {A} (stmt : Tables -> Z -> Z * (pg_error + Tables * A)) c c' e :
  query fault stmt c = (c', inl e) ->
  durable c' = durable c /\ working c' = working c /\ in_txn c' = in_txn c.
Proof.
  unfold query. destruct (fault (issued c)); [intros [= <- _]; auto|].
  destruct (stmt (working c) (seq c)) as [sq [e'|[t a]]]; [|discriminate].
  intros [= <- _]. auto.
Qed.

Lemma find_active_Some t id p :
  find_active t id = Some p ->
  exists i, id = Some i /\ products t !! i = Some p /\ p_is_active p = true.
Proof.
  unfold find_active. destruct id as [i|]; [|discriminate].
  destruct (products t !! i) as [q|] eqn:E; [|discriminate].
  destruct (p_is_active q) eqn:Ea; [|discriminate].
  intros [= <-]. eauto.
Qed.

(** What one pass of the loop body does when it completes: the product is
    there and active, the stock check let the line through, the line total
    is added, the item is pushed, and the stock of that product is
    decremented in the working tables. *)
Lemma process_item_ok item total acc c c' r :
  process_item fault item total acc c = (c', inr r) ->
  exists i p,
    li_product_id item = Some i /\
    products (working c) !! i = Some p /\
    p_is_active p = true /\
    js_lt (p_stock_quantity p) (li_quantity item) = false /\
    r = (js_add total (js_mul (parseFloat (p_price p)) (to_number (li_quantity item))),
         (acc ++ [ {| pi_product_id := li_product_id item;
                      pi_quantity := li_quantity item;
                      pi_unit_price := p_price p;
                      pi_total_price :=
                        js_mul (parseFloat (p_price p)) (to_number (li_quantity item)) |} ])%list) /\
    c' = {| durable := durable c;
            working := set_products
              (alter (fun q => with_stock
                                 (sql_sub (p_stock_quantity q) (li_quantity item)) q) i)
              (working c);
            in_txn := in_txn c; seq := seq c; issued := S (S (issued c)) |} /\
    fault (issued c) = None /\ fault (S (issued c)) = None.
Proof.
  unfold process_item. intros H.
  apply bind_ok in H as (pr & c1 & Hsel & H).
  apply select_ok in Hsel as (Hf0 & -> & ->).
  destruct (find_active (working c) (li_product_id item)) as [p|] eqn:Ef;
    [|discriminate].
  apply find_active_Some in Ef as (i & Hi & Hp & Ha).
  destruct (js_lt (p_stock_quantity p) (li_quantity item)) eqn:Elt; [discriminate|].
  apply bind_ok in H as ([] & c2 & Hex & [= <- <-]).
  apply execute_ok in Hex as (Hf1 & ->). simpl in *.
  exists i, p. rewrite Hi. repeat split; auto.
Qed.

(** A pass that throws leaves the tables as it found them. *)
Lemma process_item_throw item total acc c c' e :
  process_item fault item total acc c = (c', inl e) ->
  durable c' = durable c /\ working c' = working c /\ in_txn c' = in_txn c.
Proof.
  unfold process_item. intros H.
  apply bind_throw in H as [H|(pr & c1 & Hsel & H)].
  { eapply query_throw; eauto. }
  apply select_ok in Hsel as (_ & _ & ->).
  destruct pr as [p|]; [|injection H as <- _; auto].
  destruct (js_lt _ _); [injection H as <- _; auto|].
  apply bind_throw in H as [H|([] & c2 & _ & H)]; [|discriminate].
  apply query_throw in H. simpl in H. exact H.
Qed.

Lemma process_items_durable items : forall total acc c c' r,
  process_items fault items total acc c = (c', r) -> durable c' = durable c.
Proof.
  induction items as [|item rest IH]; intros total acc c c' r; simpl.
  - intros [= <- _]. reflexivity.
  - unfold bind. destruct (process_item fault item total acc c) as [c1 [e|a]] eqn:E.
    + intros [= <- _]. apply process_item_throw in E. tauto.
    + intros H. apply IH in H. rewrite H.
      apply process_item_ok in E as (i & p & _ & _ & _ & _ & _ & -> & _). reflexivity.
Qed.

Lemma keeps_durable_stable {A} (m : Tx A) :
  (forall d0, stable (fun d _ => d = d0) m) -> keeps_durable m.
Proof. intros H c c' r E. exact (H (durable c) c c' r eq_refl E). Qed.

Lemma query_keeps_durable {A} (stmt : Tables -> Z -> Z * (pg_error + Tables * A)) :
  keeps_durable (query fault stmt).
Proof. apply keeps_durable_stable. intros d0. apply stable_query. auto. Qed.

Lemma insert_order_items_durable id items :
  keeps_durable (insert_order_items fault id items).
Proof.
  apply keeps_durable_stable. intros d0.
  induction items as [|item rest IH]; simpl.
  - apply stable_ret.
  - apply stable_bind; [apply stable_query; auto|intros _; exact IH].
Qed.

Lemma BEGIN_inv c c' r :
  BEGIN fault c = (c', r) ->
  durable c' = durable c /\
  (forall u, r = inr u -> working c' = durable c /\ in_txn c' = true /\
                          seq c' = seq c /\ issued c' = S (issued c) /\
                          fault (issued c) = None) /\
  (forall e, r = inl e -> in_txn c' = in_txn c).
Proof.
  unfold BEGIN. destruct (fault (issued c)); intros [= <- <-]; simpl;
    repeat split; auto; intros; discriminate.
Qed.

Lemma COMMIT_inv c c' r :
  COMMIT fault c = (c', r) ->
  (forall u, r = inr u -> durable c' = working c /\ in_txn c' = false /\
                          seq c' = seq c /\ fault (issued c) = None) /\
  (forall e, r = inl e -> durable c' = durable c /\ in_txn c' = in_txn c).
Proof.
  unfold COMMIT. destruct (fault (issued c)); intros [= <- <-]; simpl;
    repeat split; auto; intros; discriminate.
Qed.

End OrderFacts.

Section OrderAtomicity.

Variable fault : nat -> option string.

(** The [try] block of order creation never changes the committed tables
    on a path that throws: everything before [COMMIT] works on the
    transaction's copy, and nothing after it can throw. *)
Lemma create_order_body_throw now req c c' e :
  create_order_body fault now req c = (c', inl e) ->
  durable c' = durable c.
Proof.
  unfold create_order_body. intros H.
  apply bind_throw in H as [H|([] & c1 & Hb & H)].
  { apply BEGIN_inv in H. tauto. }
  apply BEGIN_inv in Hb as (Hd1 & _ & _). rewrite <- Hd1.
  destruct (required_fields req) as [[user_id items]|]; [|discriminate].
  apply bind_throw in H as [H|(acc & c2 & Hp & H)].
  { eapply process_items_durable; eauto. }
  apply process_items_durable in Hp. rewrite <- Hp.
  apply bind_throw in H as [H|(order & c3 & Hi & H)].
  { eapply query_keeps_durable; eauto. }
  apply query_keeps_durable in Hi. rewrite <- Hi.
  apply bind_throw in H as [H|([] & c4 & Hit & H)].
  { eapply insert_order_items_durable; eauto. }
  apply insert_order_items_durable in Hit. rewrite <- Hit.
  apply bind_throw in H as [H|([] & c5 & Hc & H)].
  { apply COMMIT_inv in H as (_ & H). destruct (H e eq_refl). assumption. }
  discriminate.
Qed.

(** The three ways a pass of the loop throws. *)
Lemma missing_product_throws item total acc c :
  fault (issued c) = None ->
  find_active (working c) (li_product_id item) = None ->
  process_item fault item total acc c =
    (sent c, inl (Error (not_found_message (li_product_id item)))).
Proof.
  intros Hf Hnone. unfold process_item, bind, select_active_product, select, query.
  rewrite Hf, Hnone. reflexivity.
Qed.

Lemma insufficient_stock_throws item total acc c p :
  fault (issued c) = None ->
  find_active (working c) (li_product_id item) = Some p ->
  js_lt (p_stock_quantity p) (li_quantity item) = true ->
  process_item fault item total acc c =
    (sent c, inl (Error (insufficient_stock_message p (li_quantity item)))).
Proof.
  intros Hf Hsome Hlt. unfold process_item, bind, select_active_product, select, query.
  rewrite Hf, Hsome, Hlt. reflexivity.
Qed.

Lemma rejected_statement_throws {A} (stmt : Tables -> Z -> Z * (pg_error + Tables * A))
    c m :
  fault (issued c) = Some m ->
  query fault stmt c = (sent c, inl (DatabaseError (Fault m))).
Proof. intros Hf. unfold query. rewrite Hf. reflexivity. Qed.


End OrderAtomicity.

Section OrderCreation.

Variable fault : nat -> option string.

Lemma same_catalog_refl t : same_catalog t t.
Proof. intros i. reflexivity. Qed.

Lemma same_catalog_trans t1 t2 t3 :
  same_catalog t1 t2 -> same_catalog t2 t3 -> same_catalog t1 t3.
Proof. intros H1 H2 i. rewrite H2. apply H1. Qed.

Lemma same_catalog_price t t' id :
  same_catalog t t' -> price_of t' id = price_of t id.
Proof.
  intros H. destruct id as [i|]; [|reflexivity]. simpl.
  specialize (H i).
  destruct (products t' !! i), (products t !! i); simpl in H;
    try discriminate; [|reflexivity].
  injection H as H _. exact H.
Qed.

Lemma same_catalog_find t t' id :
  same_catalog t t' ->
  catalog_entry <$> find_active t' id = catalog_entry <$> find_active t id.
Proof.
  intros H. destruct id as [i|]; [|reflexivity]. simpl.
  specialize (H i).
  destruct (products t' !! i) as [p'|], (products t !! i) as [p|]; simpl in H;
    try discriminate; [|reflexivity].
  injection H as Hp Ha.
  destruct (p_is_active p') eqn:Ea', (p_is_active p) eqn:Ea; simpl;
    try discriminate; try reflexivity.
  unfold catalog_entry. rewrite Hp, Ea', Ea. reflexivity.
Qed.

Lemma same_catalog_line t t' item :
  same_catalog t t' -> line_total t' item = line_total t item.
Proof. intros H. unfold line_total. rewrite (same_catalog_price _ _ _ H). reflexivity. Qed.

Lemma same_catalog_stock t i f :
  same_catalog t
    (set_products (alter (fun q => with_stock (f q) q) i) t).
Proof.
  intros j. simpl. destruct (decide (i = j)) as [->|Hne].
  - rewrite lookup_alter_eq. destruct (products t !! j); reflexivity.
  - rewrite lookup_alter_ne by assumption. reflexivity.
Qed.

(** The loop over the lines, when it completes: the running total is the
    left-to-right sum of the line totals, the items pushed are the lines at
    the prices read, and only stock columns have changed. *)
Lemma process_items_ok items : forall total acc c c' r,
  process_items fault items total acc c = (c', inr r) ->
  fst r = fold_left js_add (map (line_total (working c)) items) total /\
  snd r = (acc ++ map (fun item =>
             {| pi_product_id := li_product_id item;
                pi_quantity := li_quantity item;
                pi_unit_price := price_of (working c) (li_product_id item);
                pi_total_price := line_total (working c) item |}) items)%list /\
  Forall (fun item => is_Some (find_active (working c) (li_product_id item))) items /\
  same_catalog (working c) (working c') /\
  orders (working c') = orders (working c) /\
  order_items (working c') = order_items (working c) /\
  users (working c') = users (working c) /\
  seq c' = seq c /\ in_txn c' = in_txn c.
Proof.
  induction items as [|item rest IH]; intros total acc c c' r; simpl.
  - intros [= <- <-]. simpl. rewrite app_nil_r.
    repeat split; auto using same_catalog_refl.
  - intros H. apply bind_ok in H as (a & c1 & Hi & H).
    apply process_item_ok in Hi
      as (i & p & Hid & Hp & Ha & Hlt & -> & -> & Hf0 & Hf1).
    apply IH in H as (Ht & Hacc & Hall & Hcat & Ho & Hoi & Hu & Hs & Htx).
    simpl in *.
    pose proof (same_catalog_stock (working c) i
                  (fun q => sql_sub (p_stock_quantity q) (li_quantity item))) as Hc1.
    assert (Hprice : price_of (working c) (li_product_id item) = p_price p).
    { rewrite Hid. simpl. rewrite Hp. reflexivity. }
    repeat split; auto.
    + rewrite Ht. unfold line_total at 3. rewrite Hprice. f_equal.
      apply map_ext. intros x. apply same_catalog_line. exact Hc1.
    + rewrite Hacc, <- app_assoc. simpl. f_equal. f_equal.
      * unfold line_total. rewrite Hprice. reflexivity.
      * apply map_ext. intros x.
        rewrite (same_catalog_price _ _ _ Hc1), (same_catalog_line _ _ _ Hc1).
        reflexivity.
    + constructor.
      * rewrite Hid. simpl. rewrite Hp, Ha. eauto.
      * eapply Forall_impl; [exact Hall|]. intros x [q Hq].
        pose proof (same_catalog_find _ _ (li_product_id x) Hc1) as Hfind.
        destruct (find_active (working c) (li_product_id x)); [eauto|].
        assert (E : catalog_entry <$> Some q = None)
          by (rewrite <- Hq; exact Hfind).
        discriminate.
    + eapply same_catalog_trans; eauto.
Qed.

Lemma insert_order_ok now u total ship bill c c' id row :
  insert_order fault now u total ship bill c = (c', inr (id, row)) ->
  id = (seq c + 1)%Z /\
  row = {| o_user_id := u; o_total_amount := total; o_status := "pending";
           o_shipping_address := ship; o_billing_address := bill;
           o_created_at := now; o_updated_at := now |} /\
  u ∈ users (working c) /\
  orders (working c) !! id = None /\
  c' = {| durable := durable c;
          working := set_orders (insert id row) (working c);
          in_txn := in_txn c; seq := id; issued := S (issued c) |}.
Proof.
  unfold insert_order. intros H.
  apply query_ok in H as (_ & sq & t & Hs & ->).
  destruct (decide (u ∈ users (working c))) as [Hu|]; [|discriminate].
  destruct (orders (working c) !! (seq c + 1)%Z) eqn:Eo; [discriminate|].
  injection Hs as <- <- <- <-. auto.
Qed.

Lemma insert_order_item_ok id item c c' u :
  insert_order_item fault id item c = (c', inr u) ->
  exists row, row_of_processed id item = Some row /\
    c' = {| durable := durable c;
            working := set_order_items (fun l => (l ++ [row])%list) (working c);
            in_txn := in_txn c; seq := seq c; issued := S (issued c) |}.
Proof.
  unfold insert_order_item, row_of_processed. intros H.
  apply query_ok in H as (_ & sq & t & Hs & ->).
  destruct (pi_quantity item) as [q|]; [|discriminate].
  destruct (orders (working c) !! id); [|discriminate].
  destruct (match pi_product_id item with
            | Some pid => bool_decide (is_Some (products (working c) !! pid))
            | None => true
            end); [|discriminate].
  injection Hs as <- <-. eauto.
Qed.

Lemma insert_order_items_ok id items : forall c c' u,
  insert_order_items fault id items c = (c', inr u) ->
  exists rows,
    Forall2 (fun item row => row_of_processed id item = Some row) items rows /\
    order_items (working c') = (order_items (working c) ++ rows)%list /\
    products (working c') = products (working c) /\
    orders (working c') = orders (working c) /\
    users (working c') = users (working c) /\
    seq c' = seq c /\ in_txn c' = in_txn c.
Proof.
  induction items as [|item rest IH]; intros c c' u; simpl.
  - intros [= <-]. exists []. rewrite app_nil_r. repeat split; auto.
  - intros H. apply bind_ok in H as ([] & c1 & Hi & H).
    apply insert_order_item_ok in Hi as (row & Hrow & ->).
    apply IH in H as (rows & HF & Hoi & Hp & Ho & Hu & Hs & Htx). simpl in *.
    exists (row :: rows). rewrite Hoi, <- app_assoc. repeat split; auto.
Qed.

Lemma rows_of_lines t id (Q : Line -> Prop) items : forall rows,
  Forall2 (fun item row => row_of_processed id item = Some row)
          (map (fun item =>
                  {| pi_product_id := li_product_id item;
                     pi_quantity := li_quantity item;
                     pi_unit_price := price_of t (li_product_id item);
                     pi_total_price := line_total t item |}) items)
          rows ->
  Forall Q items ->
  Forall2 (fun item row => row_of_line t id item = Some row /\ Q item) items rows.
Proof.
  induction items as [|item items IH]; intros rows HF HQ; simpl in HF.
  - inversion HF. constructor.
  - inversion HF as [|? row ? rows' Hrow HF']; subst.
    inversion HQ; subst. constructor; auto.
Qed.

(** Everything a completed [try] block of order creation has done. *)
Lemma create_order_body_ok now req db c res :
  create_order_body fault now req (connect db) = (c, inr res) ->
  match required_fields req with
  | None =>
      res = json_error 400 "Missing required fields: user_id and items array" /\
      durable c = tables db /\ in_txn c = true /\ seq c = orders_id_seq db
  | Some (u, items) =>
      let id := (orders_id_seq db + 1)%Z in
      let o := created_order now req u items (tables db) in
      exists rows,
        Forall2 (fun item row =>
                   row_of_line (tables db) id item = Some row /\
                   is_Some (find_active (tables db) (li_product_id item)))
                items rows /\
        u ∈ users (tables db) /\
        orders (tables db) !! id = None /\
        orders (durable c) = <[id := o]> (orders (tables db)) /\
        order_items (durable c) = (order_items (tables db) ++ rows)%list /\
        users (durable c) = users (tables db) /\
        same_catalog (tables db) (durable c) /\
        seq c = id /\ in_txn c = false /\
        res = {| status_code := 201;
                 body := CompleteOrder id (Some o) (items_of_order id (durable c)) |}
  end.
Proof.
  unfold create_order_body. intros H.
  apply bind_ok in H as ([] & c1 & Hb & H).
  apply BEGIN_inv in Hb as (Hd1 & Hb & _).
  destruct (Hb tt eq_refl) as (Hw1 & Htx1 & Hs1 & _). clear Hb. simpl in *.
  destruct (required_fields req) as [[u items]|];
    [|unfold ret in H; injection H as <- <-; auto].
  apply bind_ok in H as (acc & c2 & Hp & H).
  pose proof (process_items_durable _ _ _ _ _ _ _ Hp) as Hd2.
  apply process_items_ok in Hp as (Ht & Hacc & Hall & Hcat & Ho2 & Hoi2 & Hu2 & Hs2 & Htx2).
  rewrite Hw1 in *. simpl in Hacc.
  apply bind_ok in H as ([id row] & c3 & Hi & H).
  apply insert_order_ok in Hi as (Hid & Hrow & Hu & Hfresh & ->). simpl in H.
  apply bind_ok in H as ([] & c4 & Hit & H).
  pose proof (insert_order_items_durable _ _ _ _ _ _ Hit) as Hd4.
  apply insert_order_items_ok in Hit as (rows & HF & Hoi4 & Hp4 & Ho4 & Hu4 & Hs4 & Htx4).
  simpl in *.
  apply bind_ok in H as ([] & c5 & Hc & H).
  apply COMMIT_inv in Hc as (Hc & _).
  destruct (Hc tt eq_refl) as (Hd5 & Htx5 & Hs5 & _). clear Hc.
  unfold pool_select, bind, ret in H. injection H as <- <-.
  assert (Eid : id = (orders_id_seq db + 1)%Z) by congruence.
  assert (Erow : row = created_order now req u items (tables db)).
  { rewrite Hrow, Ht. reflexivity. }
  subst row. rewrite Erow in *. clear Erow. subst id. rewrite Eid in *.
  exists rows. rewrite Hd5, Hoi4, Ho4, Hu4. simpl.
  rewrite Hacc in HF.
  repeat split.
  - apply rows_of_lines; assumption.
  - rewrite <- Hu2. exact Hu.
  - rewrite <- Ho2. exact Hfresh.
  - rewrite Ho2. reflexivity.
  - rewrite Hoi2. reflexivity.
  - rewrite Hu2. reflexivity.
  - intros i. rewrite Hp4. apply Hcat.
  - congruence.
  - exact Htx5.
  - rewrite lookup_insert_eq. reflexivity.
Qed.

End OrderCreation.

Section OrderTotals.

Variable fault : nat -> option string.

Lemma filter_order_none (id : Z) (l : list OrderItem) :
  Forall (fun it => oi_order_id it <> id) l ->
  filter (fun it => oi_order_id it = id) l = [].
Proof.
  induction 1 as [|it l Hne _ IH]; [reflexivity|].
  rewrite filter_cons_False by assumption. exact IH.
Qed.

Lemma filter_order_all (id : Z) (l : list OrderItem) :
  Forall (fun it => oi_order_id it = id) l ->
  filter (fun it => oi_order_id it = id) l = l.
Proof.
  induction 1 as [|it l He _ IH]; [reflexivity|].
  rewrite filter_cons_True by assumption. f_equal. exact IH.
Qed.

Lemma row_of_line_Some t id item row :
  row_of_line t id item = Some row ->
  li_quantity item = Some (oi_quantity row) /\
  oi_order_id row = id /\
  oi_product_id row = li_product_id item /\
  oi_unit_price row = price_of t (li_product_id item) /\
  oi_total_price row = line_total t item.
Proof.
  unfold row_of_line. destruct (li_quantity item) as [q|]; [|discriminate].
  intros [= <-]. simpl. auto.
Qed.

(** The rows of a new order are exactly the rows its lines became, when
    the items already stored belong to stored orders. *)
Lemma items_of_new_order t id (old rows : list OrderItem) (items : list Line)
    (Q : Line -> Prop) (ords : gmap Z Order) :
  (forall it, it ∈ old -> is_Some (ords !! oi_order_id it)) ->
  ords !! id = None ->
  Forall2 (fun item row => row_of_line t id item = Some row /\ Q item) items rows ->
  filter (fun it => oi_order_id it = id) (old ++ rows)%list = rows.
Proof.
  intros Hfk Hfresh HF. rewrite filter_app.
  rewrite filter_order_none, filter_order_all; [reflexivity| |].
  - clear Hfk. induction HF as [|item row items rows [Hrow _] _ IH]; constructor; auto.
    apply row_of_line_Some in Hrow. tauto.
  - apply Forall_forall. intros it Hin Heq.
    destruct (Hfk it Hin) as [o Ho]. congruence.
Qed.

(** A response 201 comes from a [try] block that ran to its end on a
    request with its required fields. *)
Lemma created_inv now req db :
  status_code (response (create_order fault now req db)) = 201%Z ->
  exists c res u items,
    create_order_body fault now req (connect db) = (c, inr res) /\
    required_fields req = Some (u, items) /\
    create_order fault now req db =
      {| db_after := release c; response := res; txn_open := in_txn c |}.
Proof.
  unfold create_order, try_catch_release.
  destruct (create_order_body fault now req (connect db)) as [c [e|res]] eqn:E;
    simpl; [discriminate|].
  intros Hst. pose proof (create_order_body_ok _ _ _ _ _ _ E) as H.
  destruct (required_fields req) as [[u items]|].
  - exists c, res, u, items. auto.
  - destruct H as (-> & _). discriminate.
Qed.



End OrderTotals.

Section OrderValidation.

Variable fault : nat -> option string.

Lemma required_fields_None req :
  required_fields req = None <->
  rq_user_id req = None \/ rq_user_id req = Some 0%Z \/
  rq_items req = None \/ rq_items req = Some [].
Proof.
  unfold required_fields.
  destruct (rq_user_id req) as [u|]; [|intuition].
  destruct (rq_items req) as [[|item rest]|]; [intuition| |intuition].
  destruct (Z.eqb_spec u 0) as [->|Hne]; [intuition|].
  split; [discriminate|].
  intros [H|[H|[H|H]]]; congruence.
Qed.

(** A completed order has a product id and a quantity on every line. *)
Lemma created_lines_complete now req db c res u items :
  create_order_body fault now req (connect db) = (c, inr res) ->
  required_fields req = Some (u, items) ->
  Forall (fun item => is_Some (li_product_id item) /\ is_Some (li_quantity item)) items.
Proof.
  intros E Hreq. pose proof (create_order_body_ok _ _ _ _ _ _ E) as H.
  rewrite Hreq in H. cbv zeta in H. destruct H as (rows & HF & _).
  clear E Hreq.
  induction HF as [|item row items' rows' [Hrow [p Hp]] _ IH]; constructor; auto.
  apply row_of_line_Some in Hrow as (Hq & _).
  apply find_active_Some in Hp as (i & Hi & _). rewrite Hi, Hq. split; eauto.
Qed.

(** C7, as the handler validates.  A request whose [user_id] is missing or
    zero, or whose [items] is missing, not an array or empty, is answered
    400 right after [BEGIN], with the store untouched (the transaction is
    left open on the released client).  A request that passes this check
    but has a line without [product_id] or without [quantity] is not a
    validation error: it runs inside the transaction, cannot complete, and
    is answered 500 with every table as before. *)
Theorem create_order_validation now req db :
  (fault 0%nat = None ->
   rq_user_id req = None \/ rq_user_id req = Some 0%Z \/
   rq_items req = None \/ rq_items req = Some [] ->
   create_order fault now req db =
     {| db_after := db;
        response := json_error 400 "Missing required fields: user_id and items array";
        txn_open := true |}) /\
  (forall u items,
     required_fields req = Some (u, items) ->
     Exists (fun item => li_product_id item = None \/ li_quantity item = None) items ->
     status_code (response (create_order fault now req db)) = 500%Z /\
     tables (db_after (create_order fault now req db)) = tables db).
Proof.
  split.
  - intros Hf Hmiss. apply required_fields_None in Hmiss.
    unfold create_order, try_catch_release, create_order_body, bind, BEGIN.
    simpl. rewrite Hf, Hmiss. simpl. destruct db; reflexivity.
  - intros u items Hreq Hex.
    unfold create_order, try_catch_release.
    destruct (create_order_body fault now req (connect db)) as [c [e|res]] eqn:E; simpl.
    + apply create_order_body_throw in E. auto.
    + exfalso. pose proof (created_lines_complete _ _ _ _ _ _ _ E Hreq) as Hall.
      apply Exists_exists in Hex as (item & Hin & Hbad).
      rewrite Forall_forall in Hall. destruct (Hall item Hin) as [[i Hi] [q Hq]].
      destruct Hbad; congruence.
Qed.

(** A request naming a product that the store does not hold, or holds
    inactive, on any of its lines is answered 500 and changes no table. *)
Theorem absent_or_inactive_product_fails now req db u items :
  required_fields req = Some (u, items) ->
  Exists (fun item => find_active (tables db) (li_product_id item) = None) items ->
  status_code (response (create_order fault now req db)) = 500%Z /\
  tables (db_after (create_order fault now req db)) = tables db.
Proof.
  intros Hreq Hex.
  unfold create_order, try_catch_release.
  destruct (create_order_body fault now req (connect db)) as [c [e|res]] eqn:E; simpl.
  - apply create_order_body_throw in E. auto.
  - exfalso. pose proof (create_order_body_ok _ _ _ _ _ _ E) as H.
    rewrite Hreq in H. cbv zeta in H. destruct H as (rows & HF & _).
    apply Exists_exists in Hex as (item & Hin & Hnone).
    clear E Hreq. induction HF as [|x row xs rows' [_ [p Hp]] _ IH].
    + inversion Hin.
    + apply elem_of_cons in Hin as [->|Hin]; [congruence|auto].
Qed.

End OrderValidation.

Section StockInvariant.

Variable fault : nat -> option string.

Lemma decrement_nonneg t i p q :
  stock_nonneg t ->
  products t !! i = Some p ->
  js_lt (p_stock_quantity p) q = false ->
  stock_nonneg
    (set_products (alter (fun x => with_stock (sql_sub (p_stock_quantity x) q) x) i) t).
Proof.
  intros Ht Hp Hlt j p' s. simpl.
  destruct (decide (i = j)) as [<-|Hne].
  - rewrite lookup_alter_eq, Hp. simpl. intros [= <-]. simpl.
    unfold js_lt in Hlt.
    destruct (p_stock_quantity p) as [a|], q as [b|]; simpl; try discriminate.
    intros [= <-]. simpl in Hlt. apply Z.ltb_ge in Hlt. lia.
  - rewrite lookup_alter_ne by assumption. apply Ht.
Qed.

Lemma process_items_nonneg items : forall total acc c c' r,
  stock_nonneg (working c) ->
  process_items fault items total acc c = (c', r) ->
  stock_nonneg (working c').
Proof.
  induction items as [|item rest IH]; intros total acc c c' r Hn; simpl.
  - intros [= <- _]. exact Hn.
  - unfold bind. destruct (process_item fault item total acc c) as [c1 [e|a]] eqn:E.
    + intros [= <- _]. apply process_item_throw in E as (_ & -> & _). exact Hn.
    + intros H. eapply IH; [|exact H].
      apply process_item_ok in E as (i & p & _ & Hp & _ & Hlt & _ & -> & _).
      simpl. eapply decrement_nonneg; eauto.
Qed.

Lemma create_order_body_nonneg now req : stable both_nonneg (create_order_body fault now req).
Proof.
  unfold create_order_body.
  apply stable_bind; [apply stable_BEGIN; unfold both_nonneg; tauto|intros _].
  destruct (required_fields req) as [[u items]|]; [|apply stable_ret].
  apply stable_bind.
  { intros c c' r [Hd Hw] E. split.
    - rewrite (process_items_durable _ _ _ _ _ _ _ E). exact Hd.
    - eapply process_items_nonneg; eauto. }
  intros acc. apply stable_bind.
  { apply stable_query. intros d w sq sq' t a [Hd Hw] E. split; [exact Hd|].
    cbv beta zeta in E.
    destruct (decide (u ∈ users w)); [|discriminate].
    destruct (orders w !! (sq + 1)%Z); [discriminate|].
    injection E as _ <- _. exact Hw. }
  intros order. apply stable_bind.
  { generalize (snd acc). intros l. induction l as [|item rest IH]; simpl.
    - apply stable_ret.
    - apply stable_bind; [|intros _; exact IH].
      apply stable_query. intros d w sq sq' t a [Hd Hw] E. split; [exact Hd|].
      destruct (pi_quantity item); [|discriminate].
      destruct (orders w !! order.1); [|discriminate].
      destruct (match pi_product_id item with
                | Some pid => bool_decide (is_Some (products w !! pid))
                | None => true
                end); [|discriminate].
      injection E as _ <-. exact Hw. }
  intros _. apply stable_bind.
  { apply stable_COMMIT. unfold both_nonneg. tauto. }
  intros _. apply stable_bind; [apply stable_pool_select|intros co; apply stable_ret].
Qed.

(** C3.  Order creation never makes a stock negative.  If no product of
    the store has a negative stock before the request, none has one after
    it, whatever the request (repeated products included) and whatever
    fails on the way.  The reason is the check inside the loop: a pass that
    completes has read the stock [s] of its product from the transaction's
    own tables, which carry the decrements of the earlier lines, has found
    the requested quantity [q] to be at most [s], and leaves [s - q]. *)
Theorem create_order_keeps_stock_nonneg now req db :
  stock_nonneg (tables db) ->
  stock_nonneg (tables (db_after (create_order fault now req db))) /\
  (forall item total acc c c' r i p s q,
     process_item fault item total acc c = (c', inr r) ->
     li_product_id item = Some i ->
     products (working c) !! i = Some p ->
     p_stock_quantity p = Some s ->
     li_quantity item = Some q ->
     (q <= s)%Z /\
     products (working c') !! i = Some (with_stock (Some (s - q)%Z) p)).
Proof.
  intros Hn. split.
  - unfold create_order, try_catch_release.
    destruct (create_order_body fault now req (connect db)) as [c [e|res]] eqn:E;
      simpl; eapply (create_order_body_nonneg now req (connect db)); eauto;
      split; exact Hn.
  - intros item total acc c c' r i p s q E Hi Hp Hs Hq.
    apply process_item_ok in E as (i' & p' & Hi' & Hp' & _ & Hlt & _ & -> & _).
    assert (i' = i) as -> by congruence.
    assert (p' = p) as -> by congruence.
    rewrite Hs, Hq in Hlt. simpl in Hlt. apply Z.ltb_ge in Hlt.
    split; [exact Hlt|]. simpl.
    rewrite lookup_alter_eq, Hp. simpl. rewrite Hs, Hq. reflexivity.
Qed.

Lemma stock_le_refl t : stock_le t t.
Proof. intros i p Hp. exists p. split; [exact Hp|lia]. Qed.

(** The loop never completes on a line that asks for more than the store
    held when the request arrived, if no line has a negative quantity. *)
Lemma process_items_within_stock t0 items : forall total acc c c' r,
  stock_nonneg t0 ->
  stock_le t0 (working c) ->
  Forall (fun item => forall q, li_quantity item = Some q -> (0 <= q)%Z) items ->
  process_items fault items total acc c = (c', inr r) ->
  Forall (fun item => forall p q,
            find_active t0 (li_product_id item) = Some p ->
            li_quantity item = Some q ->
            (q <= default 0 (p_stock_quantity p))%Z) items.
Proof.
  induction items as [|item rest IH]; intros total acc c c' r Hn Hle Hq; simpl.
  - constructor.
  - intros H. apply bind_ok in H as (a & c1 & Hi & H).
    apply process_item_ok in Hi as (i & pw & Hid & Hpw & _ & Hlt & _ & -> & _).
    inversion Hq as [|? ? Hq0 Hqrest]; subst.
    destruct (Hle i pw Hpw) as (p0 & Hp0 & Hle0).
    constructor.
    + intros p q Hfind Hquant.
      apply find_active_Some in Hfind as (i' & Hi' & Hp & _).
      assert (i' = i) as -> by congruence.
      assert (p = p0) as -> by congruence.
      rewrite Hquant in Hlt. simpl in Hlt. apply Z.ltb_ge in Hlt. lia.
    + eapply IH; [exact Hn| |exact Hqrest|exact H].
      intros j p. simpl. destruct (decide (i = j)) as [<-|Hne].
      * rewrite lookup_alter_eq, Hpw. simpl. intros [= <-]. simpl.
        exists p0. split; [exact Hp0|].
        destruct (p_stock_quantity pw) as [s|] eqn:Es,
                 (li_quantity item) as [q|] eqn:Eq; simpl in *.
        -- specialize (Hq0 q eq_refl). lia.
        -- destruct (p_stock_quantity p0) as [s0|] eqn:Es0; simpl; [|lia].
           apply (Hn i p0 s0 Hp0 Es0).
        -- exact Hle0.
        -- exact Hle0.
      * rewrite lookup_alter_ne by assumption. apply Hle.
Qed.

(** A request without negative quantities, on a store without negative
    stocks, one of whose lines asks for more units than the store holds of
    its product: the response is 500 and every table is as before. *)
Theorem excessive_quantity_fails now req db u items :
  required_fields req = Some (u, items) ->
  stock_nonneg (tables db) ->
  Forall (fun item => forall q, li_quantity item = Some q -> (0 <= q)%Z) items ->
  Exists (fun item => exists p q,
            find_active (tables db) (li_product_id item) = Some p /\
            li_quantity item = Some q /\
            (default 0 (p_stock_quantity p) < q)%Z) items ->
  status_code (response (create_order fault now req db)) = 500%Z /\
  tables (db_after (create_order fault now req db)) = tables db.
Proof.
  intros Hreq Hn Hq Hex.
  unfold create_order, try_catch_release.
  destruct (create_order_body fault now req (connect db)) as [c [e|res]] eqn:E; simpl.
  - apply create_order_body_throw in E. auto.
  - exfalso. unfold create_order_body in E. rewrite Hreq in E.
    apply bind_ok in E as ([] & c1 & Hb & E).
    apply BEGIN_inv in Hb as (_ & Hb & _).
    destruct (Hb tt eq_refl) as (Hw1 & _). clear Hb. simpl in Hw1.
    apply bind_ok in E as (acc & c2 & Hp & _).
    eapply process_items_within_stock in Hp; [|exact Hn| |exact Hq].
    + apply Exists_exists in Hex as (item & Hin & p & q & Hfind & Hquant & Hlt).
      rewrite Forall_forall in Hp. specialize (Hp item Hin p q Hfind Hquant). lia.
    + rewrite Hw1. apply stock_le_refl.
Qed.

End StockInvariant.

(** ** Signs in binary64 arithmetic *)








(** ** Finite prices

    [parseFloat] of a price that fits its column is a finite number: the
    rounding of [SpecFloat] neither overflows nor loses the sign of its
    mantissa on operands of this size. *)

Lemma digits2_pos_size p : digits2_pos p = Pos.size p.
Proof. induction p; simpl; congruence. Qed.

Lemma Zdigits2_log2 z : 0 < z -> Zdigits2 z = Z.log2 z + 1.
Proof.
  destruct z as [|p|p]; try lia. intros _. simpl.
  destruct p; simpl; rewrite ?digits2_pos_size; lia.
Qed.

Lemma Zdigits2_nonneg z : 0 <= Zdigits2 z.
Proof. destruct z; simpl; lia. Qed.

Lemma Zdigits2_mono a b : 0 <= a <= b -> Zdigits2 a <= Zdigits2 b.
Proof.
  intros [Ha Hab]. destruct (Z.eq_dec a 0) as [->|Hne].
  - apply Zdigits2_nonneg.
  - rewrite !Zdigits2_log2 by lia. pose proof (Z.log2_le_mono a b Hab). lia.
Qed.



Lemma Zdigits2_shiftl a n : 0 < a -> 0 <= n -> Zdigits2 (Z.shiftl a n) = Zdigits2 a + n.
Proof.
  intros Ha Hn.
  assert (0 < Z.shiftl a n).
  { rewrite Z.shiftl_mul_pow2 by lia. apply Z.mul_pos_pos; [lia|].
    apply Z.pow_pos_nonneg; lia. }
  rewrite !Zdigits2_log2 by lia. rewrite Z.log2_shiftl by lia. lia.
Qed.











Section NonPositiveQuantities.

Variable fault : nat -> option string.

(** One pass of the loop on a line that finds its product and passes the
    stock check, when the engine rejects neither statement. *)
Lemma process_item_run item total acc c i p :
  fault (issued c) = None -> fault (S (issued c)) = None ->
  li_product_id item = Some i ->
  products (working c) !! i = Some p -> p_is_active p = true ->
  js_lt (p_stock_quantity p) (li_quantity item) = false ->
  process_item fault item total acc c =
    ({| durable := durable c;
        working := set_products
          (alter (fun x => with_stock
                             (sql_sub (p_stock_quantity x) (li_quantity item)) x) i)
          (working c);
        in_txn := in_txn c; seq := seq c; issued := S (S (issued c)) |},
     inr (js_add total (js_mul (parseFloat (p_price p)) (to_number (li_quantity item))),
          (acc ++ [ {| pi_product_id := li_product_id item;
                       pi_quantity := li_quantity item;
                       pi_unit_price := p_price p;
                       pi_total_price :=
                         js_mul (parseFloat (p_price p))
                                (to_number (li_quantity item)) |} ])%list)).
Proof.
  intros Hf0 Hf1 Hi Hp Ha Hlt.
  unfold process_item, bind, select_active_product, select, query.
  rewrite Hf0. unfold find_active. rewrite Hi, Hp, Ha, Hlt.
  unfold decrement_stock, execute, query. simpl. rewrite Hf1. reflexivity.
Qed.

Lemma bind_run {A B} (m : Tx A) (k : A -> Tx B) c c1 a :
  m c = (c1, inr a) -> bind m k c = k a c1.
Proof. intros H. unfold bind. rewrite H. reflexivity. Qed.

Lemma BEGIN_run c :
  fault (issued c) = None ->
  BEGIN fault c =
    ({| durable := durable c; working := durable c; in_txn := true;
        seq := seq c; issued := S (issued c) |}, inr tt).
Proof. intros H. unfold BEGIN. rewrite H. reflexivity. Qed.

Lemma COMMIT_run c :
  fault (issued c) = None ->
  COMMIT fault c =
    ({| durable := working c; working := working c; in_txn := false;
        seq := seq c; issued := S (issued c) |}, inr tt).
Proof. intros H. unfold COMMIT. rewrite H. reflexivity. Qed.

Lemma insert_order_run now u total ship bill c :
  fault (issued c) = None ->
  u ∈ users (working c) ->
  orders (working c) !! (seq c + 1)%Z = None ->
  let row := {| o_user_id := u; o_total_amount := total; o_status := "pending";
                o_shipping_address := ship; o_billing_address := bill;
                o_created_at := now; o_updated_at := now |} in
  insert_order fault now u total ship bill c =
    ({| durable := durable c;
        working := set_orders (insert (seq c + 1)%Z row) (working c);
        in_txn := in_txn c; seq := (seq c + 1)%Z; issued := S (issued c) |},
     inr ((seq c + 1)%Z, row)).
Proof.
  intros Hf Hu Hfresh row. unfold insert_order, query. rewrite Hf.
  destruct (decide (u ∈ users (working c))); [|contradiction].
  rewrite Hfresh. reflexivity.
Qed.

Lemma insert_order_item_run id item c q i :
  fault (issued c) = None ->
  pi_quantity item = Some q ->
  pi_product_id item = Some i ->
  is_Some (orders (working c) !! id) ->
  is_Some (products (working c) !! i) ->
  insert_order_item fault id item c =
    ({| durable := durable c;
        working := set_order_items
          (fun l => (l ++ [ {| oi_order_id := id;
                               oi_product_id := Some i;
                               oi_quantity := q;
                               oi_unit_price := pi_unit_price item;
                               oi_total_price := pi_total_price item |} ])%list)
          (working c);
        in_txn := in_txn c; seq := seq c; issued := S (issued c) |},
     inr tt).
Proof.
  intros Hf Hq Hi [o Ho] Hp. unfold insert_order_item, query.
  rewrite Hf, Hq, Hi, Ho. rewrite bool_decide_eq_true_2 by assumption. reflexivity.
Qed.



End NonPositiveQuantities.

(** ** Cancellation and status updates *)

Section Cancellation.

Variable fault : nat -> option string.

Lemma select_run {A} (f : Tables -> A) c :
  fault (issued c) = None -> select fault f c = (sent c, inr (f (working c))).
Proof. intros H. unfold select, query. rewrite H. reflexivity. Qed.

Lemma execute_run (f : Tables -> Tables) c :
  fault (issued c) = None ->
  execute fault f c =
    ({| durable := durable c; working := f (working c); in_txn := in_txn c;
        seq := seq c; issued := S (issued c) |}, inr tt).
Proof. intros H. unfold execute, query. rewrite H. reflexivity. Qed.

Lemma restore_items_run rows : forall c,
  (forall n, fault n = None) ->
  restore_items fault rows c =
    ({| durable := durable c;
        working := set_products (restore_all rows) (working c);
        in_txn := in_txn c; seq := seq c;
        issued := (length rows + issued c)%nat |}, inr tt).
Proof.
  induction rows as [|it rows IH]; intros c Hnf; simpl.
  - unfold ret. destruct c as [d [ps us os ois] tx sq n]. reflexivity.
  - erewrite bind_run; cycle 1.
    { unfold restore_stock. apply execute_run. apply Hnf. }
    rewrite IH by assumption. unfold restore_all. simpl. f_equal. f_equal.
    + destruct (oi_product_id it); reflexivity.
    + lia.
Qed.

Lemma restore_one_zero p : restore_one 0 p = p.
Proof.
  destruct p as [n pr [s|] a]; unfold restore_one, with_stock; simpl;
    [|reflexivity].
  f_equal. f_equal. lia.
Qed.

Lemma restore_one_add a b p : restore_one a (restore_one b p) = restore_one (b + a) p.
Proof.
  destruct p as [n pr [s|] ac]; unfold restore_one, with_stock; simpl;
    [|reflexivity].
  f_equal. f_equal. lia.
Qed.

(** Each product ends with its stock raised by the units of it on the
    rows, and everything else about it as before. *)
Lemma lookup_restore_all rows : forall ps i,
  restore_all rows ps !! i = restore_one (restored_quantity i rows) <$> ps !! i.
Proof.
  induction rows as [|it rows IH]; intros ps i; simpl.
  - destruct (ps !! i) as [p|]; simpl; [|reflexivity].
    unfold restored_quantity. simpl. rewrite restore_one_zero. reflexivity.
  - unfold restore_all in *. simpl. rewrite IH. unfold restored_quantity.
    destruct (oi_product_id it) as [j|] eqn:Ej.
    + destruct (decide (j = i)) as [->|Hne].
      * rewrite filter_cons_True by assumption. simpl.
        rewrite lookup_alter_eq. destruct (ps !! i) as [p|]; simpl; [|reflexivity].
        rewrite restore_one_add. reflexivity.
      * rewrite filter_cons_False by congruence.
        rewrite lookup_alter_ne by assumption. reflexivity.
    + rewrite filter_cons_False by congruence. reflexivity.
Qed.



End Cancellation.

Section StatusUpdates.

Variable fault : nat -> option string.


End StatusUpdates.

(** ** The session check *)

Section SessionCheck.

Variable jwt_verify : string -> option Login.Claims.

Lemma no_live_session_nil now token user_sessions :
  no_live_session now token user_sessions ->
  Login.live_sessions now token user_sessions = [].
Proof.
  intros H. unfold Login.live_sessions.
  induction user_sessions as [|s l IH]; [reflexivity|].
  rewrite filter_cons_False.
  - apply IH. intros s' Hin. apply H. right. exact Hin.
  - intros [Ht Hlt]. specialize (H s (list_elem_of_here _ _) Ht). lia.
Qed.

(** C8, as the checks answer.  A token with a valid signature whose
    session row is missing and one whose session row has expired get the
    same answer, 401 "Invalid or expired session", from the middleware and
    from the verify endpoint.  A token whose signature is invalid or
    expired gets another answer: 403 "Invalid token" from the middleware,
    and 401 with [{ valid: false, error: "Invalid token" }] from the verify
    endpoint. *)
Theorem auth_failure_outcomes now authHeader token user_sessions :
  Login.bearer_token authHeader = Some token ->
  (jwt_verify token = None ->
   Login.authenticateToken jwt_verify false now authHeader user_sessions =
     Login.Respond {| Login.status_code := 403;
                      Login.body := Login.ErrorBody "Invalid token" |} /\
   Login.verify jwt_verify false now (Some token) user_sessions =
     {| Login.status_code := 401; Login.body := Login.InvalidBody "Invalid token" |}) /\
  (forall decoded,
     jwt_verify token = Some decoded ->
     no_live_session now token user_sessions ->
     Login.authenticateToken jwt_verify false now authHeader user_sessions =
       Login.Respond {| Login.status_code := 401;
                        Login.body := Login.ErrorBody "Invalid or expired session" |} /\
     Login.verify jwt_verify false now (Some token) user_sessions =
       {| Login.status_code := 401;
          Login.body := Login.ErrorBody "Invalid or expired session" |}).
Proof.
  intros Hb.
  assert (Hne : String.eqb token "" = false).
  { unfold Login.bearer_token in Hb. destruct authHeader as [h|]; [|discriminate].
    destruct (Login.split " " h) as [|x [|t l]]; try discriminate.
    destruct (String.eqb t "") eqn:E; [discriminate|]. congruence. }
  split.
  - intros Hv. unfold Login.authenticateToken, Login.verify.
    rewrite Hb, Hne, Hv. auto.
  - intros decoded Hv Hno. unfold Login.authenticateToken, Login.verify.
    rewrite Hb, Hne, Hv, (no_live_session_nil _ _ _ Hno). auto.
Qed.

(** A session that was revoked by logout is rejected afterwards, although
    its token still verifies. *)
Theorem revoked_session_is_rejected now authHeader token decoded user_sessions :
  Login.bearer_token authHeader = Some token ->
  jwt_verify token = Some decoded ->
  Login.authenticateToken jwt_verify false now authHeader
    (Login.delete_session token user_sessions) =
    Login.Respond {| Login.status_code := 401;
                     Login.body := Login.ErrorBody "Invalid or expired session" |}.
Proof.
  intros Hb Hv. unfold Login.authenticateToken. rewrite Hb, Hv.
  rewrite no_live_session_nil; [reflexivity|].
  intros s Hin Ht. unfold Login.delete_session in Hin.
  apply list_elem_of_filter in Hin as [Hne _]. contradiction.
Qed.

End SessionCheck.

(** ** The product listing *)

Section ProductListing.

Variable Rows : Type.
Variable JSON_stringify : Rows -> string.
Variable JSON_parse : string -> option Rows.

(** C9, as the handler answers.  When the store returns the products: on
    a cache miss with a cache write that succeeds, the answer is the
    store's rows and they are cached for 300 seconds; when the cache read
    is rejected, or the cache write is rejected, the answer is 500 "Failed
    to fetch products". *)
Theorem listing_depends_on_cache (w : ProductList.Collaborators Rows) rows :
  ProductList.pool_query Rows w = ProductList.Resolved rows ->
  (ProductList.redis_get Rows w = ProductList.Resolved None ->
   ProductList.redis_setEx Rows w = ProductList.Resolved tt ->
   ProductList.get_products Rows JSON_stringify JSON_parse w =
     {| ProductList.response :=
          {| ProductList.status_code := 200;
             ProductList.body := ProductList.Products Rows rows |};
        ProductList.cache_write :=
          Some ("products:all", 300%Z, JSON_stringify rows) |}) /\
  (ProductList.redis_get Rows w = ProductList.Rejected ->
   ProductList.response Rows (ProductList.get_products Rows JSON_stringify JSON_parse w) =
     ProductList.failed Rows) /\
  (ProductList.redis_get Rows w = ProductList.Resolved None ->
   ProductList.redis_setEx Rows w = ProductList.Rejected ->
   ProductList.response Rows (ProductList.get_products Rows JSON_stringify JSON_parse w) =
     ProductList.failed Rows).
Proof.
  intros Hq. unfold ProductList.get_products. repeat split.
  - intros Hg Hs. rewrite Hg, Hq, Hs. reflexivity.
  - intros Hg. rewrite Hg. reflexivity.
  - intros Hg Hs. rewrite Hg, Hq, Hs. reflexivity.
Qed.

End ProductListing.

(** ** Outcomes of the order handlers *)

Section OrderOutcomes.

Variable fault : nat -> option string.

Lemma take_one_zero p : take_one (Some 0%Z) p = p.
Proof.
  destruct p as [n pr [s|] a]; unfold take_one, with_stock; simpl; [|reflexivity].
  f_equal. f_equal. lia.
Qed.

Lemma take_one_add a b p :
  take_one (Some a) (take_one (Some b) p) = take_one (Some (b + a)%Z) p.
Proof.
  destruct p as [n pr [s|] ac]; unfold take_one, with_stock; simpl; [|reflexivity].
  f_equal. f_equal. lia.
Qed.

Lemma restore_take q p : restore_one q (take_one (Some q) p) = p.
Proof.
  destruct p as [n pr [s|] ac]; unfold restore_one, take_one, with_stock; simpl;
    [|reflexivity].
  f_equal. f_equal. lia.
Qed.

(** Each product ends with its stock lowered by the units the lines ask of
    it, when every line carries a quantity. *)
Lemma lookup_take_all items : forall ps i,
  Forall (fun item => is_Some (li_quantity item)) items ->
  take_all items ps !! i = take_one (Some (ordered_quantity i items)) <$> ps !! i.
Proof.
  induction items as [|item items IH]; intros ps i Hq; simpl.
  - destruct (ps !! i) as [p|]; simpl; [|reflexivity].
    unfold ordered_quantity. simpl. rewrite take_one_zero. reflexivity.
  - inversion Hq as [|? ? [q Hq0] Hqs]; subst.
    unfold take_all in *. simpl. rewrite IH by assumption. unfold ordered_quantity.
    destruct (li_product_id item) as [j|] eqn:Ej.
    + destruct (decide (j = i)) as [->|Hne].
      * rewrite filter_cons_True by assumption. simpl.
        rewrite lookup_alter_eq. destruct (ps !! i) as [p|]; simpl; [|reflexivity].
        rewrite Hq0. simpl. rewrite take_one_add. reflexivity.
      * rewrite filter_cons_False by congruence.
        rewrite lookup_alter_ne by assumption. reflexivity.
    + rewrite filter_cons_False by congruence. reflexivity.
Qed.

(** The loop of order creation, when it completes, has rewritten the
    products of the transaction line by line. *)
Lemma process_items_products items : forall total acc c c' r,
  process_items fault items total acc c = (c', inr r) ->
  products (working c') = take_all items (products (working c)).
Proof.
  induction items as [|item rest IH]; intros total acc c c' r; simpl.
  - intros [= <- _]. reflexivity.
  - intros H. apply bind_ok in H as (a & c1 & Hi & H).
    apply process_item_ok in Hi as (i & p & Hid & _ & _ & _ & _ & -> & _).
    apply IH in H. rewrite H. simpl. rewrite Hid. reflexivity.
Qed.

(** The products a completed [try] block of order creation commits. *)
Lemma create_order_body_products now req db c res u items :
  create_order_body fault now req (connect db) = (c, inr res) ->
  required_fields req = Some (u, items) ->
  products (durable c) = take_all items (products (tables db)).
Proof.
  unfold create_order_body. intros H Hreq. rewrite Hreq in H.
  apply bind_ok in H as ([] & c1 & Hb & H).
  apply BEGIN_inv in Hb as (_ & Hb & _).
  destruct (Hb tt eq_refl) as (Hw1 & _). clear Hb. simpl in Hw1.
  apply bind_ok in H as (acc & c2 & Hp & H).
  apply process_items_products in Hp. rewrite Hw1 in Hp.
  apply bind_ok in H as ([id row] & c3 & Hi & H).
  apply insert_order_ok in Hi as (_ & _ & _ & _ & ->). simpl in H.
  apply bind_ok in H as ([] & c4 & Hit & H).
  apply insert_order_items_ok in Hit as (rows & _ & _ & Hp4 & _). simpl in Hp4.
  apply bind_ok in H as ([] & c5 & Hc & H).
  apply COMMIT_inv in Hc as (Hc & _).
  destruct (Hc tt eq_refl) as (Hd5 & _). clear Hc.
  unfold pool_select, bind, ret in H. injection H as <- _.
  rewrite Hd5, Hp4. exact Hp.
Qed.


(** Order creation lowers stock by what was ordered.  For every order that
    was created (response 201), each product's stock is lowered by the
    units the lines of the request ask of it, added up over the lines
    (a product may be on several); nothing else about a product changes,
    products on no line are as before, and no product is added or
    removed. *)
Theorem create_order_decrements_stock now req db u items :
  required_fields req = Some (u, items) ->
  status_code (response (create_order fault now req db)) = 201%Z ->
  forall i,
    products (tables (db_after (create_order fault now req db))) !! i =
      take_one (Some (ordered_quantity i items)) <$> products (tables db) !! i.
Proof.
  intros Hreq Hst i.
  destruct (created_inv _ _ _ _ Hst) as (c & res & u' & items' & E & Hreq' & ->).
  assert (u' = u /\ items' = items) as [-> ->] by (split; congruence).
  simpl. rewrite (create_order_body_products _ _ _ _ _ _ _ E Hreq).
  apply lookup_take_all.
  eapply Forall_impl; [exact (created_lines_complete _ _ _ _ _ _ _ _ E Hreq)|].
  intros item [_ Hq]. exact Hq.
Qed.

(** *** What a cancellation leaves *)

Lemma restore_items_ok rows : forall c c' u,
  restore_items fault rows c = (c', inr u) ->
  working c' = set_products (restore_all rows) (working c) /\
  durable c' = durable c /\ in_txn c' = in_txn c /\ seq c' = seq c.
Proof.
  induction rows as [|it rows IH]; intros c c' u; simpl.
  - intros [= <-]. destruct c as [d [ps us os ois] tx sq n]. auto.
  - intros H. apply bind_ok in H as ([] & c1 & Hx & H).
    unfold restore_stock in Hx. apply execute_ok in Hx as (_ & ->).
    apply IH in H as (Hw & Hd & Ht & Hs). simpl in *.
    rewrite Hw. repeat split; auto.
    unfold restore_all. simpl. destruct (oi_product_id it); reflexivity.
Qed.

Lemma restore_items_durable rows : keeps_durable (restore_items fault rows).
Proof.
  apply keeps_durable_stable. intros d0.
  induction rows as [|it rows IH]; simpl.
  - apply stable_ret.
  - apply stable_bind; [apply stable_query; auto|intros _; exact IH].
Qed.

(** The [try] block of cancellation never changes the committed tables on
    a path that throws. *)
Lemma cancel_order_body_throw now id c c' e :
  cancel_order_body fault now id c = (c', inl e) ->
  durable c' = durable c.
Proof.
  unfold cancel_order_body. intros H.
  apply bind_throw in H as [H|([] & c1 & Hb & H)].
  { apply BEGIN_inv in H. tauto. }
  apply BEGIN_inv in Hb as (Hd1 & _ & _). rewrite <- Hd1.
  apply bind_throw in H as [H|(orderResult & c2 & Hs & H)].
  { eapply query_keeps_durable; eauto. }
  apply query_keeps_durable in Hs. rewrite <- Hs.
  destruct orderResult as [order|]; [|discriminate].
  destruct (String.eqb (o_status order) "delivered"); [discriminate|].
  apply bind_throw in H as [H|(itemsResult & c3 & Hs3 & H)].
  { eapply query_keeps_durable; eauto. }
  apply query_keeps_durable in Hs3. rewrite <- Hs3.
  apply bind_throw in H as [H|([] & c4 & Hr & H)].
  { eapply restore_items_durable; eauto. }
  apply restore_items_durable in Hr. rewrite <- Hr.
  apply bind_throw in H as [H|([] & c5 & Hx & H)].
  { eapply query_keeps_durable; eauto. }
  apply query_keeps_durable in Hx. rewrite <- Hx.
  apply bind_throw in H as [H|([] & c6 & Hc & H)].
  { apply COMMIT_inv in H as (_ & H). destruct (H e eq_refl). assumption. }
  discriminate.
Qed.

(** Everything a completed [try] block of cancellation has done. *)
Lemma cancel_order_body_ok now id db c res :
  cancel_order_body fault now id (connect db) = (c, inr res) ->
  seq c = orders_id_seq db /\
  match orders (tables db) !! id with
  | None =>
      res = json_error 404 "Order not found" /\
      durable c = tables db /\ in_txn c = true
  | Some o =>
      if String.eqb (o_status o) "delivered"
      then res = json_error 400 "Cannot cancel delivered order" /\
           durable c = tables db /\ in_txn c = true
      else res = {| status_code := 200;
                    body := MessageBody "Order cancelled successfully" |} /\
           durable c = cancelled now id (tables db) /\ in_txn c = false
  end.
Proof.
  unfold cancel_order_body. intros H.
  apply bind_ok in H as ([] & c1 & Hb & H).
  apply BEGIN_inv in Hb as (Hd1 & Hb & _).
  destruct (Hb tt eq_refl) as (Hw1 & Htx1 & Hs1 & _). clear Hb. simpl in *.
  apply bind_ok in H as (orderResult & c2 & Hs & H).
  apply select_ok in Hs as (_ & -> & ->). simpl in H. rewrite Hw1 in H.
  destruct (orders (tables db) !! id) as [o|];
    [|unfold ret in H; injection H as <- <-; simpl; auto].
  destruct (String.eqb (o_status o) "delivered");
    [unfold ret in H; injection H as <- <-; simpl; auto|].
  apply bind_ok in H as (itemsResult & c3 & Hs3 & H).
  apply select_ok in Hs3 as (_ & -> & ->). simpl in H. rewrite Hw1 in H.
  apply bind_ok in H as ([] & c4 & Hr & H).
  apply restore_items_ok in Hr as (Hw4 & Hd4 & Htx4 & Hs4). simpl in *.
  apply bind_ok in H as ([] & c5 & Hx & H).
  apply execute_ok in Hx as (_ & ->).
  apply bind_ok in H as ([] & c6 & Hc & H).
  apply COMMIT_inv in Hc as (Hc & _).
  destruct (Hc tt eq_refl) as (Hd6 & Htx6 & Hs6 & _). clear Hc. simpl in *.
  unfold ret in H. injection H as <- <-.
  rewrite Hd6, Hw4, Hw1, Hs6, Hs4, Hs1. auto.
Qed.

(** The outcomes of a cancellation, under any fault plan. *)
Lemma cancel_order_outcome now id db :
  let r := cancel_order fault now id db in
  (exists o, orders (tables db) !! id = Some o /\ o_status o <> "delivered" /\
     response r = {| status_code := 200;
                     body := MessageBody "Order cancelled successfully" |} /\
     tables (db_after r) = cancelled now id (tables db) /\ txn_open r = false) \/
  ((status_code (response r) = 400%Z \/ status_code (response r) = 404%Z) /\
     tables (db_after r) = tables db /\ txn_open r = true) \/
  (response r = json_error 500 "Internal server error" /\
     tables (db_after r) = tables db /\ txn_open r = false).
Proof.
  unfold cancel_order, try_catch_release.
  destruct (cancel_order_body fault now id (connect db)) as [c [e|res]] eqn:E; simpl.
  - right. right. apply cancel_order_body_throw in E. auto.
  - apply cancel_order_body_ok in E as (_ & E).
    destruct (orders (tables db) !! id) as [o|] eqn:Ho.
    + destruct (String.eqb (o_status o) "delivered") eqn:Est.
      * destruct E as (-> & Hd & Htx). right. left. simpl. auto.
      * destruct E as (-> & Hd & Htx). left. exists o.
        apply String.eqb_neq in Est. auto.
    + destruct E as (-> & Hd & Htx). right. left. simpl. auto.
Qed.

(** The outcomes of an order creation, under any fault plan. *)
Lemma create_order_outcome now req db :
  let r := create_order fault now req db in
  (status_code (response r) = 201%Z /\ txn_open r = false /\
     exists c res u items,
       create_order_body fault now req (connect db) = (c, inr res) /\
       required_fields req = Some (u, items) /\
       r = {| db_after := release c; response := res; txn_open := in_txn c |}) \/
  (status_code (response r) = 400%Z /\
     tables (db_after r) = tables db /\ txn_open r = true) \/
  (status_code (response r) = 500%Z /\
     tables (db_after r) = tables db /\ txn_open r = false).
Proof.
  unfold create_order, try_catch_release.
  destruct (create_order_body fault now req (connect db)) as [c [e|res]] eqn:E; simpl.
  - right. right. apply create_order_body_throw in E. auto.
  - pose proof (create_order_body_ok _ _ _ _ _ _ E) as H.
    destruct (required_fields req) as [[u items]|] eqn:Hreq.
    + cbv zeta in H. destruct H as (rows & _ & _ & _ & _ & _ & _ & _ & _ & Htx & ->).
      left. simpl. repeat split; auto. exists c. eauto 10.
    + destruct H as (-> & Hd & Htx & _). right. left. simpl. auto.
Qed.


(** The early returns leave the transaction open.  Order creation releases
    its client with the transaction still open exactly when it answers 400,
    and cancellation exactly when it answers 400 or 404: these answers are
    returned from inside the [try] block, after BEGIN, with neither COMMIT
    nor ROLLBACK.  No table has changed in these cases. *)
Theorem transaction_left_open_on_early_return now req id db :
  (txn_open (create_order fault now req db) = true <->
   status_code (response (create_order fault now req db)) = 400%Z) /\
  (txn_open (cancel_order fault now id db) = true <->
   status_code (response (cancel_order fault now id db)) = 400%Z \/
   status_code (response (cancel_order fault now id db)) = 404%Z) /\
  (txn_open (create_order fault now req db) = true ->
   tables (db_after (create_order fault now req db)) = tables db) /\
  (txn_open (cancel_order fault now id db) = true ->
   tables (db_after (cancel_order fault now id db)) = tables db).
Proof.
  destruct (create_order_outcome now req db)
    as [(Hc & Htx & _)|[(Hc & Ht & Htx)|(Hc & Ht & Htx)]];
  destruct (cancel_order_outcome now id db)
    as [(o & _ & _ & Hres' & _ & Htx')|[(Hc' & Ht' & Htx')|(Hres' & Ht' & Htx')]];
  cbv zeta in *; rewrite ?Hres' in *; simpl in *;
  repeat split; intros; try congruence; try tauto;
  try (destruct Hc'; congruence);
  try (match goal with H : _ \/ _ |- _ => destruct H; congruence end).
Qed.

Lemma history_kept_refl t : history_kept t t.
Proof.
  split.
  - intros id o Ho. exists o. unfold order_kept. repeat split; auto.
  - exists []. rewrite app_nil_r. reflexivity.
Qed.

Lemma history_kept_eq t t' : t' = t -> history_kept t t'.
Proof. intros ->. apply history_kept_refl. Qed.

(** Orders are never lost or repriced.  Whatever the request and the fault
    plan, after an order creation, a status update or a cancellation every
    order stored before is still stored under its id, with the user, the
    total amount, the addresses and the creation time it had, and the order
    items stored before are still there, in place and unchanged. *)
Theorem orders_are_kept now req id status db :
  history_kept (tables db) (tables (db_after (create_order fault now req db))) /\
  history_kept (tables db)
    (tables (db_after (update_order_status fault now id status db))) /\
  history_kept (tables db) (tables (db_after (cancel_order fault now id db))).
Proof.
  split; [|split].
  - destruct (create_order_outcome now req db)
      as [(_ & _ & c & res & u & items & E & Hreq & ->)|[(_ & Ht & _)|(_ & Ht & _)]];
      cbv zeta in *; try (apply history_kept_eq; exact Ht).
    pose proof (create_order_body_ok _ _ _ _ _ _ E) as H. rewrite Hreq in H.
    cbv zeta in H. destruct H as (rows & _ & _ & Hfresh & Ho & Hoi & _).
    simpl. split.
    + intros j o Hj. exists o. rewrite Ho. split; [|unfold order_kept; repeat split; auto].
      rewrite lookup_insert_ne; [exact Hj|]. intros <-. congruence.
    + exists rows. exact Hoi.
  - unfold update_order_status.
    destruct (negb (includes validStatuses status)); [apply history_kept_refl|].
    destruct (fault 0%nat); [apply history_kept_refl|].
    destruct (orders (tables db) !! id) as [o|] eqn:Ho; [|apply history_kept_refl].
    unfold history_kept, set_orders. simpl. split.
    + intros j o' Hj. destruct (decide (id = j)) as [<-|Hne].
      * rewrite lookup_insert_eq. eexists. split; [reflexivity|].
        assert (o' = o) as -> by congruence. unfold order_kept. simpl. repeat split; auto.
      * rewrite lookup_insert_ne by assumption. exists o'. unfold order_kept. repeat split; auto.
    + exists []. rewrite app_nil_r. reflexivity.
  - destruct (cancel_order_outcome now id db)
      as [(o & Ho & _ & _ & Ht & _)|[(_ & Ht & _)|(_ & Ht & _)]];
      cbv zeta in *; try (apply history_kept_eq; exact Ht).
    rewrite Ht. unfold history_kept, cancelled. simpl. split.
    + intros j o' Hj. destruct (decide (id = j)) as [<-|Hne].
      * rewrite lookup_alter_eq, Hj. simpl. eexists. split; [reflexivity|].
        unfold order_kept. simpl. repeat split; auto.
      * rewrite lookup_alter_ne by assumption. exists o'. unfold order_kept. repeat split; auto.
    + exists []. rewrite app_nil_r. reflexivity.
Qed.


(** A cancellation of a stored order that is not delivered, when the
    engine rejects no statement. *)
Lemma cancel_order_run now id db o :
  orders (tables db) !! id = Some o ->
  o_status o <> "delivered" ->
  (forall n, fault n = None) ->
  cancel_order fault now id db =
    {| db_after := {| tables := cancelled now id (tables db);
                      orders_id_seq := orders_id_seq db |};
       response := {| status_code := 200;
                      body := MessageBody "Order cancelled successfully" |};
       txn_open := false |}.
Proof.
  intros Ho Hst Hnf.
  unfold cancel_order, try_catch_release, cancel_order_body.
  rewrite (bind_run _ _ _ _ _ (BEGIN_run _ _ (Hnf _))).
  rewrite (bind_run _ _ _ _ _ (select_run _ _ _ (Hnf _))).
  cbn [working durable sent connect]. rewrite Ho.
  apply String.eqb_neq in Hst. rewrite Hst.
  rewrite (bind_run _ _ _ _ _ (select_run _ _ _ (Hnf _))).
  rewrite (bind_run _ _ _ _ _ (restore_items_run _ _ _ Hnf)).
  rewrite (bind_run _ _ _ _ _ (execute_run _ _ _ (Hnf _))).
  rewrite (bind_run _ _ _ _ _ (COMMIT_run _ _ (Hnf _))).
  reflexivity.
Qed.

(** The rows of an order restore what its lines took. *)
Lemma restored_is_ordered t id (Q : Line -> Prop) i items rows :
  Forall2 (fun item row => row_of_line t id item = Some row /\ Q item) items rows ->
  restored_quantity i rows = ordered_quantity i items.
Proof.
  unfold restored_quantity, ordered_quantity.
  induction 1 as [|item row items rows [Hrow _] _ IH]; [reflexivity|].
  apply row_of_line_Some in Hrow as (Hq & _ & Hpid & _).
  destruct (decide (li_product_id item = Some i)) as [Hi|Hi].
  - rewrite !filter_cons_True by congruence. simpl. rewrite Hq, IH. reflexivity.
  - rewrite !filter_cons_False by congruence. exact IH.
Qed.

End OrderOutcomes.

Section OrderRoundTrips.

Variable fault fault' : nat -> option string.

(** Cancelling a new order undoes its effect on stock.  When an order has
    been created (201) on a store whose order items all belong to stored
    orders, a cancellation of that order that is answered 200 leaves the
    products table exactly as it was before the order was created, and the
    order stored with status "cancelled"; and the cancellation is answered
    200 whenever the engine rejects none of its statements. *)
Theorem create_then_cancel_restores_products now now' req db :
  items_reference_orders (tables db) ->
  status_code (response (create_order fault now req db)) = 201%Z ->
  let db1 := db_after (create_order fault now req db) in
  let id := (orders_id_seq db + 1)%Z in
  let r := cancel_order fault' now' id db1 in
  (status_code (response r) = 200%Z ->
   products (tables (db_after r)) = products (tables db) /\
   exists o, orders (tables (db_after r)) !! id = Some o /\
             o_status o = "cancelled") /\
  ((forall n, fault' n = None) -> status_code (response r) = 200%Z).
Proof.
  intros Hfk Hst.
  destruct (created_inv _ _ _ _ Hst) as (c & res & u & items & E & Hreq & ->).
  pose proof (create_order_body_products _ _ _ _ _ _ _ _ E Hreq) as Hps.
  pose proof (created_lines_complete _ _ _ _ _ _ _ _ E Hreq) as Hall.
  pose proof (create_order_body_ok _ _ _ _ _ _ E) as H. rewrite Hreq in H.
  cbv zeta in H.
  destruct H as (rows & HF & _ & Hfresh & Ho & Hoi & _ & _ & _ & _ & _).
  simpl. set (id := (orders_id_seq db + 1)%Z) in *.
  set (o := created_order now req u items (tables db)) in *.
  assert (Hid : orders (durable c) !! id = Some o)
    by (rewrite Ho, lookup_insert_eq; reflexivity).
  assert (Hrows : items_of_order id (durable c) = rows).
  { unfold items_of_order. rewrite Hoi.
    eapply items_of_new_order; [exact Hfk|exact Hfresh|exact HF]. }
  split.
  - intros H200.
    destruct (cancel_order_outcome fault' now' id (release c))
      as [(_ & _ & _ & _ & Ht & _)|[([Hc|Hc] & _)|(Hres & _)]];
      cbv zeta in *; [|congruence|congruence|rewrite Hres in H200; discriminate].
    rewrite Ht. unfold cancelled. simpl. split.
    + apply map_eq. intros i. rewrite lookup_restore_all, Hrows, Hps.
      rewrite lookup_take_all
        by (eapply Forall_impl; [exact Hall|]; intros item [_ Hq]; exact Hq).
      rewrite (restored_is_ordered _ _ _ i _ _ HF).
      destruct (products (tables db) !! i) as [p|]; simpl; [|reflexivity].
      rewrite restore_take. reflexivity.
    + exists (with_status "cancelled" now' o). rewrite lookup_alter_eq, Hid.
      split; reflexivity.
  - intros Hnf.
    assert (Hnd : o_status o <> "delivered") by (simpl; discriminate).
    rewrite (cancel_order_run fault' now' id (release c) o Hid Hnd Hnf).
    reflexivity.
Qed.

(** Cancellation is not idempotent.  Cancelling an order that is stored
    and not delivered a second time (the engine rejecting nothing) is
    answered 200 again and restores the stock again: each product ends
    with its stock raised by twice the units of it on the order's items. *)
Theorem cancel_twice_restores_twice now1 now2 id db o :
  orders (tables db) !! id = Some o ->
  o_status o <> "delivered" ->
  (forall n, fault n = None) ->
  let db1 := db_after (cancel_order fault now1 id db) in
  let r := cancel_order fault now2 id db1 in
  status_code (response r) = 200%Z /\
  forall i, products (tables (db_after r)) !! i =
    restore_one (2 * restored_quantity i (items_of_order id (tables db)))
      <$> products (tables db) !! i.
Proof.
  intros Ho Hst Hnf.
  rewrite (cancel_order_run fault now1 id db o Ho Hst Hnf). cbn [db_after].
  set (db1 := {| tables := cancelled now1 id (tables db);
                 orders_id_seq := orders_id_seq db |}).
  assert (Ho1 : orders (tables db1) !! id = Some (with_status "cancelled" now1 o)).
  { unfold db1, cancelled. simpl. rewrite lookup_alter_eq, Ho. reflexivity. }
  assert (Hst1 : o_status (with_status "cancelled" now1 o) <> "delivered")
    by (simpl; discriminate).
  rewrite (cancel_order_run fault now2 id db1 _ Ho1 Hst1 Hnf). simpl.
  split; [reflexivity|]. intros i.
  unfold items_of_order at 1. simpl.
  rewrite !lookup_restore_all. fold (items_of_order id (tables db)).
  destruct (products (tables db) !! i) as [p|]; simpl; [|reflexivity].
  rewrite restore_one_add. f_equal. f_equal. lia.
Qed.

End OrderRoundTrips.

Section OrderSuccess.

Variable fault : nat -> option string.
Hypothesis no_faults : forall n, fault n = None.

Lemma ordered_quantity_nonneg ps all i items :
  Forall (line_servable ps all) items -> (0 <= ordered_quantity i items)%Z.
Proof.
  unfold ordered_quantity. induction 1 as [|item items Hx _ IH]; simpl; [lia|].
  destruct Hx as (j & q & p & Hj & Hq & Hq0 & _).
  destruct (decide (li_product_id item = Some i)).
  - rewrite filter_cons_True by assumption. simpl. rewrite Hq. simpl. lia.
  - rewrite filter_cons_False by assumption. exact IH.
Qed.

(** The loop completes on lines that can be served. *)
Lemma process_items_run items : forall total acc c,
  Forall (line_servable (products (working c)) items) items ->
  exists c' r, process_items fault items total acc c = (c', inr r).
Proof.
  induction items as [|item rest IH]; intros total acc c Hall; simpl.
  - unfold ret. eauto.
  - inversion Hall as [|? ? Hhead Hrest]; subst.
    destruct Hhead as (i & q & p & Hi & Hq & Hq0 & Hp & Ha & Hle).
    assert (Hrest0 : (0 <= ordered_quantity i rest)%Z)
      by (eapply ordered_quantity_nonneg; exact Hrest).
    assert (Hsum : ordered_quantity i (item :: rest) = (q + ordered_quantity i rest)%Z).
    { unfold ordered_quantity. rewrite filter_cons_True by assumption.
      simpl. rewrite Hq. reflexivity. }
    assert (Hlt : js_lt (p_stock_quantity p) (li_quantity item) = false).
    { rewrite Hq. simpl. apply Z.ltb_ge. lia. }
    erewrite bind_run;
      [|apply (process_item_run fault item total acc c i p); auto].
    apply IH. simpl.
    apply Forall_forall. intros x Hx.
    rewrite Forall_forall in Hrest.
    destruct (Hrest x Hx) as (j & qj & pj & Hj & Hqj & Hqj0 & Hpj & Haj & Hlej).
    destruct (decide (i = j)) as [<-|Hne].
    + assert (pj = p) as -> by congruence.
      exists i, qj, (with_stock (sql_sub (p_stock_quantity p) (li_quantity item)) p).
      rewrite lookup_alter_eq, Hp. simpl. repeat split; auto.
      rewrite Hq. destruct (p_stock_quantity p) as [s|]; simpl in *; lia.
    + exists j, qj, pj. rewrite lookup_alter_ne by assumption.
      repeat split; auto.
      unfold ordered_quantity in Hlej.
      rewrite filter_cons_False in Hlej by congruence. exact Hlej.
Qed.

(** The inserts of the items complete when every item has its quantity
    and names a stored product, and the order is stored. *)
Lemma insert_order_items_run id items : forall c,
  is_Some (orders (working c) !! id) ->
  Forall (fun item => is_Some (pi_quantity item) /\
                      exists i, pi_product_id item = Some i /\
                                is_Some (products (working c) !! i)) items ->
  exists c', insert_order_items fault id items c = (c', inr tt) /\
             durable c' = durable c.
Proof.
  induction items as [|item rest IH]; intros c Ho Hall; simpl.
  - unfold ret. eauto.
  - inversion Hall as [|? ? ([q Hq] & i & Hi & Hp) Hrest]; subst.
    erewrite bind_run; [|eapply insert_order_item_run; eauto].
    edestruct IH as (c' & -> & Hd); [| |exists c'; split; [reflexivity|exact Hd]];
      simpl; assumption.
Qed.

(** Sufficient conditions for an order.  When the engine rejects nothing,
    a request that passes validation, from a user of the store, all of
    whose lines can be served -- an active product, a quantity that is not
    negative, and for each product enough stock for all the units the
    request asks of it -- is answered 201, provided the next id of the
    sequence is free. *)
Theorem create_order_succeeds now req db u items :
  required_fields req = Some (u, items) ->
  u ∈ users (tables db) ->
  orders (tables db) !! (orders_id_seq db + 1)%Z = None ->
  Forall (line_servable (products (tables db)) items) items ->
  status_code (response (create_order fault now req db)) = 201%Z.
Proof.
  intros Hreq Hu Hfresh Hall.
  unfold create_order, try_catch_release, create_order_body.
  rewrite (bind_run _ _ _ _ _ (BEGIN_run _ _ (no_faults _))).
  rewrite Hreq. cbv beta iota.
  match goal with |- context [bind (process_items fault items ?t ?a) _ ?c] =>
    destruct (process_items_run items t a c Hall) as (c2 & acc & Hp) end.
  rewrite (bind_run _ _ _ _ _ Hp).
  pose proof (process_items_products _ _ _ _ _ _ _ Hp) as Hps.
  pose proof (process_items_durable _ _ _ _ _ _ _ Hp) as Hd2.
  apply process_items_ok in Hp as (_ & Hacc & _ & _ & Ho2 & _ & Hu2 & Hs2 & _).
  simpl in *.
  erewrite bind_run; cycle 1.
  { apply insert_order_run; [apply no_faults| |].
    - rewrite Hu2. exact Hu.
    - rewrite Ho2, Hs2. exact Hfresh. }
  simpl.
  match goal with |- context [bind (insert_order_items fault ?id ?l) _ ?c] =>
    destruct (insert_order_items_run id l c) as (c4 & Hit & Hd4) end.
  { simpl. rewrite lookup_insert_eq. eauto. }
  { rewrite Hacc. simpl. apply Forall_map. apply Forall_forall. intros x Hx.
    rewrite Forall_forall in Hall.
    destruct (Hall x Hx) as (i & q & p & Hi & Hq & _ & Hp & _). simpl.
    rewrite Hq, Hi. split; [eauto|]. exists i. split; [reflexivity|].
    rewrite Hps, lookup_take_all.
    - rewrite Hp. simpl. eauto.
    - apply Forall_forall. intros y Hy.
      destruct (Hall y Hy) as (_ & qy & _ & _ & Hqy & _). eauto. }
  rewrite (bind_run _ _ _ _ _ Hit).
  rewrite (bind_run _ _ _ _ _ (COMMIT_run _ _ (no_faults _))).
  reflexivity.
Qed.

End OrderSuccess.

(** ** Whole numbers in binary64 arithmetic *)

Lemma shr_1_settled k : 0 <= k -> shr_1 (settled (2 * k)) = settled k.
Proof. destruct k as [|p|p]; intros; try reflexivity; lia. Qed.

Lemma iter_shr_settled p : forall k,
  0 <= k -> SpecFloat.iter_pos shr_1 p (settled (k * 2 ^ Z.pos p)) = settled k.
Proof.
  induction p as [p IH|p IH|]; intros k Hk; cbn [SpecFloat.iter_pos].
  - replace (k * 2 ^ Z.pos p~1) with (2 * ((k * 2 ^ Z.pos p) * 2 ^ Z.pos p)).
    + assert (0 <= 2 ^ Z.pos p) by (apply Z.pow_nonneg; lia).
      rewrite shr_1_settled, IH, IH by nia. reflexivity.
    + rewrite (Pos2Z.inj_xI p).
      replace (2 * Z.pos p + 1) with (Z.pos p + Z.pos p + 1) by lia.
      rewrite !Z.pow_add_r, Z.pow_1_r by lia. ring.
  - replace (k * 2 ^ Z.pos p~0) with ((k * 2 ^ Z.pos p) * 2 ^ Z.pos p).
    + assert (0 <= 2 ^ Z.pos p) by (apply Z.pow_nonneg; lia).
      rewrite IH, IH by nia. reflexivity.
    + rewrite (Pos2Z.inj_xO p).
      replace (2 * Z.pos p) with (Z.pos p + Z.pos p) by lia.
      rewrite Z.pow_add_r by lia. ring.
  - rewrite Z.pow_1_r, Z.mul_comm. apply shr_1_settled, Hk.
Qed.

Lemma Zdigits2_mul_pow2 a n : 0 < a -> 0 <= n -> Zdigits2 (a * 2 ^ n) = Zdigits2 a + n.
Proof. intros. rewrite <- Z.shiftl_mul_pow2 by lia. apply Zdigits2_shiftl; lia. Qed.

Lemma round_settled k n e :
  0 < k -> Zdigits2 k = 53 -> 0 <= n -> -1074 <= e + n <= 971 ->
  binary_round_aux 53 1024 false (k * 2 ^ n) e loc_Exact = S754_finite false (Z.to_pos k) (e + n).
Proof.
  intros Hk Hd Hn He.
  assert (Hs : shr_fexp 53 1024 (k * 2 ^ n) e loc_Exact = (settled k, e + n)).
  { unfold shr_fexp. rewrite Zdigits2_mul_pow2, Hd by lia.
    unfold fexp, emin. replace (Z.max (53 + n + e - 53) (3 - 1024 - 53) - e) with n by lia.
    change (shr_record_of_loc (k * 2 ^ n) loc_Exact) with (settled (k * 2 ^ n)).
    destruct n as [|p|p]; [| |lia].
    - simpl shr. rewrite Z.pow_0_r, Z.mul_1_r, Z.add_0_r. reflexivity.
    - simpl shr. rewrite iter_shr_settled by lia. reflexivity. }
  assert (Hs' : shr_fexp 53 1024 k (e + n) loc_Exact = (settled k, e + n)).
  { unfold shr_fexp. rewrite Hd. unfold fexp, emin.
    replace (Z.max (53 + (e + n) - 53) (3 - 1024 - 53) - (e + n)) with 0 by lia.
    reflexivity. }
  unfold binary_round_aux. rewrite Hs. cbn [settled shr_m loc_of_shr_record round_nearest_even].
  rewrite Hs'. cbn [settled shr_m].
  destruct k as [|q|q]; try lia.
  replace (e + n <=? 1024 - 53)%Z with true by (symmetry; apply Z.leb_le; lia).
  reflexivity.
Qed.

Lemma shl_align_fst m e e' :
  e' <= e -> Z.pos (fst (shl_align m e e')) = Z.pos m * 2 ^ (e - e').
Proof.
  intros H. unfold shl_align. destruct (e' - e) as [|p|p] eqn:E; try lia.
  - simpl. replace (e - e') with 0 by lia. lia.
  - simpl fst. change (Pos.iter xO m p) with (shift_pos p m).
    rewrite shift_pos_correct, Z.pow_pos_fold. replace (e - e') with (Z.pos p) by lia. ring.
Qed.

Lemma Z2SF_settled m :
  0 < m -> Zdigits2 m <= 53 ->
  Z2SF m = S754_finite false (Z.to_pos (m * 2 ^ (53 - Zdigits2 m))) (Zdigits2 m - 53).
Proof.
  intros Hm Hd. destruct m as [|p|p]; try lia.
  pose proof (Zdigits2_nonneg (Z.pos p)) as Hd0.
  unfold Z2SF, binary_normalize, binary_round.
  change (Z.pos (digits2_pos p)) with (Zdigits2 (Z.pos p)).
  set (d := Zdigits2 (Z.pos p)) in *.
  assert (Hf : fexp 53 1024 (d + 0) = d - 53) by (unfold fexp, emin; lia).
  rewrite Hf.
  pose proof (shl_align_fst p 0 (d - 53) ltac:(lia)) as Hfst.
  destruct (shl_align p 0 (d - 53)) as [mz ez] eqn:E.
  assert (Hez : ez = d - 53).
  { unfold shl_align in E. destruct (d - 53 - 0) as [|q|q] eqn:E'; inversion E; lia. }
  simpl fst in Hfst. subst ez.
  pose proof (round_settled (Z.pos mz) 0 (d - 53)) as R.
  rewrite Z.pow_0_r, Z.mul_1_r, Z.add_0_r in R. rewrite R.
  - rewrite Hfst. replace (0 - (d - 53)) with (53 - d) by lia. reflexivity.
  - lia.
  - rewrite Hfst. rewrite Zdigits2_mul_pow2 by lia. fold d. lia.
  - lia.
  - lia.
Qed.

(** Below 2^53 adding one to a whole number is exact. *)
Lemma Z2SF_succ m :
  0 < m -> m + 1 < 2 ^ 53 -> js_add (Z2SF m) (Z2SF 1) = Z2SF (m + 1).
Proof.
  intros Hm Hlt.
  assert (Hd' : Zdigits2 (m + 1) <= 53).
  { rewrite Zdigits2_log2 by lia.
    enough (Z.log2 (m + 1) < 53) by lia. apply Z.log2_lt_pow2; lia. }
  assert (Hd : Zdigits2 m <= 53).
  { pose proof (Zdigits2_mono m (m + 1)). lia. }
  assert (Hd1 : 1 <= Zdigits2 m) by (rewrite Zdigits2_log2 by lia; pose proof (Z.log2_nonneg m); lia).
  assert (Hd1' : 2 <= Zdigits2 (m + 1)).
  { rewrite Zdigits2_log2 by lia.
    enough (1 <= Z.log2 (m + 1)) by lia. apply Z.log2_le_pow2; lia. }
  rewrite (Z2SF_settled m), (Z2SF_settled (m + 1)) by lia.
  change (Z2SF 1) with (S754_finite false 4503599627370496 (-52)).
  set (d := Zdigits2 m) in *. set (d' := Zdigits2 (m + 1)) in *.
  assert (Hp : 0 < 2 ^ (53 - d)) by (apply Z.pow_pos_nonneg; lia).
  assert (Hp' : 0 < 2 ^ (53 - d')) by (apply Z.pow_pos_nonneg; lia).
  unfold js_add, SFadd.
  replace (IntDef.Z.min (d - 53) (-52)) with (-52) by (change IntDef.Z.min with Z.min; lia).
  unfold cond_Zopp. rewrite !shl_align_fst by lia.
  rewrite Z2Pos.id by nia.
  replace (d - 53 - -52) with (d - 1) by lia.
  rewrite <- Z.mul_assoc, <- Z.pow_add_r by lia.
  replace (53 - d + (d - 1)) with 52 by lia.
  change (-52 - -52) with 0. rewrite Z.pow_0_r, Z.mul_1_r.
  change (Z.pos 4503599627370496) with (2 ^ 52).
  replace (m * 2 ^ 52 + 2 ^ 52) with (((m + 1) * 2 ^ (53 - d')) * 2 ^ (d' - 1)).
  2:{ rewrite <- Z.mul_assoc, <- Z.pow_add_r by lia.
      replace (53 - d' + (d' - 1)) with 52 by lia. ring. }
  set (k := (m + 1) * 2 ^ (53 - d')).
  assert (Hk : 0 < k) by (unfold k; nia).
  assert (Hkd : Zdigits2 k = 53).
  { unfold k. rewrite Zdigits2_mul_pow2 by lia. fold d'. lia. }
  assert (Hp2 : 0 < 2 ^ (d' - 1)) by (apply Z.pow_pos_nonneg; lia).
  destruct (k * 2 ^ (d' - 1)) as [|s|s] eqn:Es; try nia.
  unfold binary_normalize, binary_round.
  change (Z.pos (digits2_pos s)) with (Zdigits2 (Z.pos s)).
  rewrite <- Es, Zdigits2_mul_pow2, Hkd by lia.
  assert (Hf : fexp 53 1024 (53 + (d' - 1) + -52) = d' - 53) by (unfold fexp, emin; lia).
  rewrite Hf.
  assert (Ha : shl_align s (-52) (d' - 53) = (s, -52)).
  { unfold shl_align. destruct (d' - 53 - -52) eqn:E; try reflexivity; lia. }
  rewrite Ha, <- Es, round_settled by lia.
  f_equal. lia.
Qed.

(** ** Regular expressions *)

Section RegexFacts.

Import Regex.

Lemma append_nil t : "" ++ t = t.
Proof. reflexivity. Qed.

Lemma append_cons c s t : String c s ++ t = String c (s ++ t).
Proof. reflexivity. Qed.

Lemma append_empty s1 s2 : s1 ++ s2 = "" -> s1 = "" /\ s2 = "".
Proof. destruct s1; [auto|rewrite append_cons; discriminate]. Qed.

Lemma chars_append s1 s2 :
  list_ascii_of_string (s1 ++ s2) =
  (list_ascii_of_string s1 ++ list_ascii_of_string s2)%list.
Proof.
  induction s1 as [|c s IH]; [reflexivity|].
  rewrite append_cons. simpl. f_equal. exact IH.
Qed.

Lemma nullable_matches r : nullable r = true <-> matches r "".
Proof.
  split.
  - induction r; simpl; intros H; try discriminate.
    + constructor.
    + apply andb_true_iff in H as [H1 H2].
      change "" with ("" ++ ""). constructor; auto.
    + apply orb_true_iff in H as [H|H]; [apply m_alt_l|apply m_alt_r]; auto.
    + constructor.
  - remember "" as s eqn:Es. induction 1; simpl; try reflexivity; try discriminate.
    + apply append_empty in Es as [-> ->]. rewrite IHmatches1, IHmatches2; reflexivity.
    + rewrite IHmatches by assumption. reflexivity.
    + rewrite IHmatches by assumption. apply orb_true_r.
Qed.

Lemma derive_sound c r : forall s, matches (derive c r) s -> matches r (String c s).
Proof.
  induction r as [| |p|r1 IH1 r2 IH2|r1 IH1 r2 IH2|r IH]; simpl; intros s H.
  - inversion H.
  - inversion H.
  - destruct (p c) eqn:Ep; inversion H; subst. constructor. exact Ep.
  - destruct (nullable r1) eqn:En.
    + inversion H as [| | | ? ? ? Hl | ? ? ? Hr | |]; subst.
      * inversion Hl; subst. change (String c (s1 ++ s2)) with (String c s1 ++ s2).
        constructor; auto.
      * change (String c s) with ("" ++ String c s). constructor; auto.
        apply nullable_matches. exact En.
    + inversion H; subst. change (String c (s1 ++ s2)) with (String c s1 ++ s2).
      constructor; auto.
  - inversion H; subst; [apply m_alt_l|apply m_alt_r]; auto.
  - inversion H; subst. change (String c (s1 ++ s2)) with (String c s1 ++ s2).
    constructor; auto.
Qed.

Lemma derive_complete c r t :
  matches r t -> forall s, t = String c s -> matches (derive c r) s.
Proof.
  induction 1 as [|p a Hp|r1 r2 s1 s2 H1 IH1 H2 IH2|r1 r2 s0 H0 IH0|r1 r2 s0 H0 IH0
                  |r|r s1 s2 H1 IH1 H2 IH2]; intros s Es; simpl.
  - discriminate.
  - injection Es as -> <-. rewrite Hp. constructor.
  - destruct s1 as [|a s1']; [rewrite append_nil in Es|rewrite append_cons in Es].
    + subst s2. apply nullable_matches in H1. rewrite H1. apply m_alt_r. auto.
    + injection Es as -> <-.
      destruct (nullable r1); [apply m_alt_l|]; constructor; auto.
  - apply m_alt_l. auto.
  - apply m_alt_r. auto.
  - discriminate.
  - destruct s1 as [|a s1']; [rewrite append_nil in Es|rewrite append_cons in Es].
    + auto.
    + injection Es as -> <-. constructor; auto.
Qed.

(** The derivative matcher decides membership. *)
Lemma test_matches s : forall r, test r s = true <-> matches r s.
Proof.
  induction s as [|c s IH]; intros r; simpl.
  - apply nullable_matches.
  - rewrite IH. split.
    + apply derive_sound.
    + intros H. eapply derive_complete; eauto.
Qed.

Lemma matches_star_class p s :
  matches (Star (Class p)) s <->
  Forall (fun c => p c = true) (list_ascii_of_string s).
Proof.
  split.
  - remember (Star (Class p)) as r eqn:Er.
    induction 1; try discriminate; injection Er as ->.
    + constructor.
    + rewrite chars_append. apply Forall_app. split; [|auto].
      inversion H; subst. simpl. repeat constructor. assumption.
  - induction s as [|c s IH]; simpl; intros H.
    + constructor.
    + inversion H; subst. change (String c s) with (String c "" ++ s).
      constructor; [constructor; assumption|auto].
Qed.

Lemma matches_plus_class p s :
  matches (Plus (Class p)) s <->
  s <> "" /\ Forall (fun c => p c = true) (list_ascii_of_string s).
Proof.
  unfold Plus. split.
  - intros H. inversion H as [| |? ? s1 s2 H1 H2| | | |]; subst.
    inversion H1; subst. rewrite append_cons, append_nil. simpl.
    split; [discriminate|].
    constructor; [assumption|]. apply matches_star_class. exact H2.
  - intros [Hne H]. destruct s as [|c s]; [contradiction|]. simpl in H.
    inversion H; subst. change (String c s) with (String c "" ++ s).
    constructor; [constructor; assumption|]. apply matches_star_class. assumption.
Qed.

Lemma matches_char a s :
  matches (Class (Ascii.eqb a)) s <-> s = String a "".
Proof.
  split.
  - intros H. inversion H; subst. f_equal. symmetry. apply Ascii.eqb_eq. assumption.
  - intros ->. constructor. apply Ascii.eqb_refl.
Qed.

(** The addresses the format check lets through. *)
Lemma emailRegex_shape s :
  test Accounts.emailRegex s = true <-> email_shape s.
Proof.
  rewrite test_matches. unfold Accounts.emailRegex, email_shape, plain. split.
  - intros H.
    inversion H as [| |? ? l s1 Hl H1| | | |]; subst.
    inversion H1 as [| |? ? a s2 Ha H2| | | |]; subst.
    inversion H2 as [| |? ? d s3 Hd H3| | | |]; subst.
    inversion H3 as [| |? ? b t Hb Ht| | | |]; subst.
    apply matches_char in Ha, Hb. subst a b.
    apply matches_plus_class in Hl, Hd, Ht.
    exists l, d, t. auto.
  - intros (l & d & t & -> & Hl & Hd & Ht).
    apply matches_plus_class in Hl, Hd, Ht.
    repeat constructor; try assumption; apply matches_char; reflexivity.
Qed.

End RegexFacts.

(** ** Accounts and sessions *)

Lemma truthy_Some v x : Accounts.truthy v = Some x -> v = Some x /\ x <> "".
Proof.
  unfold Accounts.truthy. destruct v as [s|]; [|discriminate].
  destruct (String.eqb s "") eqn:E; [discriminate|].
  intros [= ->]. apply String.eqb_neq in E. auto.
Qed.

Lemma truthy_intro x : x <> "" -> Accounts.truthy (Some x) = Some x.
Proof. intros H. unfold Accounts.truthy. apply String.eqb_neq in H. rewrite H. reflexivity. Qed.

Lemma filter_nil_Forall {A} (P : A -> Prop) `{forall x, Decision (P x)} (l : list A) :
  filter P l = [] <-> Forall (fun x => ~ P x) l.
Proof.
  induction l as [|x l IH]; [split; constructor|].
  destruct (decide (P x)) as [Hx|Hx].
  - rewrite filter_cons_True by assumption. split; [discriminate|].
    intros Hall. inversion Hall; contradiction.
  - rewrite filter_cons_False by assumption. rewrite IH. split.
    + intros Hall. constructor; assumption.
    + intros Hall. inversion Hall; assumption.
Qed.

Section Registration.

Import Accounts.

Variable fault : nat -> option string.
Variable bcrypt_hash : string -> string -> string.

(** The outcomes of a registration, under any fault plan. *)
Lemma register_cases now salt req s :
  let r := register fault bcrypt_hash now salt req s in
  (status_code r.2 = 201%Z ->
   exists username email password,
     rb_username req = Some username /\ rb_email req = Some email /\
     rb_password req = Some password /\
     username <> "" /\ email_shape email /\ (6 <= String.length password)%nat /\
     Forall (fun u => u_username u <> username /\ u_email u <> email) (users s) /\
     users r.1 =
       (users s ++
        [ {| u_id := users_id_seq s + 1; u_username := username; u_email := email;
             u_password_hash := bcrypt_hash password salt;
             u_first_name := rb_first_name req; u_last_name := rb_last_name req;
             u_created_at := now; u_updated_at := now; u_is_active := true |} ])%list /\
     user_sessions r.1 = user_sessions s) /\
  (status_code r.2 <> 201%Z ->
   users r.1 = users s /\ user_sessions r.1 = user_sessions s).
Proof.
  cbv zeta. unfold register, try_catch, register_body.
  destruct (truthy (rb_username req)) as [username|] eqn:Eu;
    [|simpl; split; [discriminate|auto]].
  destruct (truthy (rb_email req)) as [email|] eqn:Ee;
    [|simpl; split; [discriminate|auto]].
  destruct (truthy (rb_password req)) as [password|] eqn:Ep;
    [|simpl; split; [discriminate|auto]].
  destruct (Regex.test emailRegex email) eqn:Er;
    [|simpl; split; [discriminate|auto]].
  destruct (String.length password <? 6)%nat eqn:El;
    [simpl; split; [discriminate|auto]|].
  unfold and_then, select_taken, insert_user, pool_query, resolve. simpl.
  destruct (fault 0%nat); [simpl; split; [discriminate|auto]|].
  destruct (filter _ (users s)) as [|x l] eqn:Ef;
    [|simpl; split; [discriminate|auto]].
  simpl. destruct (fault 1%nat); [simpl; split; [discriminate|auto]|].
  repeat (match goal with |- context [bool_decide ?P] => destruct (bool_decide P) end;
          [simpl; split; [discriminate|auto]|]).
  simpl. split; [intros _|intros H; contradiction].
  apply truthy_Some in Eu as [Hu Hune], Ee as [He _], Ep as [Hp _].
  exists username, email, password. repeat split; auto.
  - apply emailRegex_shape. exact Er.
  - apply Nat.ltb_ge in El. exact El.
  - apply filter_nil_Forall in Ef. eapply Forall_impl; [exact Ef|].
    intros u Hn. simpl in Hn. tauto.
Qed.

(** Registration stores validated accounts only.  When a registration is
    answered 201, the request carried a username that is not empty, an
    email of the form local@domain.rest (plain parts: no white space, no
    further at sign) and a password of at least six characters; no stored
    user had that username or that email; and the users table has gained
    exactly one row, active, with the next id of the sequence, these
    values, and the hash of the password.  Any other answer leaves users
    and sessions as they were. *)
Theorem register_outcome now salt req s :
  let r := register fault bcrypt_hash now salt req s in
  (status_code r.2 = 201%Z ->
   exists username email password,
     rb_username req = Some username /\ rb_email req = Some email /\
     rb_password req = Some password /\
     username <> "" /\ email_shape email /\ (6 <= String.length password)%nat /\
     Forall (fun u => u_username u <> username /\ u_email u <> email) (users s) /\
     users r.1 =
       (users s ++
        [ {| u_id := users_id_seq s + 1; u_username := username; u_email := email;
             u_password_hash := bcrypt_hash password salt;
             u_first_name := rb_first_name req; u_last_name := rb_last_name req;
             u_created_at := now; u_updated_at := now; u_is_active := true |} ])%list /\
     user_sessions r.1 = user_sessions s) /\
  (status_code r.2 <> 201%Z ->
   users r.1 = users s /\ user_sessions r.1 = user_sessions s).
Proof. exact (register_cases now salt req s). Qed.



End Registration.

Section LoginFacts.

Import Accounts.

Variable fault : nat -> option string.
Variable bcrypt_compare : string -> string -> bool.
Variable jwt_sign : Login.Claims -> Z -> string.
Variable add_24_hours : Z -> Z.

(** Everything a login that was answered 200 has done. *)
Lemma login_ok now req s :
  let r := login fault bcrypt_compare jwt_sign add_24_hours now req s in
  status_code r.2 = 200%Z ->
  exists ident password user rest,
    lb_username_or_email req = Some ident /\ ident <> "" /\
    lb_password req = Some password /\ password <> "" /\
    fault 0%nat = None /\ fault 1%nat = None /\
    active_matches ident (users s) = user :: rest /\
    bcrypt_compare password (u_password_hash user) = true /\
    Forall (fun x => Login.s_session_token x <> jwt_sign (claims_of user) (now / 1000))
           (user_sessions s) /\
    r = (set_sessions
           (fun l => (l ++ [session_row (u_id user)
                              (jwt_sign (claims_of user) (now / 1000))
                              (add_24_hours now)])%list) s,
         {| status_code := 200;
            body := LoggedIn (jwt_sign (claims_of user) (now / 1000)) (public user)
                             (u_is_active user) |}).
Proof.
  cbv zeta. unfold login, try_catch, login_body.
  destruct (truthy (lb_username_or_email req)) as [ident|] eqn:Ei; [|discriminate].
  destruct (truthy (lb_password req)) as [password|] eqn:Ep; [|discriminate].
  apply truthy_Some in Ei as [Hi Hine], Ep as [Hp Hpne].
  unfold and_then, select_active_by_name, insert_session, pool_query, resolve. simpl.
  destruct (fault 0%nat) eqn:Ef0; [discriminate|].
  fold (active_matches ident (users s)).
  destruct (active_matches ident (users s)) as [|user rest] eqn:Em; [discriminate|].
  destruct (bcrypt_compare password (u_password_hash user)) eqn:Ec; [|discriminate].
  simpl. destruct (fault 1%nat) eqn:Ef1; [discriminate|].
  fold (claims_of user).
  destruct (bool_decide (Exists _ (user_sessions s))) eqn:Eu; [discriminate|].
  destruct (bool_decide (Exists _ (users s))) eqn:Ek; [|discriminate].
  simpl. intros _. exists ident, password, user, rest.
  repeat split; auto.
  apply bool_decide_eq_false in Eu. apply Forall_forall. intros x Hx Heq.
  apply Eu. apply Exists_exists. eauto.
Qed.

(** A login that finds its user and whose password compares, when the
    engine rejects nothing and the token is not in use. *)
Lemma login_run now ident password s user rest :
  ident <> "" -> password <> "" ->
  fault 0%nat = None -> fault 1%nat = None ->
  active_matches ident (users s) = user :: rest ->
  bcrypt_compare password (u_password_hash user) = true ->
  Forall (fun x => Login.s_session_token x <> jwt_sign (claims_of user) (now / 1000))
         (user_sessions s) ->
  login fault bcrypt_compare jwt_sign add_24_hours now
    {| lb_username_or_email := Some ident; lb_password := Some password |} s =
    (set_sessions
       (fun l => (l ++ [session_row (u_id user)
                          (jwt_sign (claims_of user) (now / 1000))
                          (add_24_hours now)])%list) s,
     {| status_code := 200;
        body := LoggedIn (jwt_sign (claims_of user) (now / 1000)) (public user)
                         (u_is_active user) |}).
Proof.
  intros Hi Hp Hf0 Hf1 Hm Hc Hfresh.
  unfold login, try_catch, login_body. cbn [lb_username_or_email lb_password].
  rewrite (truthy_intro _ Hi), (truthy_intro _ Hp).
  unfold and_then, select_active_by_name, insert_session, pool_query, resolve. simpl.
  rewrite Hf0. fold (active_matches ident (users s)). rewrite Hm, Hc. simpl.
  rewrite Hf1. fold (claims_of user).
  rewrite bool_decide_eq_false_2.
  2:{ intros Hex. apply Exists_exists in Hex as (x & Hx & Heq).
      rewrite Forall_forall in Hfresh. exact (Hfresh x Hx Heq). }
  rewrite bool_decide_eq_true_2.
  2:{ apply Exists_exists. exists user. split; [|reflexivity].
      assert (Hin : user ∈ active_matches ident (users s))
        by (rewrite Hm; left).
      unfold active_matches in Hin. apply list_elem_of_filter in Hin. tauto. }
  reflexivity.
Qed.

End LoginFacts.

Section AccountRoundTrips.

Import Accounts.

Variable fault fault' : nat -> option string.
Variable bcrypt_hash : string -> string -> string.
Variable bcrypt_compare : string -> string -> bool.
Variable jwt_sign : Login.Claims -> Z -> string.
Variable jwt_verify : string -> option Login.Claims.
Variable add_24_hours : Z -> Z.

(** A registered account can log in.  After a registration answered 201,
    a login with the registered username and password is answered 200 with
    a token signed for the new user, and its session row is stored with the
    expiry the handler computed -- provided the password compares with its
    own hash, no other account uses that username as its email, the engine
    rejects neither statement of the login, and the token is not in use. *)
Theorem register_then_login now salt req s now' username email password :
  let r := register fault bcrypt_hash now salt req s in
  let user := {| u_id := users_id_seq s + 1; u_username := username;
                 u_email := email;
                 u_password_hash := bcrypt_hash password salt;
                 u_first_name := rb_first_name req; u_last_name := rb_last_name req;
                 u_created_at := now; u_updated_at := now; u_is_active := true |} in
  let token := jwt_sign (claims_of user) (now' / 1000) in
  status_code r.2 = 201%Z ->
  rb_username req = Some username -> rb_email req = Some email ->
  rb_password req = Some password ->
  bcrypt_compare password (bcrypt_hash password salt) = true ->
  Forall (fun u => u_email u <> username) (users s) ->
  fault' 0%nat = None -> fault' 1%nat = None ->
  Forall (fun x => Login.s_session_token x <> token) (user_sessions s) ->
  login fault' bcrypt_compare jwt_sign add_24_hours now'
    {| lb_username_or_email := Some username; lb_password := Some password |} r.1 =
    (set_sessions
       (fun l => (l ++ [session_row (u_id user) token (add_24_hours now')])%list) r.1,
     {| status_code := 200; body := LoggedIn token (public user) true |}).
Proof.
  cbv zeta. intros Hst Hu He Hp Hc Hmail Hf0 Hf1 Hfresh.
  destruct (register_cases fault bcrypt_hash now salt req s) as [H201 _].
  destruct (H201 Hst)
    as (username' & email' & password' & Hu' & He' & Hp' & Hune & _ & Hlen & Hnew
        & Husers & Hsessions).
  assert (username' = username) as -> by congruence.
  assert (email' = email) as -> by congruence.
  assert (password' = password) as -> by congruence.
  assert (Hpne : password <> "") by (intros ->; simpl in Hlen; lia).
  set (r := register fault bcrypt_hash now salt req s) in *.
  set (user := {| u_id := users_id_seq s + 1; u_username := username;
                  u_email := email;
                  u_password_hash := bcrypt_hash password salt;
                  u_first_name := rb_first_name req; u_last_name := rb_last_name req;
                  u_created_at := now; u_updated_at := now; u_is_active := true |}) in *.
  assert (Hm : active_matches username (users r.1) = [user]).
  { rewrite Husers. unfold active_matches. rewrite filter_app.
    rewrite (proj2 (filter_nil_Forall _ (users s))).
    - rewrite filter_cons_True by (simpl; auto). reflexivity.
    - rewrite Forall_forall in Hnew, Hmail. apply Forall_forall.
      intros u Hin [[H|H] _];
        [destruct (Hnew u Hin) as [Hn _]; exact (Hn H)|exact (Hmail u Hin H)]. }
  rewrite <- Hsessions in Hfresh.
  rewrite (login_run fault' bcrypt_compare jwt_sign add_24_hours now' username password
             r.1 user [] Hune Hpne Hf0 Hf1 Hm Hc Hfresh).
  reflexivity.
Qed.



(** Two logins in one second.  After a login answered 200, a second login
    with the same request during the same clock second is answered 500
    under every fault plan, and stores nothing: the token it signs is the
    token of the first login, and the session table takes a token once. *)
Theorem login_twice_in_one_second now1 now2 req s :
  let r1 := login fault bcrypt_compare jwt_sign add_24_hours now1 req s in
  let r2 := login fault' bcrypt_compare jwt_sign add_24_hours now2 req r1.1 in
  status_code r1.2 = 200%Z ->
  (now2 / 1000 = now1 / 1000)%Z ->
  r2.2 = json_error 500 "Internal server error" /\ r2.1 = r1.1.
Proof.
  cbv zeta. intros Hst Hsec.
  destruct (login_ok fault bcrypt_compare jwt_sign add_24_hours now1 req s Hst)
    as (ident & password & u & rest & Hi & Hine & Hp & Hpne & _ & _ & Hm & Hc & _ & Hr).
  rewrite Hr. simpl.
  unfold login, try_catch, login_body. rewrite Hi, Hp.
  rewrite (truthy_intro _ Hine), (truthy_intro _ Hpne).
  unfold and_then, select_active_by_name, insert_session, pool_query, resolve. simpl.
  destruct (fault' 0%nat); [split; reflexivity|].
  fold (active_matches ident (users s)). rewrite Hm, Hc. simpl.
  destruct (fault' 1%nat); [split; reflexivity|].
  fold (claims_of u). rewrite Hsec.
  rewrite bool_decide_eq_true_2; [split; reflexivity|].
  apply Exists_app. right. constructor. reflexivity.
Qed.

End AccountRoundTrips.

Section AccountMaintenance.

Import Accounts.

Variable fault fault' : nat -> option string.
Variable bcrypt_hash : string -> string -> string.
Variable bcrypt_compare : string -> string -> bool.
Variable jwt_sign : Login.Claims -> Z -> string.
Variable jwt_verify : string -> option Login.Claims.
Variable add_24_hours : Z -> Z.



Lemma deactivated_rows now userId l :
  Forall (fun u => u_id u = userId -> u_is_active u = false)
    (map (fun u => if bool_decide (u_id u = userId) then deactivated now u else u) l).
Proof.
  apply Forall_forall. intros u Hin Hid.
  apply list_elem_of_fmap in Hin as (u0 & -> & _).
  destruct (bool_decide (u_id u0 = userId)) eqn:E; [reflexivity|].
  apply bool_decide_eq_false in E. destruct (E Hid).
Qed.

Lemma active_matches_deactivated now userId ident l :
  (forall u, u ∈ l -> u_username u = ident \/ u_email u = ident -> u_id u = userId) ->
  active_matches ident
    (map (fun u => if bool_decide (u_id u = userId) then deactivated now u else u) l)
    = [].
Proof.
  intros Hown. unfold active_matches. apply filter_nil_Forall.
  apply Forall_forall. intros u Hin [Hm Ha].
  apply list_elem_of_fmap in Hin as (u0 & -> & Hin0).
  destruct (bool_decide (u_id u0 = userId)) eqn:E.
  - discriminate.
  - apply bool_decide_eq_false in E. apply E. apply Hown; assumption.
Qed.

(** A deactivated account can no longer be used.  When a deactivation is
    answered 200, every row with that id is inactive and every session row
    of that user is gone, the sessions of others being as they were; and a
    later login under a name that belongs to no other account is answered
    401 "Invalid credentials", like a login for an account that does not
    exist, whatever the password. *)
Theorem deactivate_blocks_login rejected now authHeader param s res :
  let r := deactivate fault jwt_verify rejected now authHeader param s in
  r.2 = Route res -> status_code res = 200%Z ->
  exists userId,
    parseInt param = Some userId /\
    Forall (fun u => u_id u = userId -> u_is_active u = false) (users r.1) /\
    user_sessions r.1 =
      filter (fun x => Login.s_user_id x <> userId) (user_sessions s) /\
    (forall now' ident password,
       ident <> "" -> password <> "" -> fault' 0%nat = None ->
       (forall u, u ∈ users s -> u_username u = ident \/ u_email u = ident ->
                  u_id u = userId) ->
       login fault' bcrypt_compare jwt_sign add_24_hours now'
         {| lb_username_or_email := Some ident; lb_password := Some password |} r.1 =
         (r.1, json_error 401 "Invalid credentials")).
Proof.
  cbv zeta. unfold deactivate, behind_auth.
  destruct (Login.authenticateToken jwt_verify rejected now authHeader (user_sessions s))
    as [user|resp] eqn:Ea; [|discriminate].
  unfold try_catch, deactivate_body, invalid_integer.
  destruct (parseInt param) as [userId|];
    [destruct (int4 userId)|];
    try (unfold pool_query; simpl; destruct (fault 0%nat); simpl;
         intros [= <-]; discriminate).
  unfold and_then, update_deactivate, delete_sessions_of, pool_query, resolve. simpl.
  destruct (fault 0%nat); [simpl; intros [= <-]; discriminate|].
  destruct (map (deactivated now) _) as [|u l]; [simpl; intros [= <-]; discriminate|].
  simpl. destruct (fault 1%nat); [simpl; intros [= <-]; discriminate|].
  simpl. intros _ _. exists userId. split; [reflexivity|].
  split; [apply deactivated_rows|]. split; [reflexivity|].
  intros now' ident password Hi Hp Hf0 Hown.
  unfold login, try_catch, login_body. cbn [lb_username_or_email lb_password].
  rewrite (truthy_intro _ Hi), (truthy_intro _ Hp).
  unfold and_then, select_active_by_name, pool_query, resolve. simpl.
  rewrite Hf0. fold (active_matches ident
    (map (fun u => if bool_decide (u_id u = userId) then deactivated now u else u)
         (users s))).
  rewrite (active_matches_deactivated now userId ident (users s) Hown).
  reflexivity.
Qed.

(** Deactivation is not atomic.  If the update of the account goes through
    and the deletion of its sessions is rejected, the answer is 500
    "Internal server error", the account is inactive all the same, and its
    session rows are all still there: the middleware, which reads sessions
    only, answers every request as it did before. *)
Theorem deactivate_is_not_atomic now authHeader param userId s user m :
  Login.authenticateToken jwt_verify false now authHeader (user_sessions s) =
    Login.Next user ->
  parseInt param = Some userId -> int4 userId = true ->
  Exists (fun u => u_id u = userId) (users s) ->
  fault 0%nat = None -> fault 1%nat = Some m ->
  let r := deactivate fault jwt_verify false now authHeader param s in
  r.2 = Route (json_error 500 "Internal server error") /\
  Forall (fun u => u_id u = userId -> u_is_active u = false) (users r.1) /\
  user_sessions r.1 = user_sessions s /\
  (forall later header,
     Login.authenticateToken jwt_verify false later header (user_sessions r.1) =
     Login.authenticateToken jwt_verify false later header (user_sessions s)).
Proof.
  intros Ha Hparam Hint Hex Hf0 Hf1. cbv zeta. unfold deactivate, behind_auth. rewrite Ha.
  unfold try_catch, deactivate_body. rewrite Hparam, Hint.
  unfold and_then, update_deactivate, delete_sessions_of, pool_query, resolve. simpl.
  rewrite Hf0.
  destruct (filter (fun u => u_id u = userId) (users s)) as [|u l] eqn:Ef.
  { exfalso. apply filter_nil_Forall in Ef. apply Exists_exists in Hex as (u & Hin & Hu).
    rewrite Forall_forall in Ef. exact (Ef u Hin Hu). }
  simpl. rewrite Hf1. simpl.
  split; [reflexivity|]. split; [apply deactivated_rows|]. split; reflexivity.
Qed.

Lemma filter_length_partition {A} (P Q : A -> Prop)
    `{forall x, Decision (P x)} `{forall x, Decision (Q x)} (l : list A) :
  (forall x, P x <-> ~ Q x) ->
  (length (filter P l) + length (filter Q l))%nat = length l.
Proof.
  intros HPQ. induction l as [|x l IH]; [reflexivity|].
  destruct (decide (P x)) as [Hx|Hx].
  - rewrite (filter_cons_True P) by assumption.
    rewrite (filter_cons_False Q) by (apply HPQ; assumption). simpl. lia.
  - rewrite (filter_cons_False P) by assumption.
    rewrite (filter_cons_True Q).
    + simpl. lia.
    + destruct (decide (Q x)) as [Hq|Hq]; [assumption|].
      destruct Hx. apply HPQ. assumption.
Qed.

Lemma live_sessions_after_cleanup now later token l :
  (now <= later)%Z ->
  Login.live_sessions later token
    (filter (fun r => (now < Login.s_expires_at r)%Z) l) =
  Login.live_sessions later token l.
Proof.
  intros Hle. unfold Login.live_sessions. f_equal.
  induction l as [|x l IH]; [reflexivity|].
  destruct (decide (now < Login.s_expires_at x)%Z) as [Hx|Hx].
  - rewrite (filter_cons_True (fun r => (now < Login.s_expires_at r)%Z)) by assumption.
    destruct (decide (Login.s_session_token x = token /\ (later < Login.s_expires_at x)%Z)).
    + rewrite !filter_cons_True by assumption. f_equal. exact IH.
    + rewrite !filter_cons_False by assumption. exact IH.
  - rewrite (filter_cons_False (fun r => (now < Login.s_expires_at r)%Z)) by assumption.
    rewrite (filter_cons_False _ x l) by (intros [_ H]; lia). exact IH.
Qed.

(** The sweep of expired sessions changes no answer.  Under every fault
    plan the sweep leaves the users as they were and, for every token and
    every time from the sweep on, the same live sessions as before, so the
    middleware and the verify endpoint answer as they would have without
    it.  When it is answered 200, no session row that is left has expired,
    and the count in the message is the number of rows removed. *)
Theorem cleanup_keeps_live_sessions now s :
  let r := cleanup_sessions fault now s in
  users r.1 = users s /\
  (forall later token, (now <= later)%Z ->
     Login.live_sessions later token (user_sessions r.1) =
     Login.live_sessions later token (user_sessions s)) /\
  (status_code r.2 = 200%Z ->
   Forall (fun x => (now < Login.s_expires_at x)%Z) (user_sessions r.1) /\
   body r.2 =
     MessageBody ("Cleaned up "
                  ++ pretty (length (user_sessions s) - length (user_sessions r.1))%nat
                  ++ " expired sessions")).
Proof.
  clear fault' bcrypt_hash bcrypt_compare jwt_sign jwt_verify add_24_hours.
  cbv zeta. unfold cleanup_sessions, try_catch, and_then, delete_expired, pool_query,
    resolve. simpl.
  destruct (fault 0%nat); simpl.
  { split; [reflexivity|]. split; [reflexivity|discriminate]. }
  split; [reflexivity|]. split.
  - intros later token Hle. apply live_sessions_after_cleanup. exact Hle.
  - intros _. split.
    + apply Forall_forall. intros x Hin.
      apply list_elem_of_filter in Hin. tauto.
    + do 3 f_equal.
      pose proof (filter_length_partition
                    (fun r => (Login.s_expires_at r <= now)%Z)
                    (fun r => (now < Login.s_expires_at r)%Z)
                    (user_sessions s)) as H.
      rewrite <- H by (intros x; lia). f_equal. lia.
Qed.

(** The profile update keeps what the request leaves out, and checks an
    email only when it is not empty.  When the update is answered 200, the
    active row of the user has, for each of first name, last name and
    email, the value the request carried if it carried one and the old
    value if not, and no other row has changed; an email that was carried
    and stored either is the empty string or has the form the format check
    asks for and is no other user's email.  An empty email is stored
    without any check: the answer is 200 when the engine rejects nothing
    and no other user's email is empty. *)
Theorem profile_update_coalesces rejected now authHeader req s :
  let r := update_profile fault jwt_verify rejected now authHeader req s in
  (forall res, r.2 = Route res -> status_code res = 200%Z ->
     exists user,
       Login.authenticateToken jwt_verify rejected now authHeader (user_sessions s) =
         Login.Next user /\
       users r.1 =
         map (fun u => if bool_decide (u_id u = Login.user_id user /\
                                       u_is_active u = true)
                       then with_profile now (pb_first_name req) (pb_last_name req)
                                         (pb_email req) u
                       else u) (users s) /\
       user_sessions r.1 = user_sessions s /\
       (forall e, pb_email req = Some e ->
          e = "" \/
          (email_shape e /\
           Forall (fun o => u_email o = e -> u_id o = Login.user_id user) (users s)))) /\
  (forall user,
     Login.authenticateToken jwt_verify rejected now authHeader (user_sessions s) =
       Login.Next user ->
     pb_email req = Some "" ->
     fault 0%nat = None ->
     Exists (fun u => u_id u = Login.user_id user /\ u_is_active u = true) (users s) ->
     Forall (fun o => u_id o <> Login.user_id user -> u_email o <> "") (users s) ->
     (exists res, r.2 = Route res /\ status_code res = 200%Z) /\
     Regex.test emailRegex "" = false /\
     Forall (fun u => u_id u = Login.user_id user -> u_is_active u = true ->
                      u_email u = "") (users r.1)).
Proof.
  clear fault' bcrypt_hash bcrypt_compare jwt_sign add_24_hours.
  cbv zeta. unfold update_profile, behind_auth.
  destruct (Login.authenticateToken jwt_verify rejected now authHeader (user_sessions s))
    as [user|resp] eqn:Ea; [|split; [discriminate|intros; discriminate]].
  unfold try_catch, update_profile_body. split.
  - intros res.
    destruct (truthy (pb_email req)) as [email|] eqn:Ee.
    + apply truthy_Some in Ee as [He Hne].
      destruct (Regex.test emailRegex email) eqn:Er;
        [|simpl; intros [= <-]; discriminate].
      unfold and_then, select_email_of_other, update_profile_rows, pool_query, resolve.
      simpl. destruct (fault 0%nat); [simpl; intros [= <-]; discriminate|].
      destruct (filter _ (users s)) as [|x l] eqn:Ef;
        [|simpl; intros [= <-]; discriminate].
      simpl. destruct (fault 1%nat); [simpl; intros [= <-]; discriminate|].
      match goal with |- context [if ?b then _ else _] => destruct b end;
        [simpl; intros [= <-]; discriminate|].
      simpl.
      destruct (map _ (filter _ (users s))); [simpl; intros [= <-]; discriminate|].
      simpl. intros _ _. exists user. repeat split; auto.
      intros e He'. right. assert (e = email) as -> by congruence.
      split; [apply emailRegex_shape; exact Er|].
      apply filter_nil_Forall in Ef. eapply Forall_impl; [exact Ef|].
      intros o Hn Ho. simpl in Hn.
      destruct (decide (u_id o = Login.user_id user)); [assumption|tauto].
    + unfold and_then, update_profile_rows, pool_query, resolve.
      simpl. destruct (fault 0%nat); [simpl; intros [= <-]; discriminate|].
      match goal with |- context [if ?b then _ else _] => destruct b end;
        [simpl; intros [= <-]; discriminate|].
      simpl.
      destruct (map _ (filter _ (users s))); [simpl; intros [= <-]; discriminate|].
      simpl. intros _ _. exists user. repeat split; auto.
      intros e He'. left. unfold truthy in Ee. rewrite He' in Ee.
      destruct (String.eqb e "") eqn:E; [|discriminate].
      apply String.eqb_eq. exact E.
  - intros user' [= <-] He Hf0 Hex Hother. rewrite He. simpl.
    unfold and_then, update_profile_rows, pool_query, resolve. simpl. rewrite Hf0.
    rewrite bool_decide_eq_true_2.
    2:{ eapply Exists_impl; [exact Hex|]. intros u Hu. apply bool_decide_eq_true_2.
        exact Hu. }
    rewrite bool_decide_eq_false_2.
    2:{ intros Hbad. apply Exists_exists in Hbad as (o & Hin & Hne & Ho).
        rewrite Forall_forall in Hother. exact (Hother o Hin Hne Ho). }
    simpl.
    destruct (filter _ (users s)) as [|x l] eqn:Ef.
    { exfalso. apply filter_nil_Forall in Ef. apply Exists_exists in Hex as (u & Hin & Hu).
      rewrite Forall_forall in Ef. apply (Ef u Hin). apply bool_decide_eq_true_2.
      exact Hu. }
    simpl. split; [eexists; split; reflexivity|]. split; [reflexivity|].
    apply Forall_forall. intros u Hin Hid Hact.
    apply list_elem_of_fmap in Hin as (u0 & -> & Hin0).
    destruct (bool_decide (u_id u0 = Login.user_id user /\ u_is_active u0 = true)) eqn:E.
    + reflexivity.
    + apply bool_decide_eq_false in E. destruct E. auto.
Qed.

End AccountMaintenance.

(** ** [parseInt] *)

Lemma append_empty_r s : s ++ "" = s.
Proof.
  induction s as [|c s IH]; [reflexivity|]. rewrite append_cons. f_equal. exact IH.
Qed.

Lemma digit_of_pretty_char x :
  (x < 10)%N -> digit_of 10 (pretty_N_char x) = Some (Z.of_N x).
Proof.
  intros H.
  assert (x = 0 \/ x = 1 \/ x = 2 \/ x = 3 \/ x = 4 \/ x = 5 \/ x = 6 \/ x = 7
          \/ x = 8 \/ x = 9)%N as Hx by lia.
  repeat (destruct Hx as [->|Hx]; [reflexivity|]). subst x. reflexivity.
Qed.

Lemma pretty_N_go_append x : forall s t,
  pretty_N_go x s ++ t = pretty_N_go x (s ++ t).
Proof.
  induction (N.lt_wf_0 x) as [x _ IH]. intros s t.
  destruct (decide (x = 0)%N) as [->|Hx]; [reflexivity|].
  rewrite (pretty_N_go_step x s), (pretty_N_go_step x (s ++ t)) by lia.
  rewrite IH by (apply N.div_lt; lia). reflexivity.
Qed.

Lemma div10_small x : (x `div` 10 = 0)%N -> (x < 10)%N.
Proof.
  intros Hd. pose proof (N.div_mod x 10 ltac:(lia)) as H.
  pose proof (N.mod_lt x 10 ltac:(lia)). rewrite Hd in H. lia.
Qed.

(** The digits of a positive number start with a digit that is not 0. *)
Lemma pretty_N_go_head x : forall s,
  (0 < x)%N ->
  exists d rest, pretty_N_go x s = String (pretty_N_char d) rest /\
                 (0 < d < 10)%N.
Proof.
  induction (N.lt_wf_0 x) as [x _ IH]. intros s Hx.
  rewrite pretty_N_go_step by assumption.
  destruct (decide (x `div` 10 = 0)%N) as [Hd|Hd].
  - rewrite Hd. exists x, s.
    assert (x < 10)%N by (apply div10_small; exact Hd).
    rewrite N.mod_small by assumption. split; [reflexivity|lia].
  - apply IH; [apply N.div_lt; lia|apply N.neq_0_lt_0; exact Hd].
Qed.

Lemma leading_digits_pretty x :
  (0 < x)%N ->
  exists k, forall s acc,
    leading_digits 10 (pretty_N_go x s) acc =
    leading_digits 10 s (Some (default 0 acc * 10 ^ k + Z.of_N x)) /\ 0 < k.
Proof.
  induction (N.lt_wf_0 x) as [x _ IH]. intros Hx.
  destruct (decide (x `div` 10 = 0)%N) as [Hd|Hd].
  - exists 1. intros s acc. split; [|lia].
    assert (x < 10)%N by (apply div10_small; exact Hd).
    rewrite pretty_N_go_step by assumption. rewrite Hd.
    rewrite N.mod_small by assumption. rewrite pretty_N_go_0. simpl.
    rewrite digit_of_pretty_char by assumption. reflexivity.
  - destruct (IH (x `div` 10)%N) as (k & Hk);
      [apply N.div_lt; lia|apply N.neq_0_lt_0; exact Hd|].
    exists (k + 1). intros s acc. split; [|destruct (Hk s acc); lia].
    rewrite pretty_N_go_step by assumption.
    destruct (Hk (String (pretty_N_char (x `mod` 10)) s) acc) as [-> Hk0].
    simpl. rewrite digit_of_pretty_char by (apply N.mod_lt; lia). simpl.
    f_equal. f_equal.
    rewrite Z.pow_add_r by lia.
    pose proof (N.div_mod x 10 ltac:(lia)) as Hdm.
    assert (Z.of_N x = 10 * Z.of_N (x `div` 10) + Z.of_N (x `mod` 10)) by lia.
    lia.
Qed.

Lemma leading_digits_end n rest acc :
  ends_number n rest -> leading_digits 10 rest acc = acc.
Proof.
  destruct rest as [|c rest]; simpl; [reflexivity|]. intros [-> _]. reflexivity.
Qed.

Lemma pretty_char_plain d :
  (d < 10)%N ->
  is_white_space (pretty_N_char d) = false /\
  pretty_N_char d <> "-"%char /\ pretty_N_char d <> "+"%char.
Proof.
  intros H.
  assert (d = 0 \/ d = 1 \/ d = 2 \/ d = 3 \/ d = 4 \/ d = 5 \/ d = 6 \/ d = 7
          \/ d = 8 \/ d = 9)%N as Hd by lia.
  repeat (destruct Hd as [->|Hd]; [repeat split; discriminate|]).
  subst d. repeat split; discriminate.
Qed.

Lemma pretty_char_nonzero d :
  (0 < d < 10)%N -> pretty_N_char d <> "0"%char.
Proof.
  intros H.
  assert (d = 1 \/ d = 2 \/ d = 3 \/ d = 4 \/ d = 5 \/ d = 6 \/ d = 7
          \/ d = 8 \/ d = 9)%N as Hd by lia.
  repeat (destruct Hd as [->|Hd]; [discriminate|]). subst d. discriminate.
Qed.

(** [parseInt] on the digits of a positive number followed by anything
    that ends them. *)
Lemma parseInt_digits x rest :
  (0 < x)%N -> ends_number (Z.of_N x) rest ->
  leading_digits 10 (pretty_N_go x rest) None = Some (Z.of_N x) /\
  exists c tail, pretty_N_go x rest = String c tail /\
    is_white_space c = false /\ c <> "-"%char /\ c <> "+"%char /\ c <> "0"%char.
Proof.
  intros Hx Hend. split.
  - destruct (leading_digits_pretty x Hx) as (k & Hk).
    destruct (Hk rest None) as [-> _]. simpl.
    apply (leading_digits_end (Z.of_N x)). exact Hend.
  - destruct (pretty_N_go_head x rest Hx) as (d & tail & -> & Hd).
    exists (pretty_N_char d), tail.
    destruct (pretty_char_plain d ltac:(lia)) as (? & ? & ?).
    repeat split; auto. apply pretty_char_nonzero. exact Hd.
Qed.

(** Reading back what was printed.  [parseInt] of the decimal digits of an
    integer, followed by anything that cannot continue the number, is that
    integer. *)
Lemma parseInt_pretty n rest :
  ends_number n rest -> parseInt (pretty n ++ rest) = Some n.
Proof.
  intros Hend. destruct n as [|p|p].
  - change (pretty 0%Z) with "0". change ("0" ++ rest) with (String "0" rest).
    unfold parseInt. simpl.
    destruct rest as [|c rest]; [reflexivity|].
    destruct Hend as [Hd Hx]. destruct (Hx eq_refl) as [Hx1 Hx2].
    assert (E : (let '(radix, digits) :=
                   match String "0" (String c rest) with
                   | String "0" (String "x" r) | String "0" (String "X" r) => (16, r)
                   | _ => (10, String "0" (String c rest))
                   end in
                 match leading_digits radix digits None with
                 | Some mathInt => Some (1 * mathInt)
                 | None => None
                 end) = Some 0).
    { destruct c as [[] [] [] [] [] [] [] []]; try reflexivity;
        try (simpl in Hd; discriminate); try (destruct Hx1; reflexivity);
        try (destruct Hx2; reflexivity). }
    exact E.
  - change (pretty (Z.pos p)) with (pretty_N_go (N.pos p) "").
    rewrite pretty_N_go_append. change ("" ++ rest) with rest.
    destruct (parseInt_digits (N.pos p) rest ltac:(lia) Hend)
      as (Hdigits & c & tail & Hs & Hw & Hm & Hp & H0).
    unfold parseInt. rewrite Hs in *. simpl. rewrite Hw.
    destruct c as [[] [] [] [] [] [] [] []]; try (destruct Hm; reflexivity);
      try (destruct Hp; reflexivity); try (destruct H0; reflexivity);
      rewrite Hdigits; f_equal; lia.
  - change (pretty (Z.neg p)) with ("-" ++ pretty_N_go (N.pos p) "").
    change (("-" ++ pretty_N_go (N.pos p) "") ++ rest)
      with (String "-" (pretty_N_go (N.pos p) "" ++ rest)).
    rewrite pretty_N_go_append. change ("" ++ rest) with rest.
    destruct (parseInt_digits (N.pos p) rest ltac:(lia))
      as (Hdigits & c & tail & Hs & Hw & Hm & Hp & H0).
    { destruct rest as [|c rest]; [exact I|]. destruct Hend as [Hd _].
      split; [exact Hd|]. intros; lia. }
    unfold parseInt. simpl. rewrite Hs in *.
    destruct c as [[] [] [] [] [] [] [] []]; try (destruct H0; reflexivity);
      rewrite Hdigits; f_equal; lia.
Qed.

(** ** The catalogue and its cache *)

Section CatalogFacts.

Variable fault : nat -> option string.
Variable redis_fault : nat -> bool.
Variable ORDER_BY_created_at_DESC : Catalog.Rows -> Catalog.Rows.
Variable JSON_stringify : Catalog.Rows -> string.
Variable JSON_parse : string -> option Catalog.Rows.

Lemma redis_get_delete now key c : Catalog.redis_get now key (delete key c) = None.
Proof. unfold Catalog.redis_get. rewrite lookup_delete_eq. reflexivity. Qed.

Lemma coherent_invalidated now s c :
  coherent ORDER_BY_created_at_DESC JSON_parse now
    {| Catalog.db := s; Catalog.cache := delete "products:all" c |}.
Proof. intros text. simpl. rewrite redis_get_delete. discriminate. Qed.

Lemma coherent_later now later w :
  (now <= later)%Z ->
  coherent ORDER_BY_created_at_DESC JSON_parse now w ->
  coherent ORDER_BY_created_at_DESC JSON_parse later w.
Proof.
  intros Hle H text Hget. apply H. revert Hget.
  unfold Catalog.redis_get.
  destruct (Catalog.cache w !! "products:all") as [[v e]|]; [|discriminate].
  destruct (later <? e)%Z eqn:E; [|discriminate].
  apply Z.ltb_lt in E. assert (E' : (now <? e)%Z = true) by (apply Z.ltb_lt; lia).
  rewrite E'. auto.
Qed.

(** The listing on a world, case by case. *)
Lemma get_products_cases now w :
  let r := Catalog.get_products fault redis_fault ORDER_BY_created_at_DESC JSON_stringify
             JSON_parse now w in
  (r.1 = w /\ r.2 = ProductList.failed Catalog.Rows) \/
  (r.1 = w /\
   exists text rows,
     Catalog.redis_get now "products:all" (Catalog.cache w) = Some text /\
     text <> "" /\ JSON_parse text = Some rows /\
     r.2 = {| ProductList.status_code := 200;
              ProductList.body := ProductList.Products Catalog.Rows rows |}) \/
  (r.1 = Catalog.with_cache
           (insert "products:all"
              (JSON_stringify
                 (Catalog.select_active ORDER_BY_created_at_DESC (Catalog.db w)),
               (now + 300)%Z)) w /\
   r.2 = {| ProductList.status_code := 200;
            ProductList.body :=
              ProductList.Products Catalog.Rows
                (Catalog.select_active ORDER_BY_created_at_DESC (Catalog.db w)) |}).
Proof.
  cbv zeta. unfold Catalog.get_products, ProductList.get_products. simpl.
  destruct (redis_fault 0%nat); simpl; [left; auto|].
  destruct (Catalog.redis_get now "products:all" (Catalog.cache w)) as [text|] eqn:Eg.
  - destruct (String.eqb text "") eqn:Et.
    + destruct (fault 0%nat); simpl; [left; auto|].
      destruct (redis_fault 1%nat); simpl; [left; auto|]. right. right. auto.
    + destruct (JSON_parse text) as [rows|] eqn:Ep; simpl; [|left; auto].
      right. left. split; [reflexivity|]. exists text, rows.
      apply String.eqb_neq in Et. auto.
  - destruct (fault 0%nat); simpl; [left; auto|].
    destruct (redis_fault 1%nat); simpl; [left; auto|]. right. right. auto.
Qed.


(** The cache stays coherent.  Call the cache coherent when the listing it
    holds, while it lives, is the listing the store would give.  From a
    coherent state: coherence lasts as time passes; a listing request keeps
    it, whatever fails, provided [JSON.parse] reads back what
    [JSON.stringify] wrote; a create, an update or a delete keeps it
    whenever it is not answered 500; and a listing that is answered 200 is
    the store's current listing, whether it came from the cache or not. *)
Theorem cache_stays_coherent now w :
  coherent ORDER_BY_created_at_DESC JSON_parse now w ->
  (forall later, (now <= later)%Z ->
     coherent ORDER_BY_created_at_DESC JSON_parse later w) /\
  ((forall rows, JSON_parse (JSON_stringify rows) = Some rows) ->
   coherent ORDER_BY_created_at_DESC JSON_parse now
     (Catalog.get_products fault redis_fault ORDER_BY_created_at_DESC JSON_stringify
        JSON_parse now w).1) /\
  (forall req,
     Catalog.status_code (Catalog.create_product fault redis_fault now req w).2 <> 500%Z ->
     coherent ORDER_BY_created_at_DESC JSON_parse now
       (Catalog.create_product fault redis_fault now req w).1) /\
  (forall param req,
     Catalog.status_code (Catalog.update_product fault redis_fault now param req w).2
       <> 500%Z ->
     coherent ORDER_BY_created_at_DESC JSON_parse now
       (Catalog.update_product fault redis_fault now param req w).1) /\
  (forall param,
     Catalog.status_code (Catalog.delete_product fault redis_fault now param w).2
       <> 500%Z ->
     coherent ORDER_BY_created_at_DESC JSON_parse now
       (Catalog.delete_product fault redis_fault now param w).1) /\
  (forall rows,
     (Catalog.get_products fault redis_fault ORDER_BY_created_at_DESC JSON_stringify
        JSON_parse now w).2 =
       {| ProductList.status_code := 200;
          ProductList.body := ProductList.Products Catalog.Rows rows |} ->
     rows = Catalog.select_active ORDER_BY_created_at_DESC (Catalog.db w)).
Proof.
  intros Hco. split; [intros later Hle; eapply coherent_later; eauto|].
  split; [|split; [|split; [|split]]].
  - intros Hjson.
    pose proof (get_products_cases now w) as Hc. cbv zeta in Hc.
    destruct Hc as [[-> _]|[[-> _]|[-> _]]]; auto.
    intros text. unfold Catalog.redis_get. simpl. rewrite lookup_insert_eq.
    destruct (now <? now + 300)%Z; [|discriminate].
    intros [= <-] _. apply Hjson.
  - intros req. unfold Catalog.create_product.
    repeat (match goal with
            | |- context [match ?x with _ => _ end] => destruct x
            end; simpl; auto; try (intros H; exfalso; apply H; reflexivity);
            try (intros _; apply coherent_invalidated)).
  - intros param req. unfold Catalog.update_product.
    repeat (match goal with
            | |- context [match ?x with _ => _ end] => destruct x
            end; simpl; auto; try (intros H; exfalso; apply H; reflexivity);
            try (intros _; apply coherent_invalidated)).
  - intros param. unfold Catalog.delete_product.
    repeat (match goal with
            | |- context [match ?x with _ => _ end] => destruct x
            end; simpl; auto; try (intros H; exfalso; apply H; reflexivity);
            try (intros _; apply coherent_invalidated)).
  - intros rows Hres.
    pose proof (get_products_cases now w) as Hc. cbv zeta in Hc.
    destruct Hc as [[_ Hr]|[[_ (text & rows' & Hg & Hne & Hp & Hr)]|[_ Hr]]];
      rewrite Hr in Hres.
    + discriminate.
    + injection Hres as <-. pose proof (Hco text Hg Hne). congruence.
    + injection Hres as <-. reflexivity.
Qed.

End CatalogFacts.

Section CatalogOutcomes.

Variable fault : nat -> option string.
Variable redis_fault : nat -> bool.

Lemma truthy_name (v : option string) n :
  match v with
  | Some n => if String.eqb n "" then None else Some n
  | None => None
  end = Some n -> v = Some n /\ n <> "".
Proof.
  destruct v as [x|]; [|discriminate].
  destruct (String.eqb x "") eqn:E; [discriminate|].
  intros [= ->]. apply String.eqb_neq in E. auto.
Qed.

Lemma truthy_price (v : option Z) p :
  match v with
  | Some p => if (p =? 0)%Z then None else Some p
  | None => None
  end = Some p -> v = Some p /\ p <> 0%Z.
Proof.
  destruct v as [x|]; [|discriminate].
  destruct (Z.eqb_spec x 0); [discriminate|]. intros [= ->]. auto.
Qed.

Lemma sku_taken_false k except ps :
  Catalog.sku_taken k except ps = false ->
  forall i r s, ps !! i = Some r -> Some i <> except -> k = Some s ->
                Catalog.sku r <> Some s.
Proof.
  unfold Catalog.sku_taken. intros H i r s Hi Hne ->.
  apply bool_decide_eq_false in H. intros Hs. apply H.
  apply Exists_exists. exists (i, r). split; [|simpl; auto].
  apply elem_of_map_to_list. exact Hi.
Qed.

(** A new product.  When a create is answered 201, the request carried a
    name that is not empty and a price that is not 0; the id is the next
    of the sequence and was free; no stored product had the SKU of the
    request; the store has gained exactly the new row, active, with a stock
    of 0 unless the request gave one; the cached listing is gone; and a
    request for the product under the id of the answer finds that row.
    When it is answered 400, no product and no cache entry has changed. *)
Theorem create_product_outcome now req w :
  let r := Catalog.create_product fault redis_fault now req w in
  let id := (Catalog.products_id_seq (Catalog.db w) + 1)%Z in
  (Catalog.status_code r.2 = 201%Z ->
   exists name price,
     Catalog.b_name req = Some name /\ name <> "" /\
     Catalog.b_price req = Some price /\ price <> 0%Z /\
     Catalog.products (Catalog.db w) !! id = None /\
     (forall i row s, Catalog.products (Catalog.db w) !! i = Some row ->
        Catalog.b_sku req = Some s -> Catalog.sku row <> Some s) /\
     Catalog.products (Catalog.db r.1) =
       <[id := Catalog.new_row now name price req]> (Catalog.products (Catalog.db w)) /\
     Catalog.cache r.1 = delete "products:all" (Catalog.cache w) /\
     r.2 = {| Catalog.status_code := 201;
              Catalog.body := Catalog.RowBody id (Catalog.new_row now name price req) |} /\
     (forall fault', fault' 0%nat = None -> int4 id = true ->
        Catalog.get_product fault' (pretty id) r.1 =
          {| Catalog.status_code := 200;
             Catalog.body := Catalog.RowBody id (Catalog.new_row now name price req) |})) /\
  (Catalog.status_code r.2 = 400%Z ->
   Catalog.products (Catalog.db r.1) = Catalog.products (Catalog.db w) /\
   Catalog.cache r.1 = Catalog.cache w).
Proof.
  cbv zeta. unfold Catalog.create_product.
  destruct (match Catalog.b_name req with
            | Some n => if String.eqb n "" then None else Some n
            | None => None
            end) as [name|] eqn:En; [|simpl; split; [discriminate|auto]].
  destruct (match Catalog.b_price req with
            | Some p => if (p =? 0)%Z then None else Some p
            | None => None
            end) as [price|] eqn:Ep; [|simpl; split; [discriminate|auto]].
  destruct (fault 0%nat); [simpl; split; [discriminate|auto]|].
  destruct (bool_decide (is_Some _)) eqn:Eid; [simpl; split; [discriminate|auto]|].
  destruct (Catalog.sku_taken _ _ _) eqn:Esku; [simpl; split; [discriminate|auto]|].
  simpl. destruct (redis_fault 0%nat); simpl; [split; discriminate|].
  split; [intros _|discriminate].
  apply truthy_name in En as [Hn Hne]. apply truthy_price in Ep as [Hp Hpne].
  apply bool_decide_eq_false in Eid.
  exists name, price. repeat split; auto.
  - destruct (Catalog.products (Catalog.db w) !! _) eqn:E.
    + exfalso. apply Eid. eexists. reflexivity.
    + reflexivity.
  - intros i row s Hi Hs. eapply sku_taken_false; eauto.
  - intros fault' Hf Hint. unfold Catalog.get_product.
    rewrite <- (append_empty_r (pretty _)). rewrite parseInt_pretty by exact I.
    rewrite Hf, Hint. simpl. rewrite lookup_insert_eq. reflexivity.
Qed.

(** A write whose invalidation fails.  When the statement of a delete, an
    update or a create goes through and the cache then rejects the
    invalidation, the answer is 500, and yet the write is in the store; the
    cache is as it was, so a listing that it still holds is still served,
    whatever the store holds now. *)
Theorem failed_invalidation_keeps_the_write now w :
  fault 0%nat = None -> redis_fault 0%nat = true ->
  (forall param id row,
     parseInt param = Some id -> int4 id = true ->
     Catalog.products (Catalog.db w) !! id = Some row ->
     Catalog.delete_product fault redis_fault now param w =
       ({| Catalog.db := Catalog.with_products
                           (insert id (Catalog.soft_deleted now row)) (Catalog.db w);
           Catalog.cache := Catalog.cache w |},
        Catalog.json_error 500 "Failed to delete product")) /\
  (forall param req id row,
     parseInt param = Some id -> int4 id = true ->
     Catalog.products (Catalog.db w) !! id = Some row ->
     Catalog.sku_taken (Catalog.b_sku req) (Some id) (Catalog.products (Catalog.db w))
       = false ->
     Catalog.update_product fault redis_fault now param req w =
       ({| Catalog.db := Catalog.with_products
                           (insert id (Catalog.updated_row now req row)) (Catalog.db w);
           Catalog.cache := Catalog.cache w |},
        Catalog.json_error 500 "Failed to update product")) /\
  (forall req name price,
     Catalog.b_name req = Some name -> name <> "" ->
     Catalog.b_price req = Some price -> price <> 0%Z ->
     Catalog.products (Catalog.db w)
       !! (Catalog.products_id_seq (Catalog.db w) + 1)%Z = None ->
     Catalog.sku_taken (Catalog.b_sku req) None (Catalog.products (Catalog.db w))
       = false ->
     let r := Catalog.create_product fault redis_fault now req w in
     r.2 = Catalog.json_error 500 "Failed to create product" /\
     Catalog.products (Catalog.db r.1) =
       <[(Catalog.products_id_seq (Catalog.db w) + 1)%Z :=
           Catalog.new_row now name price req]> (Catalog.products (Catalog.db w)) /\
     Catalog.cache r.1 = Catalog.cache w) /\
  (forall ORDER_BY JSON_stringify JSON_parse later s text rows,
     Catalog.redis_get later "products:all" (Catalog.cache w) = Some text ->
     text <> "" -> JSON_parse text = Some rows ->
     (Catalog.get_products (fun _ => None) (fun _ => false) ORDER_BY JSON_stringify
        JSON_parse later {| Catalog.db := s; Catalog.cache := Catalog.cache w |}).2 =
       {| ProductList.status_code := 200;
          ProductList.body := ProductList.Products Catalog.Rows rows |}).
Proof.
  intros Hf Hr. split; [|split; [|split]].
  - intros param id row Hp Hi Hrow. unfold Catalog.delete_product.
    rewrite Hf, Hp, Hi, Hrow, Hr. reflexivity.
  - intros param req id row Hp Hi Hrow Hsku. unfold Catalog.update_product.
    rewrite Hf, Hp, Hi, Hrow, Hsku, Hr. reflexivity.
  - intros req name price Hn Hne Hp Hpne Hfree Hsku. cbv zeta.
    unfold Catalog.create_product. rewrite Hn, Hp, Hf, Hfree, Hsku, Hr.
    apply String.eqb_neq in Hne. rewrite Hne.
    destruct (Z.eqb_spec price 0); [contradiction|].
    rewrite bool_decide_eq_false_2 by (intros [x Hx]; discriminate).
    simpl. auto.
  - intros ORDER_BY JSON_stringify JSON_parse later s text rows Hg Hne Hp.
    unfold Catalog.get_products, ProductList.get_products. simpl.
    rewrite Hg. apply String.eqb_neq in Hne. rewrite Hne, Hp. reflexivity.
Qed.

End CatalogOutcomes.

(** Order creation fails on a line whose product the store does not hold
    active. *)
Lemma create_order_without_product fault now req db u items :
  required_fields req = Some (u, items) ->
  Exists (fun item => find_active (tables db) (li_product_id item) = None) items ->
  status_code (response (create_order fault now req db)) = 500%Z /\
  tables (db_after (create_order fault now req db)) = tables db.
Proof.
  intros Hreq Hex. unfold create_order, try_catch_release.
  destruct (create_order_body fault now req (connect db)) as [c [e|res]] eqn:E; simpl.
  - apply create_order_body_throw in E. auto.
  - exfalso. pose proof (create_order_body_ok _ _ _ _ _ _ E) as H.
    rewrite Hreq in H. cbv zeta in H. destruct H as (rows & HF & _).
    apply Exists_exists in Hex as (item & Hin & Hnone).
    clear E Hreq. induction HF as [|x row xs rows' [_ [p Hp]] _ IH].
    + inversion Hin.
    + apply elem_of_cons in Hin as [->|Hin]; [congruence|auto].
Qed.

Section CatalogAndOrders.

Variable fault fault' : nat -> option string.
Variable redis_fault redis_fault' : nat -> bool.

(** Everything a delete that was answered 200 has done. *)
Lemma delete_product_ok now param w :
  Catalog.status_code (Catalog.delete_product fault redis_fault now param w).2 = 200%Z ->
  exists id row,
    parseInt param = Some id /\ int4 id = true /\
    Catalog.products (Catalog.db w) !! id = Some row /\
    Catalog.delete_product fault redis_fault now param w =
      (Catalog.with_cache (delete "products:all")
         {| Catalog.db := Catalog.with_products
                            (insert id (Catalog.soft_deleted now row)) (Catalog.db w);
            Catalog.cache := Catalog.cache w |},
       {| Catalog.status_code := 200;
          Catalog.body := Catalog.MessageBody "Product deleted successfully" |}).
Proof.
  unfold Catalog.delete_product.
  destruct (fault 0%nat); [discriminate|].
  destruct (parseInt param) as [id|]; [|discriminate].
  destruct (int4 id) eqn:Ei; [|discriminate].
  destruct (Catalog.products (Catalog.db w) !! id) as [row|] eqn:Er; [|discriminate].
  destruct (redis_fault 0%nat); [discriminate|].
  intros _. exists id, row. auto.
Qed.

(** A deleted product is hidden and cannot be ordered.  When a delete is
    answered 200, the row is still stored, inactive, and every other row is
    as it was; a request for the product by its id is never answered 200
    (404 when the engine answers); a listing read from the store does not
    contain it; and an order one of whose lines names the product, placed
    on tables that hold the products as the catalogue does, is answered 500
    and changes no table. *)
Theorem soft_delete_hides_product now param w :
  let r := Catalog.delete_product fault redis_fault now param w in
  Catalog.status_code r.2 = 200%Z ->
  exists id row,
    parseInt param = Some id /\
    Catalog.products (Catalog.db w) !! id = Some row /\
    Catalog.products (Catalog.db r.1) =
      <[id := Catalog.soft_deleted now row]> (Catalog.products (Catalog.db w)) /\
    Catalog.status_code (Catalog.get_product fault' param r.1) <> 200%Z /\
    (fault' 0%nat = None ->
     Catalog.get_product fault' param r.1 = Catalog.json_error 404 "Product not found") /\
    (forall ORDER_BY : Catalog.Rows -> Catalog.Rows,
       (forall l x, x ∈ ORDER_BY l -> x ∈ l) ->
       forall x, x ∈ Catalog.select_active ORDER_BY (Catalog.db r.1) -> x.1 <> id) /\
    (forall now' req t sq u items,
       products t = Catalog.order_view <$> Catalog.products (Catalog.db r.1) ->
       required_fields req = Some (u, items) ->
       Exists (fun item => li_product_id item = Some id) items ->
       let o := create_order fault' now' req {| tables := t; orders_id_seq := sq |} in
       status_code (response o) = 500%Z /\ tables (db_after o) = t).
Proof.
  cbv zeta. intros Hst.
  destruct (delete_product_ok now param w Hst) as (id & row & Hp & Hi & Hrow & ->).
  exists id, row. simpl.
  split; [exact Hp|]. split; [exact Hrow|]. split; [reflexivity|].
  split; [|split; [|split]].
  - unfold Catalog.get_product. rewrite Hp.
    destruct (fault' 0%nat); [discriminate|]. rewrite Hi. simpl.
    rewrite lookup_insert_eq. simpl. discriminate.
  - intros Hf. unfold Catalog.get_product. rewrite Hp, Hf, Hi. simpl.
    rewrite lookup_insert_eq. reflexivity.
  - intros ORDER_BY Hsub x Hx Hid. unfold Catalog.select_active in Hx. simpl in Hx.
    apply Hsub in Hx. apply list_elem_of_filter in Hx as [Ha Hx].
    destruct x as [i r]. simpl in *. subst i.
    apply elem_of_map_to_list in Hx. rewrite lookup_insert_eq in Hx.
    injection Hx as <-. discriminate.
  - intros now' req t sq u items Ht Hreq Hex.
    apply (create_order_without_product fault' now' req
             {| tables := t; orders_id_seq := sq |} u items Hreq).
    eapply Exists_impl; [exact Hex|]. intros item Hitem. simpl.
    rewrite Hitem. unfold find_active. rewrite Ht.
    rewrite lookup_fmap, lookup_insert_eq. reflexivity.
Qed.

Lemma updated_after_soft_delete now1 now2 row :
  Catalog.updated_row now2 (only_is_active true) (Catalog.soft_deleted now1 row) =
  Catalog.updated_row now2 (only_is_active true) row.
Proof. reflexivity. Qed.

(** An update undoes a delete.  When a delete is answered 200 and an update
    of the same product that carries only [is_active: true] is answered 200
    after it, the store holds what that update alone would have left: the
    row of the product active, with its other columns as before the delete
    and the time of the update, every other row as it was; and the cached
    listing is gone. *)
Theorem update_undoes_soft_delete now1 now2 param w :
  let r1 := Catalog.delete_product fault redis_fault now1 param w in
  let r2 := Catalog.update_product fault' redis_fault' now2 param
              (only_is_active true) r1.1 in
  Catalog.status_code r1.2 = 200%Z ->
  Catalog.status_code r2.2 = 200%Z ->
  exists id row,
    parseInt param = Some id /\
    Catalog.products (Catalog.db w) !! id = Some row /\
    Catalog.products (Catalog.db r2.1) =
      <[id := Catalog.updated_row now2 (only_is_active true) row]>
        (Catalog.products (Catalog.db w)) /\
    Catalog.is_active (Catalog.updated_row now2 (only_is_active true) row) = true /\
    Catalog.cache r2.1 = delete "products:all" (Catalog.cache w).
Proof.
  cbv zeta. intros Hst1.
  destruct (delete_product_ok now1 param w Hst1) as (id & row & Hp & Hi & Hrow & ->).
  simpl. unfold Catalog.update_product. rewrite Hp, Hi. simpl.
  destruct (fault' 0%nat); [discriminate|].
  rewrite lookup_insert_eq.
  destruct (redis_fault' 0%nat); [discriminate|]. simpl. intros _.
  exists id, row. repeat split; auto.
  - rewrite insert_insert_eq. reflexivity.
  - apply map_eq. intros k. destruct (decide (k = "products:all")) as [->|Hk].
    + rewrite !lookup_delete_eq. reflexivity.
    + rewrite !lookup_delete_ne by auto. reflexivity.
Qed.

(** The id of a product request is read with [parseInt].  A request for
    the decimal digits of an integer followed by any text that cannot
    continue the number is answered as the request for the digits alone;
    and a request is answered 400 exactly when [parseInt] finds no number
    in its id. *)
Theorem get_product_reads_leading_digits n rest w :
  ends_number n rest ->
  Catalog.get_product fault (pretty n ++ rest) w = Catalog.get_product fault (pretty n) w /\
  (fault 0%nat = None -> int4 n = true ->
   Catalog.get_product fault (pretty n ++ rest) w =
     match Catalog.products (Catalog.db w) !! n with
     | Some row =>
         if Catalog.is_active row
         then {| Catalog.status_code := 200; Catalog.body := Catalog.RowBody n row |}
         else Catalog.json_error 404 "Product not found"
     | None => Catalog.json_error 404 "Product not found"
     end) /\
  (forall param,
     Catalog.status_code (Catalog.get_product fault param w) = 400%Z <->
     parseInt param = None).
Proof.
  intros Hend.
  assert (H1 : parseInt (pretty n ++ rest) = Some n) by (apply parseInt_pretty; exact Hend).
  assert (H2 : parseInt (pretty n) = Some n).
  { rewrite <- (append_empty_r (pretty n)). apply parseInt_pretty. exact I. }
  split; [|split].
  - unfold Catalog.get_product. rewrite H1, H2. reflexivity.
  - intros Hf Hi. unfold Catalog.get_product. rewrite H1, Hf, Hi. reflexivity.
  - intros param. unfold Catalog.get_product.
    destruct (parseInt param) as [id|]; [|simpl; tauto].
    split; [|discriminate].
    destruct (fault 0%nat); [discriminate|].
    destruct (int4 id); [|discriminate].
    destruct (Catalog.products (Catalog.db w) !! id) as [row|]; [|discriminate].
    destruct (Catalog.is_active row); discriminate.
Qed.

End CatalogAndOrders.

(** ** Routing *)

Section Routing.

Import Router.

Lemma eq_ignoring_case_nonempty text piece :
  eq_ignoring_case text piece = true -> text <> "" -> String.eqb piece "" = false.
Proof.
  destruct text as [|x text]; [contradiction|].
  destruct piece as [|y piece]; [discriminate|reflexivity].
Qed.

(** A path that matches [/a/b/text] matches [/a/b/:name]. *)
Lemma literal_is_shadowed a b text name request_path :
  text <> "" ->
  matches [Lit a; Lit b; Lit text] request_path = true ->
  matches [Lit a; Lit b; Param name] request_path = true.
Proof.
  intros Hne. unfold matches.
  destruct (Login.split "/" request_path) as [|first pieces]; [discriminate|].
  destruct (String.eqb first ""); [|discriminate]. simpl.
  destruct pieces as [|p1 [|p2 [|p3 rest]]]; try discriminate.
  - destruct (eq_ignoring_case a p1); discriminate.
  - destruct (eq_ignoring_case a p1); [|discriminate]. simpl.
    destruct (eq_ignoring_case b p2); discriminate.
  - destruct (eq_ignoring_case a p1); [|discriminate]. simpl.
    destruct (eq_ignoring_case b p2); [|discriminate]. simpl.
    destruct (eq_ignoring_case text p3) eqn:E; [|discriminate]. simpl.
    rewrite (eq_ignoring_case_nonempty _ _ E Hne). simpl. auto.
Qed.

(** The statistics routes are never reached.  In the order service and in
    the login service alike, the route [/api/.../stats] is registered after
    the route [/api/.../:id] of the same method, which matches every path
    that it matches: no request is dispatched to the statistics handler,
    and [GET /api/orders/stats] and [GET /api/users/stats] are answered by
    the handlers that look a row up by id.  Every other handler of the two
    services, and every handler of the product service, is reached by some
    request. *)
Theorem stats_routes_are_shadowed :
  (forall m request_path, dispatch order_routes m request_path <> Some OrderStats) /\
  (forall m request_path, dispatch login_routes m request_path <> Some UserStats) /\
  dispatch order_routes GET "/api/orders/stats" = Some GetOrder /\
  dispatch login_routes GET "/api/users/stats" = Some GetUser /\
  (forall h, h <> OrderStats -> exists m request_path,
     dispatch order_routes m request_path = Some h) /\
  (forall h, h <> UserStats -> exists m request_path,
     dispatch login_routes m request_path = Some h) /\
  (forall h, exists m request_path, dispatch product_routes m request_path = Some h).
Proof.
  split; [|split; [|split; [|split; [|split; [|split]]]]].
  - intros m request_path. unfold dispatch, order_routes. simpl.
    pose proof (literal_is_shadowed "api" "orders" "stats" "id" request_path
                  ltac:(discriminate)) as Hshadow.
    repeat (match goal with
            | |- context [if ?c then _ else _] => destruct c eqn:?
            end; simpl; try discriminate).
    exfalso.
    match goal with
    | H1 : (?g && matches [Lit "api"; Lit "orders"; Param "id"] _)%bool = false,
      H2 : (?g && matches [Lit "api"; Lit "orders"; Lit "stats"] _)%bool = true |- _ =>
        apply andb_true_iff in H2 as [Hg Hm]; rewrite Hg, (Hshadow Hm) in H1;
        discriminate
    end.
  - intros m request_path. unfold dispatch, login_routes. simpl.
    pose proof (literal_is_shadowed "api" "users" "stats" "id" request_path
                  ltac:(discriminate)) as Hshadow.
    repeat (match goal with
            | |- context [if ?c then _ else _] => destruct c eqn:?
            end; simpl; try discriminate).
    exfalso.
    match goal with
    | H1 : (?g && matches [Lit "api"; Lit "users"; Param "id"] _)%bool = false,
      H2 : (?g && matches [Lit "api"; Lit "users"; Lit "stats"] _)%bool = true |- _ =>
        apply andb_true_iff in H2 as [Hg Hm]; rewrite Hg, (Hshadow Hm) in H1;
        discriminate
    end.
  - reflexivity.
  - reflexivity.
  - intros h Hh. destruct h; try contradiction.
    + exists GET, "/health". reflexivity.
    + exists GET, "/api/orders". reflexivity.
    + exists GET, "/api/orders/1". reflexivity.
    + exists GET, "/api/users/1/orders". reflexivity.
    + exists POST, "/api/orders". reflexivity.
    + exists PATCH, "/api/orders/1/status". reflexivity.
    + exists DELETE, "/api/orders/1". reflexivity.
    + exists GET, "/". reflexivity.
  - intros h Hh. destruct h; try contradiction.
    + exists GET, "/health". reflexivity.
    + exists POST, "/api/auth/register". reflexivity.
    + exists POST, "/api/auth/login". reflexivity.
    + exists POST, "/api/auth/logout". reflexivity.
    + exists GET, "/api/auth/profile". reflexivity.
    + exists PUT, "/api/auth/profile". reflexivity.
    + exists POST, "/api/auth/change-password". reflexivity.
    + exists GET, "/api/users". reflexivity.
    + exists GET, "/api/users/1". reflexivity.
    + exists PATCH, "/api/users/1/deactivate". reflexivity.
    + exists POST, "/api/auth/verify". reflexivity.
    + exists POST, "/api/auth/cleanup-sessions". reflexivity.
    + exists GET, "/". reflexivity.
  - intros h. destruct h.
    + exists GET, "/health". reflexivity.
    + exists GET, "/api/products". reflexivity.
    + exists GET, "/api/products/1". reflexivity.
    + exists GET, "/api/products/category/Office". reflexivity.
    + exists POST, "/api/products". reflexivity.
    + exists PUT, "/api/products/1". reflexivity.
    + exists DELETE, "/api/products/1". reflexivity.
Qed.

End Routing.

(** ** The products kept in memory *)

Lemma Zdigits2_pos m : 0 < m -> 1 <= Zdigits2 m.
Proof. intros. rewrite Zdigits2_log2 by lia. pose proof (Z.log2_nonneg m). lia. Qed.

Lemma Zdigits2_small m : 0 < m < 2 ^ 53 -> Zdigits2 m <= 53.
Proof.
  intros. rewrite Zdigits2_log2 by lia.
  enough (Z.log2 m < 53) by lia. apply Z.log2_lt_pow2; lia.
Qed.

Lemma SFcompare_Z2SF a b :
  0 < a < 2 ^ 53 -> 0 < b < 2 ^ 53 -> SFcompare (Z2SF a) (Z2SF b) = Some (a ?= b)%Z.
Proof.
  intros Ha Hb.
  pose proof (Zdigits2_small a Ha) as Hda. pose proof (Zdigits2_small b Hb) as Hdb.
  pose proof (Zdigits2_pos a ltac:(lia)) as Hda1. pose proof (Zdigits2_pos b ltac:(lia)) as Hdb1.
  rewrite (Z2SF_settled a), (Z2SF_settled b) by lia.
  cbn [SFcompare]. f_equal.
  assert (Hpa : 0 < 2 ^ (53 - Zdigits2 a)) by (apply Z.pow_pos_nonneg; lia).
  assert (Hpb : 0 < 2 ^ (53 - Zdigits2 b)) by (apply Z.pow_pos_nonneg; lia).
  destruct (Z.compare_spec (Zdigits2 a - 53) (Zdigits2 b - 53)) as [E|E|E].
  - change (PosDef.Pos.compare_cont Eq) with Pos.compare.
    rewrite <- Z2Pos.inj_compare by nia.
    replace (Zdigits2 b) with (Zdigits2 a) by lia.
    rewrite (Z.mul_comm a), (Z.mul_comm b). symmetry. apply Zmult_compare_compat_l. lia.
  - symmetry. apply Z.compare_lt_iff.
    rewrite !Zdigits2_log2 in E by lia. apply Z.log2_lt_cancel. lia.
  - symmetry. apply Z.compare_gt_iff.
    rewrite !Zdigits2_log2 in E by lia. apply Z.log2_lt_cancel. lia.
Qed.

Lemma Z2SF_inj a b :
  0 < a < 2 ^ 53 -> 0 < b < 2 ^ 53 -> Z2SF a = Z2SF b -> a = b.
Proof.
  intros Ha Hb E. pose proof (SFcompare_Z2SF a b Ha Hb) as H.
  rewrite <- E, SFcompare_Z2SF in H by lia.
  rewrite Z.compare_refl in H. injection H as H. symmetry in H. apply Z.compare_eq_iff in H. exact H.
Qed.

Lemma Z2SF_key a : 0 < a < 2 ^ 53 -> Shelf.key (Z2SF a) = Z2SF a.
Proof.
  intros Ha. rewrite Z2SF_settled by (try apply Zdigits2_small; lia). reflexivity.
Qed.

Lemma larger_Z2SF a b :
  0 < a < 2 ^ 53 -> 0 < b < 2 ^ 53 -> Shelf.larger (Z2SF a) (Z2SF b) = Z2SF (Z.max a b).
Proof.
  intros Ha Hb. unfold Shelf.larger. rewrite SFcompare_Z2SF by lia.
  destruct (Z.compare_spec a b) as [E|E|E].
  - subst b. rewrite Z.max_id.
    rewrite (Z2SF_settled a) by (try apply Zdigits2_small; lia). reflexivity.
  - rewrite Z.max_r by lia. reflexivity.
  - rewrite Z.max_l by lia. reflexivity.
Qed.

Lemma fold_larger_Z2SF ids : forall a m,
  0 < a < 2 ^ 53 -> Forall (fun k => 0 < k < 2 ^ 53) ids ->
  m ∈ a :: ids -> Forall (fun k => k <= m) (a :: ids) ->
  fold_left Shelf.larger (map Z2SF ids) (Z2SF a) = Z2SF m.
Proof.
  induction ids as [|b ids IH]; intros a m Ha Hids Hin Hmax; simpl.
  - apply list_elem_of_singleton in Hin. subst m. reflexivity.
  - inversion Hids as [|? ? Hb Hids']; subst.
    rewrite larger_Z2SF by lia.
    inversion Hmax as [|? ? Ham Hmax']; subst.
    inversion Hmax' as [|? ? Hbm Hmax'']; subst.
    apply IH; [lia|assumption| |].
    + apply elem_of_cons in Hin as [->|Hin]; [|apply elem_of_cons in Hin as [->|Hin]].
      * rewrite Z.max_l by lia. left.
      * rewrite Z.max_r by lia. left.
      * right. exact Hin.
    + constructor; [lia|assumption].
Qed.

Lemma Math_max_Z2SF ids m :
  Forall (fun k => 0 < k < 2 ^ 53) ids -> m ∈ ids -> Forall (fun k => k <= m) ids ->
  Shelf.Math_max (map Z2SF ids) = Z2SF m.
Proof.
  intros Hids Hin Hmax. destruct ids as [|a ids]; [inversion Hin|].
  inversion Hids as [|? ? Ha Hids']; subst.
  unfold Shelf.Math_max. simpl.
  replace (Shelf.larger (S754_infinity true) (Z2SF a)) with (Z2SF a).
  - apply fold_larger_Z2SF; assumption.
  - rewrite (Z2SF_settled a) by (try apply Zdigits2_small; lia). reflexivity.
Qed.

Lemma get_set_eq k p o : Shelf.get k (Shelf.set k p o) = Some p.
Proof.
  induction o as [|[k' q] o IH]; simpl.
  - rewrite decide_True by reflexivity. reflexivity.
  - destruct (decide (k' = Shelf.key k)) as [E|E]; simpl.
    + rewrite decide_True by exact E. reflexivity.
    + rewrite decide_False by exact E. exact IH.
Qed.

Lemma get_set_ne k k' p o :
  Shelf.key k <> Shelf.key k' -> Shelf.get k' (Shelf.set k p o) = Shelf.get k' o.
Proof.
  intros Hne. induction o as [|[k0 q] o IH]; simpl.
  - rewrite decide_False by exact Hne. reflexivity.
  - destruct (decide (k0 = Shelf.key k)) as [E|E]; simpl.
    + subst k0. rewrite !decide_False by exact Hne. reflexivity.
    + destruct (decide (k0 = Shelf.key k')); [reflexivity|exact IH].
Qed.

Lemma keys_set_new k p o :
  Shelf.key k ∉ Shelf.Object_keys o ->
  Shelf.Object_keys (Shelf.set k p o) = (Shelf.Object_keys o ++ [Shelf.key k])%list.
Proof.
  unfold Shelf.Object_keys. induction o as [|[k0 q] o IH]; simpl; intros Hnot.
  - reflexivity.
  - apply not_elem_of_cons in Hnot as [Hne Hnot].
    rewrite decide_False by congruence. simpl. f_equal. apply IH, Hnot.
Qed.

(** A product that is added takes the id after the greatest one as long as
    the ids are whole numbers below 2^53 - 1: the products that were there
    stay as they were, each under its id, and the new one is what its id
    then reads, whatever follows the digits of the id in the address. *)
Theorem add_product_takes_the_next_id b o ids m name price category rest :
  shelved ids o ->
  Forall (fun k => 0 < k < 2 ^ 53 - 1) ids ->
  m ∈ ids -> Forall (fun k => k <= m) ids ->
  Accounts.truthy (Shelf.b_name b) = Some name ->
  Shelf.truthy_number (Shelf.b_price b) = Some price ->
  Accounts.truthy (Shelf.b_category b) = Some category ->
  ends_number (m + 1) rest ->
  let r := Shelf.add_product b o in
  exists p,
    snd r = {| Shelf.status_code := 201; Shelf.body := Shelf.Created p |} /\
    Shelf.id p = Z2SF (m + 1) /\ Shelf.name p = name /\ Shelf.price p = price /\
    Shelf.category p = category /\
    shelved (ids ++ [m + 1])%list (fst r) /\
    (forall k, k ∈ ids -> Shelf.get (Z2SF k) (fst r) = Shelf.get (Z2SF k) o) /\
    Shelf.get_product (pretty (m + 1) ++ rest) (fst r) =
      {| Shelf.status_code := 200; Shelf.body := Shelf.Found p |}.
Proof.
  intros Hs Hids Hin Hmax Hn Hp Hc Hrest r.
  assert (Hm : 0 < m < 2 ^ 53 - 1) by (rewrite Forall_forall in Hids; apply Hids, Hin).
  assert (Hids' : Forall (fun k => 0 < k < 2 ^ 53) ids).
  { eapply Forall_impl; [exact Hids|]. simpl. intros; lia. }
  assert (Hnew : js_add (Shelf.Math_max (Shelf.Object_keys o)) (Z2SF 1) = Z2SF (m + 1)).
  { rewrite Hs, (Math_max_Z2SF ids m) by assumption. apply Z2SF_succ; lia. }
  assert (Hfresh : forall k, k ∈ ids -> Shelf.key (Z2SF (m + 1)) <> Shelf.key (Z2SF k)).
  { intros k Hk E.
    assert (0 < k < 2 ^ 53 - 1) by (rewrite Forall_forall in Hids; apply Hids, Hk).
    assert (k <= m) by (rewrite Forall_forall in Hmax; apply Hmax, Hk).
    rewrite !Z2SF_key in E by lia. apply Z2SF_inj in E; lia. }
  subst r. unfold Shelf.add_product. rewrite Hn, Hp, Hc. cbv zeta. rewrite Hnew.
  eexists. cbn [fst snd]. split; [reflexivity|].
  split; [reflexivity|]. split; [reflexivity|]. split; [reflexivity|]. split; [reflexivity|].
  split; [|split].
  - unfold shelved. rewrite keys_set_new.
    + rewrite Hs, Z2SF_key by lia. rewrite map_app. reflexivity.
    + rewrite Hs. intros Hel. apply list_elem_of_fmap in Hel as (k & Ek & Hk).
      apply (Hfresh k Hk). rewrite Ek. rewrite !Z2SF_key; try lia; [reflexivity|].
      rewrite Forall_forall in Hids. specialize (Hids k Hk). lia.
  - intros k Hk. apply get_set_ne, Hfresh, Hk.
  - unfold Shelf.get_product. rewrite parseInt_pretty by exact Hrest.
    rewrite get_set_eq. reflexivity.
Qed.

(** * Worked requests *)

Lemma stock_nonneg_check t :
  map_Forall (fun _ p => (0 <= default 0 (p_stock_quantity p))%Z) (products t) ->
  stock_nonneg t.
Proof. intros H i p s Hp Hs. specialize (H i p Hp). simpl in H. rewrite Hs in H. exact H. Qed.

Lemma items_reference_orders_check t :
  Forall (fun it => is_Some (orders t !! oi_order_id it)) (order_items t) ->
  items_reference_orders t.
Proof. intros H it Hin. rewrite Forall_forall in H. auto. Qed.

(** The scenario of the specification: total 25.00, two item rows, stocks
    lowered by 2 and by 1. *)
Example two_lines_created :
  let r := create_order no_fault 7 two_lines shop in
  status_code (response r) = 201%Z /\
  (o_total_amount <$> orders (tables (db_after r)) !! 1%Z) = Some (Z2SF 25) /\
  length (items_of_order 1 (tables (db_after r))) = 2%nat /\
  (p_stock_quantity <$> products (tables (db_after r)) !! 1%Z) = Some (Some 48%Z) /\
  (p_stock_quantity <$> products (tables (db_after r)) !! 2%Z) = Some (Some 199%Z).
Proof. vm_compute. repeat split; reflexivity. Qed.



Lemma create_order_keeps_stock_nonneg_witness :
  stock_nonneg (tables shop) /\
  stock_nonneg (tables (db_after (create_order no_fault 7 same_product_twice shop))).
Proof.
  assert (H : stock_nonneg (tables shop)).
  { apply stock_nonneg_check. apply (bool_decide_unpack _). vm_compute. exact I. }
  split; [exact H|].
  exact (proj1 (create_order_keeps_stock_nonneg no_fault 7 same_product_twice shop H)).
Defined.






(** C7 fails on the handler: a line without [product_id] and a line
    without [quantity] are answered 500, not 400, and the second reaches the
    INSERT into [order_items] before it fails. *)
Lemma missing_line_field_counterexample :
  response (create_order no_fault 7 no_product_id shop) =
    {| status_code := 500;
       body := ErrorBody (Text "Product with ID undefined not found or inactive") |} /\
  response (create_order no_fault 7 no_quantity shop) =
    {| status_code := 500;
       body := ErrorBody (EngineText (NotNullViolation "quantity")) |}.
Proof. vm_compute. split; reflexivity. Qed.

Lemma create_order_validation_witness :
  create_order no_fault 7 (request 0 [line 1 1]) shop =
    {| db_after := shop;
       response := json_error 400 "Missing required fields: user_id and items array";
       txn_open := true |} /\
  status_code (response (create_order no_fault 7 no_quantity shop)) = 500%Z /\
  tables (db_after (create_order no_fault 7 no_quantity shop)) = tables shop.
Proof.
  split.
  - apply (proj1 (create_order_validation no_fault 7 (request 0 [line 1 1]) shop));
      [reflexivity|right; left; reflexivity].
  - apply (proj2 (create_order_validation no_fault 7 no_quantity shop) 1
             [ {| li_product_id := Some 1%Z; li_quantity := None |} ]);
      [reflexivity|].
    constructor. right. reflexivity.
Defined.


(** C8 fails on the handlers: a forged token is answered 403 "Invalid
    token" by the middleware where a signed token without a session, or with
    an expired one, is answered 401 "Invalid or expired session"; the verify
    endpoint gives both 401, with different bodies. *)
Lemma auth_outcomes_differ :
  Login.authenticateToken accepts_signed false 100 (Some "Bearer forged") [] =
    Login.Respond {| Login.status_code := 403;
                     Login.body := Login.ErrorBody "Invalid token" |} /\
  Login.authenticateToken accepts_signed false 100 (Some "Bearer signed") [] =
    Login.Respond {| Login.status_code := 401;
                     Login.body := Login.ErrorBody "Invalid or expired session" |} /\
  Login.authenticateToken accepts_signed false 100 (Some "Bearer signed") [expired_row] =
    Login.Respond {| Login.status_code := 401;
                     Login.body := Login.ErrorBody "Invalid or expired session" |} /\
  Login.verify accepts_signed false 100 (Some "forged") [] =
    {| Login.status_code := 401; Login.body := Login.InvalidBody "Invalid token" |} /\
  Login.verify accepts_signed false 100 (Some "signed") [expired_row] =
    {| Login.status_code := 401;
       Login.body := Login.ErrorBody "Invalid or expired session" |}.
Proof. vm_compute. repeat split; reflexivity. Qed.

Lemma auth_failure_outcomes_witness :
  Login.authenticateToken accepts_signed false 100 (Some "Bearer signed") [expired_row] =
    Login.Respond {| Login.status_code := 401;
                     Login.body := Login.ErrorBody "Invalid or expired session" |} /\
  Login.verify accepts_signed false 100 (Some "signed") [expired_row] =
    {| Login.status_code := 401;
       Login.body := Login.ErrorBody "Invalid or expired session" |}.
Proof.
  apply (proj2 (auth_failure_outcomes accepts_signed 100 (Some "Bearer signed")
                  "signed" [expired_row] eq_refl) john eq_refl).
  intros s Hin _. apply list_elem_of_singleton in Hin. subst s. simpl. lia.
Defined.

(** C9 fails on the handler: with the store answering, a rejected cache
    read and a rejected cache write are both answered 500. *)
Lemma listing_not_fail_open :
  ProductList.response _
    (ProductList.get_products _ (String.concat ",") (fun _ => None)
       (listing ProductList.Rejected (ProductList.Resolved tt))) =
    {| ProductList.status_code := 500;
       ProductList.body := ProductList.ErrorBody _ "Failed to fetch products" |} /\
  ProductList.response _
    (ProductList.get_products _ (String.concat ",") (fun _ => None)
       (listing (ProductList.Resolved None) ProductList.Rejected)) =
    {| ProductList.status_code := 500;
       ProductList.body := ProductList.ErrorBody _ "Failed to fetch products" |}.
Proof. split; reflexivity. Qed.

Lemma listing_depends_on_cache_witness :
  ProductList.response _
    (ProductList.get_products _ (String.concat ",") (fun _ => None)
       (listing (ProductList.Resolved None) (ProductList.Resolved tt))) =
    {| ProductList.status_code := 200;
       ProductList.body := ProductList.Products _ ["Laptop Pro"] |} /\
  ProductList.response _
    (ProductList.get_products _ (String.concat ",") (fun _ => None)
       (listing ProductList.Rejected (ProductList.Resolved tt))) =
    ProductList.failed _.
Proof.
  pose proof (listing_depends_on_cache (list string) (String.concat ",")
                (fun _ => None)) as H.
  split.
  - rewrite (proj1 (H (listing (ProductList.Resolved None) (ProductList.Resolved tt))
                      ["Laptop Pro"] eq_refl) eq_refl eq_refl).
    reflexivity.
  - exact (proj1 (proj2 (H (listing ProductList.Rejected (ProductList.Resolved tt))
                           ["Laptop Pro"] eq_refl)) eq_refl).
Defined.

Lemma absent_or_inactive_product_witness :
  status_code (response (create_order no_fault 7 unknown_product shop)) = 500%Z /\
  tables (db_after (create_order no_fault 7 unknown_product shop)) = tables shop.
Proof.
  apply (absent_or_inactive_product_fails no_fault 7 unknown_product shop 1
           [line 1 1; line 99 1] eq_refl).
  right. left. vm_compute. reflexivity.
Defined.

Lemma revoked_session_witness :
  Login.authenticateToken accepts_signed false 10 (Some "Bearer signed")
    (Login.delete_session "signed" [expired_row]) =
    Login.Respond {| Login.status_code := 401;
                     Login.body := Login.ErrorBody "Invalid or expired session" |}.
Proof.
  exact (revoked_session_is_rejected accepts_signed 10 (Some "Bearer signed")
           "signed" john [expired_row] eq_refl eq_refl).
Defined.

Lemma excessive_quantity_witness :
  status_code (response (create_order no_fault 7 (request 1 [line 1 1; line 3 6]) shop))
    = 500%Z /\
  tables (db_after (create_order no_fault 7 (request 1 [line 1 1; line 3 6]) shop))
    = tables shop.
Proof.
  apply (excessive_quantity_fails no_fault 7 (request 1 [line 1 1; line 3 6]) shop 1
           [line 1 1; line 3 6] eq_refl).
  - apply stock_nonneg_check. apply (bool_decide_unpack _). vm_compute. exact I.
  - repeat constructor; intros q [= <-]; lia.
  - right. left. eexists _, 6%Z. split; [vm_compute; reflexivity|].
    split; [reflexivity|]. simpl. lia.
Defined.

Lemma create_order_decrements_stock_witness :
  p_stock_quantity <$>
    products (tables (db_after (create_order no_fault 7 two_lines shop))) !! 1%Z
  = Some (Some 48%Z).
Proof.
  rewrite (create_order_decrements_stock no_fault 7 two_lines shop 1
             [line 1 2; line 2 1] eq_refl eq_refl 1%Z).
  reflexivity.
Defined.

Lemma create_then_cancel_witness :
  products (tables (db_after
    (cancel_order no_fault 9 1
       (db_after (create_order no_fault 7 two_lines shop))))) = shop_products.
Proof.
  pose proof (create_then_cancel_restores_products no_fault no_fault 7 9 two_lines shop)
    as H.
  cbv zeta in H.
  destruct H as [H1 H2].
  - apply items_reference_orders_check. constructor.
  - reflexivity.
  - apply H1. apply H2. reflexivity.
Defined.

Lemma cancel_twice_witness :
  p_stock_quantity <$>
    products (tables (db_after
      (cancel_order no_fault 9 3
         (db_after (cancel_order no_fault 8 3 shop_with_history))))) !! 3%Z
  = Some (Some 11%Z).
Proof.
  pose proof (cancel_twice_restores_twice no_fault 8 9 3 shop_with_history
                (past_order "pending") eq_refl) as H.
  cbv zeta in H.
  destruct H as [_ H]; [discriminate|reflexivity|].
  rewrite H. reflexivity.
Defined.

Lemma create_order_succeeds_witness :
  status_code (response (create_order no_fault 7 (request 1 [line 3 2; line 3 3]) shop))
    = 201%Z.
Proof.
  apply (create_order_succeeds no_fault (fun _ => eq_refl) 7
           (request 1 [line 3 2; line 3 3]) shop 1 [line 3 2; line 3 3] eq_refl).
  - apply (bool_decide_unpack _). vm_compute. exact I.
  - reflexivity.
  - repeat constructor.
    + exists 3%Z, 2%Z, {| p_name := "Sticker"; p_price := 10;
                          p_stock_quantity := Some 5%Z; p_is_active := true |}.
      split; [reflexivity|]. split; [reflexivity|]. split; [lia|].
      split; [reflexivity|]. split; [reflexivity|]. vm_compute. discriminate.
    + exists 3%Z, 3%Z, {| p_name := "Sticker"; p_price := 10;
                          p_stock_quantity := Some 5%Z; p_is_active := true |}.
      split; [reflexivity|]. split; [reflexivity|]. split; [lia|].
      split; [reflexivity|]. split; [reflexivity|]. vm_compute. discriminate.
Defined.

Lemma register_then_login_witness :
  Accounts.status_code
    (Accounts.register no_fault salted 1000 "pepper" john_registers nobody).2 = 201 /\
  Accounts.login no_fault salted_matches signs a_day_later 2000 john_logs_in registered =
    (logged_in,
     {| Accounts.status_code := 200;
        Accounts.body :=
          Accounts.LoggedIn "signed"
            {| Accounts.v_id := 1; Accounts.v_username := "john_doe";
               Accounts.v_email := "john@example.com";
               Accounts.v_first_name := Some "John";
               Accounts.v_last_name := None |} true |}).
Proof.
  split; [reflexivity|].
  pose proof (register_then_login no_fault no_fault salted salted_matches signs
                a_day_later 1000 "pepper" john_registers nobody 2000
                "john_doe" "john@example.com" "secret1") as H.
  cbv zeta in H. unfold registered, john_logs_in. rewrite H; try reflexivity.
  - constructor.
  - constructor.
Defined.


Lemma login_twice_in_one_second_witness :
  (Accounts.login no_fault salted_matches signs a_day_later 2500 john_logs_in
     logged_in).2 = Accounts.json_error 500 "Internal server error".
Proof.
  exact (proj1 (login_twice_in_one_second no_fault no_fault salted_matches signs
                  a_day_later 2000 2500 john_logs_in registered eq_refl eq_refl)).
Defined.


Lemma deactivate_blocks_login_witness :
  (Accounts.login no_fault salted_matches signs a_day_later 4000 john_logs_in
     (Accounts.deactivate no_fault accepts_signed false 3000 (Some "Bearer signed") "1"
        logged_in).1).2 = Accounts.json_error 401 "Invalid credentials".
Proof.
  destruct (deactivate_blocks_login no_fault no_fault salted_matches signs accepts_signed
              a_day_later false 3000 (Some "Bearer signed") "1" logged_in
              {| Accounts.status_code := 200;
                 Accounts.body :=
                   Accounts.Deactivated 1 "john_doe" "john@example.com" false |}
              eq_refl eq_refl) as (userId & Hparam & _ & _ & Hlogin).
  injection Hparam as <-.
  unfold john_logs_in. rewrite Hlogin; [reflexivity|discriminate|discriminate|reflexivity|].
  intros u Hu _. apply list_elem_of_singleton in Hu. subst u. reflexivity.
Defined.

Lemma deactivate_is_not_atomic_witness :
  (Accounts.deactivate second_query_fails accepts_signed false 3000
     (Some "Bearer signed") "1" logged_in).2 =
    Accounts.Route (Accounts.json_error 500 "Internal server error") /\
  Accounts.user_sessions
    (Accounts.deactivate second_query_fails accepts_signed false 3000
       (Some "Bearer signed") "1" logged_in).1 = Accounts.user_sessions logged_in /\
  Accounts.u_is_active <$>
    Accounts.users
      (Accounts.deactivate second_query_fails accepts_signed false 3000
         (Some "Bearer signed") "1" logged_in).1 = [false].
Proof.
  destruct (deactivate_is_not_atomic second_query_fails accepts_signed 3000
              (Some "Bearer signed") "1" 1 logged_in john
              "Connection terminated unexpectedly" eq_refl eq_refl eq_refl)
    as (H1 & _ & H3 & _).
  - left. reflexivity.
  - reflexivity.
  - reflexivity.
  - split; [exact H1|]. split; [exact H3|reflexivity].
Defined.

Lemma cache_stays_coherent_witness :
  coherent as_stored reads 100 catalogue /\
  coherent as_stored reads 100
    (Catalog.delete_product no_fault redis_up 100 "1" catalogue).1 /\
  (Catalog.get_products no_fault redis_up as_stored writes reads 100 catalogue).2 =
    {| ProductList.status_code := 200;
       ProductList.body := ProductList.Products Catalog.Rows [(1, laptop)] |}.
Proof.
  assert (H : coherent as_stored reads 100 catalogue).
  { intros text Ht _. vm_compute in Ht. injection Ht as <-. reflexivity. }
  split; [exact H|].
  destruct (cache_stays_coherent no_fault redis_up as_stored writes reads 100 catalogue H)
    as (_ & _ & _ & _ & Hdelete & _).
  split; [apply Hdelete; vm_compute; discriminate|reflexivity].
Defined.

Lemma failed_invalidation_witness :
  Catalog.delete_product no_fault redis_down 100 "1" catalogue =
    ({| Catalog.db := Catalog.with_products (insert 1 (Catalog.soft_deleted 100 laptop))
                        (Catalog.db catalogue);
        Catalog.cache := Catalog.cache catalogue |},
     Catalog.json_error 500 "Failed to delete product").
Proof.
  exact (proj1 (failed_invalidation_keeps_the_write no_fault redis_down 100 catalogue
                  eq_refl eq_refl) "1" 1 laptop eq_refl eq_refl eq_refl).
Defined.

Lemma soft_delete_hides_product_witness :
  Catalog.get_product no_fault "1"
    (Catalog.delete_product no_fault redis_up 100 "1" catalogue).1 =
    Catalog.json_error 404 "Product not found".
Proof.
  destruct (soft_delete_hides_product no_fault no_fault redis_up 100 "1" catalogue eq_refl)
    as (id & row & _ & _ & _ & _ & Hget & _).
  apply Hget. reflexivity.
Defined.

Lemma update_undoes_soft_delete_witness :
  Catalog.get_product no_fault "1"
    (Catalog.update_product no_fault redis_up 200 "1" (only_is_active true)
       (Catalog.delete_product no_fault redis_up 100 "1" catalogue).1).1 =
    {| Catalog.status_code := 200;
       Catalog.body := Catalog.RowBody 1 (Catalog.updated_row 200 (only_is_active true)
                                            laptop) |}.
Proof.
  destruct (update_undoes_soft_delete no_fault no_fault redis_up redis_up 100 200 "1"
              catalogue eq_refl eq_refl)
    as (id & row & Hparam & Hrow & Hproducts & Hactive & _).
  injection Hparam as <-. injection Hrow as <-.
  unfold Catalog.get_product. change (parseInt "1") with (Some 1).
  cbv beta iota. rewrite Hproducts, lookup_insert_eq, Hactive. reflexivity.
Defined.

Lemma get_product_reads_leading_digits_witness :
  Catalog.get_product no_fault "1abc" catalogue =
    {| Catalog.status_code := 200; Catalog.body := Catalog.RowBody 1 laptop |}.
Proof.
  assert (Hend : ends_number 1 "abc") by (split; [reflexivity|discriminate]).
  exact (proj1 (proj2 (get_product_reads_leading_digits no_fault 1 "abc" catalogue Hend))
           eq_refl eq_refl).
Defined.

Lemma add_product_witness :
  exists p,
    (Shelf.add_product a_mug Shelf.products).2 =
      {| Shelf.status_code := 201; Shelf.body := Shelf.Created p |} /\
    Shelf.id p = Z2SF 6 /\
    Shelf.get_product "6" (Shelf.add_product a_mug Shelf.products).1 =
      {| Shelf.status_code := 200; Shelf.body := Shelf.Found p |}.
Proof.
  destruct (add_product_takes_the_next_id a_mug Shelf.products [1; 2; 3; 4; 5] 5
              "Travel Mug" (parseFloat 1599) "Kitchen" "")
    as (p & Hr & Hid & _ & _ & _ & _ & _ & Hget).
  - reflexivity.
  - repeat constructor.
  - repeat constructor.
  - repeat constructor; lia.
  - reflexivity.
  - reflexivity.
  - reflexivity.
  - exact I.
  - exists p. split; [exact Hr|]. split; [exact Hid|exact Hget].
Defined.

Lemma register_outcome_witness :
  Accounts.u_username <$>
    Accounts.users
      (Accounts.register no_fault salted 1000 "pepper" john_registers nobody).1 =
    ["john_doe"].
Proof.
  destruct (proj1 (register_outcome no_fault salted 1000 "pepper" john_registers nobody)
              eq_refl)
    as (username & email & password & Hu & _ & _ & _ & _ & _ & _ & Husers & _).
  rewrite Husers. injection Hu as <-. reflexivity.
Defined.

Lemma profile_update_witness :
  Regex.test Accounts.emailRegex "" = false /\
  Accounts.u_email <$>
    Accounts.users
      (Accounts.update_profile no_fault accepts_signed false 3000 (Some "Bearer signed")
         {| Accounts.pb_first_name := None; Accounts.pb_last_name := None;
            Accounts.pb_email := Some "" |} logged_in).1 = [""].
Proof.
  destruct (proj2 (profile_update_coalesces no_fault accepts_signed false 3000
                     (Some "Bearer signed")
                     {| Accounts.pb_first_name := None; Accounts.pb_last_name := None;
                        Accounts.pb_email := Some "" |} logged_in)
              john eq_refl eq_refl eq_refl)
    as (_ & Htest & _).
  - left. split; reflexivity.
  - repeat constructor. intros Hne. exfalso. apply Hne. reflexivity.
  - split; [exact Htest|reflexivity].
Defined.

Lemma cleanup_witness :
  Accounts.body (Accounts.cleanup_sessions no_fault 100 with_expired_session).2 =
    Accounts.MessageBody "Cleaned up 1 expired sessions" /\
  Accounts.user_sessions (Accounts.cleanup_sessions no_fault 100 with_expired_session).1 =
    Accounts.user_sessions logged_in.
Proof.
  destruct (cleanup_keeps_live_sessions no_fault 100 with_expired_session)
    as (_ & _ & H).
  destruct (H eq_refl) as [_ Hbody].
  split; [rewrite Hbody; reflexivity|reflexivity].
Defined.

Lemma create_product_witness :
  Catalog.get_product no_fault "2"
    (Catalog.create_product no_fault redis_up 100 a_new_mug catalogue).1 =
    {| Catalog.status_code := 200;
       Catalog.body := Catalog.RowBody 2 (Catalog.new_row 100 "Coffee Mug" 1299
                                            a_new_mug) |}.
Proof.
  destruct (proj1 (create_product_outcome no_fault redis_up 100 a_new_mug catalogue)
              eq_refl)
    as (name & price & Hn & _ & Hp & _ & _ & _ & _ & _ & _ & Hget).
  injection Hn as <-. injection Hp as <-.
  exact (Hget no_fault eq_refl eq_refl).
Defined.
